(** * robotidy disablers: the suppression engine of [robotidy/disablers.py]

    A shallow embedding of the directive recogniser, the scope-stack
    traversal ([RegisterDisablers]) and the registry with its queries
    ([DisablersInFile], [DisabledLines]), followed by the properties of
    the engine.

    Conventions.
    - Python [int] line numbers are [Z]; [Optional[int]] is [option Z].
    - A Python [str] is a [string]; a character is read as the code point
      of the same number (0..255).  The classes [\s] and [\w] and
      [str.strip] are those of Python 3 on that range.
    - The registry [Dict[str, DisabledLines]] is a [gmap string
      DisabledLines]; a scope frame [Dict[str, int]] is an insertion-ordered
      association list, as [close_disabler] iterates over it.
    - The scope stack [disablers_in_scope] is a list in Python order:
      index [0] is its head, index [-1] its last element, [append] adds at
      the end.
    - A visitor that raises (indexing an empty stack, reading [.value] of
      [None]) returns [None]. *)

From Stdlib Require Import ZArith Ascii String List Lia Bool Sorted.
From stdpp Require Import base option list strings gmap.
Import ListNotations.

Local Open Scope string_scope.
Local Open Scope list_scope.
Local Open Scope Z_scope.

(* ===================================================================== *)
(** ** Python string primitives *)
(* ===================================================================== *)

Module Py.

(** [str.isspace] on one character, also the class [\s] of [re]. *)
Definition is_space (c : ascii) : bool :=
  let n := N_of_ascii c in
  ((9 <=? n) && (n <=? 13) || (28 <=? n) && (n <=? 32)
   || (n =? 133) || (n =? 160))%N.

(** The class [\w] of [re] on a [str] pattern. *)
Definition is_word (c : ascii) : bool :=
  let n := N_of_ascii c in
  ((48 <=? n) && (n <=? 57) || (65 <=? n) && (n <=? 90) || (n =? 95)
   || (97 <=? n) && (n <=? 122) || (n =? 170) || (178 <=? n) && (n <=? 179)
   || (n =? 181) || (185 <=? n) && (n <=? 186) || (188 <=? n) && (n <=? 190)
   || (192 <=? n) && (n <=? 214) || (216 <=? n) && (n <=? 246)
   || (248 <=? n) && (n <=? 255))%N.

Definition is_comma (c : ascii) : bool := Ascii.eqb c ",".

(** Longest prefix of characters in a class, and what follows it: a greedy
    [c*] of a regular expression. *)
Fixpoint span (p : ascii -> bool) (s : string) : string * string :=
  match s with
  | EmptyString => (EmptyString, EmptyString)
  | String c r =>
      if p c then let '(a, b) := span p r in (String c a, b)
      else (EmptyString, s)
  end.

(** A greedy [c?]. *)
Definition opt (p : ascii -> bool) (s : string) : string * string :=
  match s with
  | String c r => if p c then (String c EmptyString, r) else (EmptyString, s)
  | EmptyString => (EmptyString, EmptyString)
  end.

(** A literal: the rest of [s] after the prefix [lit]. *)
Fixpoint literal (lit s : string) : option string :=
  match lit with
  | EmptyString => Some s
  | String c lit' =>
      match s with
      | String d r => if Ascii.eqb c d then literal lit' r else None
      | EmptyString => None
      end
  end.

(** [c in s] for a one-character [c]. *)
Fixpoint contains (c : ascii) (s : string) : bool :=
  match s with
  | EmptyString => false
  | String d r => Ascii.eqb c d || contains c r
  end.

(** [s.split(",")]. *)
Fixpoint split_comma (s : string) : list string :=
  match s with
  | EmptyString => [EmptyString]
  | String c r =>
      if is_comma c then EmptyString :: split_comma r
      else match split_comma r with
           | h :: t => String c h :: t
           | [] => [String c EmptyString]
           end
  end.

Definition lstrip (s : string) : string := snd (span is_space s).

Fixpoint rstrip (s : string) : string :=
  match s with
  | EmptyString => EmptyString
  | String c r =>
      match rstrip r with
      | EmptyString => if is_space c then EmptyString else String c EmptyString
      | r' => String c r'
      end
  end.

(** [s.strip()]. *)
Definition strip (s : string) : string := rstrip (lstrip s).

(** Truth value of a [str]. *)
Definition truthy (s : string) : bool :=
  match s with EmptyString => false | _ => true end.

(** Truth value of an [Optional[int]]: [None] and [0] are false. *)
Definition truthy_int (o : option Z) : bool :=
  match o with Some z => negb (z =? 0) | None => false end.

End Py.

(* ===================================================================== *)
(** ** The directive recogniser *)
(* ===================================================================== *)

Definition ALL_TRANSFORMERS : string := "all".

(** What the code reads of a match object: [group(0)] and the two named
    groups. *)
Record Match := mkMatch {
  group0 : string;
  group_disabler : string;
  group_transformers : string
}.

Definition is_blank (c : ascii) : bool := Ascii.eqb c " ".
Definition is_equals (c : ascii) : bool := Ascii.eqb c "=".
Definition is_target_char (c : ascii) : bool :=
  Py.is_word c || Py.is_comma c || Py.is_space c.

(** [on|off]: the alternatives in order. *)
Definition on_or_off (s : string) : option (string * string) :=
  match Py.literal "on" s with
  | Some r => Some ("on", r)
  | None =>
      match Py.literal "off" s with
      | Some r => Some ("off", r)
      | None => None
      end
  end.

(** [disabler_pattern.match(text)].  The parts of the pattern, in order:
    [\s*] then [#], [\s?] then [robotidy:], [\s?] then the group
    [disabler] that is [on|off], an optional blank, an optional [=], and
    the group [transformers], a greedy run of [\w], [,] and [\s].
    Every greedy choice is the only one that can succeed: [#] and [r] are
    not whitespace, and all that follows the action word matches the empty
    string, so the matcher never has to give a character back. *)
Definition disabler_pattern_match (text : string) : option Match :=
  let '(ws, r1) := Py.span Py.is_space text in
  r2 ← Py.literal "#" r1;
  let '(s1, r3) := Py.opt Py.is_space r2 in
  r4 ← Py.literal "robotidy:" r3;
  let '(s2, r5) := Py.opt Py.is_space r4 in
  '(act, r6) ← on_or_off r5;
  let '(sp, r7) := Py.opt is_blank r6 in
  let '(eq, r8) := Py.opt is_equals r7 in
  let '(tr, _) := Py.span is_target_char r8 in
  Some {| group0 := ws +:+ "#" +:+ s1 +:+ "robotidy:" +:+ s2 +:+ act
                       +:+ sp +:+ eq +:+ tr;
          group_disabler := act;
          group_transformers := tr |}.

(** [RegisterDisablers.get_disabler], on the comment's value. *)
Definition get_disabler (value : string) : option Match :=
  if negb (Py.truthy value) then None else disabler_pattern_match value.

(** [RegisterDisablers.get_disabler_transformers]. *)
Definition get_disabler_transformers (m : Match) : list string :=
  if negb (Py.truthy (group_transformers m))
     || negb (Py.contains "=" (group0 m))
  then [ALL_TRANSFORMERS]
  else filter (fun t => Py.truthy t = true)
              (map Py.strip (Py.split_comma (group_transformers m))).


(** The directive the engine acts on: the action word and the targets. *)
Definition recognize (text : string) : option (string * list string) :=
  m ← get_disabler text;
  Some (group_disabler m, get_disabler_transformers m).

(** *** Shapes of directive texts *)

Fixpoint all_chars (p : ascii -> bool) (s : string) : bool :=
  match s with
  | EmptyString => true
  | String c r => p c && all_chars p r
  end.

(** [s] does not go on with a character of the class. *)
Definition stops (p : ascii -> bool) (s : string) : bool :=
  match s with String c _ => negb (p c) | EmptyString => true end.

(** [s] is empty or one character of the class. *)
Definition at_most_one (p : ascii -> bool) (s : string) : bool :=
  match s with
  | EmptyString => true
  | String c EmptyString => p c
  | _ => false
  end.

Definition is_action (a : string) : bool :=
  String.eqb a "on" || String.eqb a "off".

(** Whitespace [ws], [#], [s1], [robotidy:], [s2], the action word and
    whatever follows it. *)
Definition directive_text (ws s1 s2 action rest : string) : string :=
  ws +:+ "#" +:+ s1 +:+ "robotidy:" +:+ s2 +:+ action +:+ rest.

(** The spacing the pattern allows before the action word is over. *)
Definition allowed_spacing (ws s1 s2 : string) : bool :=
  all_chars Py.is_space ws && at_most_one Py.is_space s1
  && at_most_one Py.is_space s2.

(** What follows the action word decides the targets. *)
Definition targets_after_action (rest : string) : list string :=
  let '(_, r7) := Py.opt is_blank rest in
  let '(eq, r8) := Py.opt is_equals r7 in
  let '(tr, _) := Py.span is_target_char r8 in
  if negb (Py.truthy tr) || negb (Py.truthy eq) then [ALL_TRANSFORMERS]
  else filter (fun t => Py.truthy t = true) (map Py.strip (Py.split_comma tr)).

Definition starts_with (prefix s : string) : bool :=
  match Py.literal prefix s with Some _ => true | None => false end.

Definition is_name_char (c : ascii) : bool := Py.is_word c || Py.is_space c.
Definition is_separator_char (c : ascii) : bool :=
  Py.is_comma c || Py.is_space c.

(** [n] is not empty and does not start with whitespace. *)
Definition starts_solid (n : string) : bool :=
  match n with String c _ => negb (Py.is_space c) | EmptyString => false end.

(** A target name as it comes out of the list: not empty, no comma, no
    whitespace at either end. *)
Definition is_name (n : string) : bool :=
  starts_solid n && String.eqb (Py.rstrip n) n && all_chars is_name_char n.

(** An entry of a target list: a name with whitespace on both sides. *)
Record Entry := mkEntry {
  pad_left : string;
  entry_name : string;
  pad_right : string
}.

Definition entry_text (e : Entry) : string :=
  pad_left e +:+ entry_name e +:+ pad_right e.

Definition is_entry (e : Entry) : bool :=
  all_chars Py.is_space (pad_left e) && is_name (entry_name e)
  && all_chars Py.is_space (pad_right e).

Fixpoint join_comma (l : list string) : string :=
  match l with
  | [] => EmptyString
  | [x] => x
  | x :: l' => x +:+ "," +:+ join_comma l'
  end.

(* ===================================================================== *)
(** ** The block tree supplied by the parser *)
(* ===================================================================== *)

(** The token types the engine tells apart. *)
Inductive TokenType := SEPARATOR | COMMENT | EOL | DATA.

Definition TokenType_eqb (a b : TokenType) : bool :=
  match a, b with
  | SEPARATOR, SEPARATOR | COMMENT, COMMENT | EOL, EOL | DATA, DATA => true
  | _, _ => false
  end.

Record Token := mkToken {
  type : TokenType;
  value : string;
  col_offset : Z
}.

(** The line attributes every node carries. *)
Record Located := mkLoc {
  lineno : Z;
  end_lineno : Z
}.

(** The statement classes the visitor dispatches on: [Comment],
    [SectionHeader], and every other statement (keyword calls, block
    headers, [END], empty lines). *)
Inductive StatementClass := Comment | SectionHeader | OtherStatement.

#[global] Instance StatementClass_eq_dec : EqDecision StatementClass.
Proof. solve_decision. Defined.

Record Statement := mkStatement {
  sclass : StatementClass;
  tokens : list Token;
  sloc : Located
}.

(** [node.get_tokens(Token.COMMENT)] and [node.get_token(Token.COMMENT)]. *)
Definition get_tokens (ty : TokenType) (s : Statement) : list Token :=
  filter (fun t => TokenType_eqb (type t) ty = true) (tokens s).

Definition get_token (ty : TokenType) (s : Statement) : option Token :=
  head (get_tokens ty s).

(** [is_line_start]: the first token that is not a separator starts at
    column 0. *)
Fixpoint is_line_start_tokens (ts : list Token) : bool :=
  match ts with
  | [] => false
  | t :: ts' =>
      if TokenType_eqb (type t) SEPARATOR then is_line_start_tokens ts'
      else col_offset t =? 0
  end.

Definition is_line_start (s : Statement) : bool :=
  is_line_start_tokens (tokens s).

(** The blocks that [visit_TestCase] and its aliases handle with the fields
    [header], [body] and (for loops) [end]. *)
Inductive BlockKind := CommentSection | Section | TestCase | Keyword | For | While.

(** A node of the tree, with the fields [generic_visit] goes through, in
    their order.  [If] has the extra field [orelse]; [Try] is a chain linked
    by [next]. *)
#[local] Unset Elimination Schemes.
Inductive Node :=
| NStatement (s : Statement)
| NBlock (k : BlockKind) (header : option Statement) (body : list Node)
         (end_ : option Statement) (loc : Located)
| NIf (header : option Statement) (body : list Node) (orelse : option Node)
      (end_ : option Statement) (loc : Located)
| NTry (t : TryNode)
with TryNode :=
| mkTry (header : Statement) (body : list Node) (next : option TryNode)
        (end_ : option Statement) (loc : Located).
#[local] Set Elimination Schemes.

Definition try_body (t : TryNode) := let 'mkTry _ b _ _ _ := t in b.
Definition try_next (t : TryNode) := let 'mkTry _ _ n _ _ := t in n.
Definition try_loc (t : TryNode) := let 'mkTry _ _ _ _ l := t in l.

Definition node_loc (n : Node) : Located :=
  match n with
  | NStatement s => sloc s
  | NBlock _ _ _ _ l => l
  | NIf _ _ _ _ l => l
  | NTry t => try_loc t
  end.

(** [isinstance(section, CommentSection)]. *)
Definition is_CommentSection (n : Node) : bool :=
  match n with NBlock CommentSection _ _ _ _ => true | _ => false end.

Record File := mkFile {
  sections : list Node;
  file_end_lineno : Z
}.

(* ===================================================================== *)
(** ** The registry: [DisabledLines] and [DisablersInFile] *)
(* ===================================================================== *)

Module DisabledLines.

Record t := mk {
  start_line : option Z;
  end_line : option Z;
  file_end : option Z;
  lines : list (Z * Z);
  disabled_headers : gset Z;
  disabled_whole : bool
}.

Definition init (start_line end_line file_end : option Z) : t :=
  mk start_line end_line file_end [] ∅ false.

Definition set_lines (l : list (Z * Z)) (self : t) : t :=
  mk self.(start_line) self.(end_line) self.(file_end) l
     self.(disabled_headers) self.(disabled_whole).

Definition add_disabler (first last : Z) (self : t) : t :=
  set_lines (self.(lines) ++ [(first, last)]) self.

Definition add_disabled_header (line : Z) (self : t) : t :=
  mk self.(start_line) self.(end_line) self.(file_end) self.(lines)
     ({[line]} ∪ self.(disabled_headers)) self.(disabled_whole).

Definition set_disabled_whole (b : bool) (self : t) : t :=
  mk self.(start_line) self.(end_line) self.(file_end) self.(lines)
     self.(disabled_headers) b.

(** [parse_global_disablers].  Comparing with a [file_end] of [None]
    raises, which is [None] here. *)
Definition parse_global_disablers (self : t) : option t :=
  if negb (Py.truthy_int self.(start_line)) then Some self
  else
    let start := default 0 self.(start_line) in
    let end_line :=
      if Py.truthy_int self.(end_line) then default 0 self.(end_line)
      else start in
    let self1 := if 1 <? start then add_disabler 1 (start - 1) self else self in
    fe ← self.(file_end);
    Some (if end_line <? fe then add_disabler (end_line + 1) fe self1
          else self1).

(** [sorted(lines, key=lambda x: x[0])]: the stable sort on the start
    line. *)
Fixpoint insert_by_start (x : Z * Z) (l : list (Z * Z)) : list (Z * Z) :=
  match l with
  | [] => [x]
  | y :: l' => if fst y <? fst x then y :: insert_by_start x l' else x :: l
  end.

Definition sorted_by_start (l : list (Z * Z)) : list (Z * Z) :=
  fold_right insert_by_start [] l.

Definition sort_disablers (self : t) : t :=
  set_lines (sorted_by_start self.(lines)) self.

Definition is_header_disabled (line : Z) (self : t) : bool :=
  bool_decide (line ∈ self.(disabled_headers)).

(** The two loops of [is_node_disabled]. *)
Fixpoint scan_full (lineno end_lineno : Z) (l : list (Z * Z)) : bool :=
  match l with
  | [] => false
  | (start_line, end_line) :: l' =>
      if end_lineno <=? end_line then start_line <=? lineno
      else scan_full lineno end_lineno l'
  end.

Fixpoint scan_overlap (lineno end_lineno : Z) (l : list (Z * Z)) : bool :=
  match l with
  | [] => false
  | (start_line, end_line) :: l' =>
      if (lineno <=? end_line) && (start_line <=? end_lineno) then true
      else scan_overlap lineno end_lineno l'
  end.

(** [is_node_disabled].  A node that is false in Python ([None], a
    statement without tokens) is [None]. *)
Definition is_node_disabled (node : option Located) (full_match : bool)
    (self : t) : bool :=
  match node with
  | None => false
  | Some node =>
      match self.(lines) with
      | [] => false
      | _ =>
          let end_lineno := Z.max (lineno node) (end_lineno node) in
          if full_match then scan_full (lineno node) end_lineno self.(lines)
          else scan_overlap (lineno node) end_lineno self.(lines)
      end
  end.

End DisabledLines.

Module DisablersInFile.

Record t := mk {
  start_line : option Z;
  end_line : option Z;
  file_end : option Z;
  disablers : gmap string DisabledLines.t
}.

Definition init (start_line end_line file_end : option Z) : t :=
  mk start_line end_line file_end
     {[ ALL_TRANSFORMERS := DisabledLines.init start_line end_line file_end ]}.

(** [self.disablers[name]] where the code has made sure the key exists. *)
Definition at_ (name : string) (self : t) : DisabledLines.t :=
  default (DisabledLines.init self.(start_line) self.(end_line) self.(file_end))
          (self.(disablers) !! name).

Definition with_disablers (d : gmap string DisabledLines.t) (self : t) : t :=
  mk self.(start_line) self.(end_line) self.(file_end) d.

Definition parse_global_disablers (self : t) : option t :=
  d ← self.(disablers) !! ALL_TRANSFORMERS;
  d' ← DisabledLines.parse_global_disablers d;
  Some (with_disablers (<[ALL_TRANSFORMERS := d']> self.(disablers)) self).

Definition sort_disablers (self : t) : t :=
  with_disablers (DisabledLines.sort_disablers <$> self.(disablers)) self.

(** The lazy creation shared by [add_disabler] and [add_disabled_header]. *)
Definition ensure (transformer : string) (self : t) : t :=
  match self.(disablers) !! transformer with
  | Some _ => self
  | None =>
      with_disablers
        (<[transformer :=
             DisabledLines.init self.(start_line) self.(end_line)
                                self.(file_end)]> self.(disablers)) self
  end.

Definition add_disabler (transformer : string) (first last : Z)
    (file_level : bool) (self : t) : t :=
  let self := ensure transformer self in
  let d := DisabledLines.add_disabler first last (at_ transformer self) in
  let d := if file_level then DisabledLines.set_disabled_whole file_level d else d in
  with_disablers (<[transformer := d]> self.(disablers)) self.

Definition add_disabled_header (transformer : string) (lineno : Z)
    (self : t) : t :=
  let self := ensure transformer self in
  with_disablers
    (<[transformer :=
         DisabledLines.add_disabled_header lineno (at_ transformer self)]>
       self.(disablers)) self.

Definition is_disabled_in_file (transformer_name : string) (self : t) : bool :=
  if DisabledLines.disabled_whole (at_ ALL_TRANSFORMERS self) then true
  else match self.(disablers) !! transformer_name with
       | None => false
       | Some d => DisabledLines.disabled_whole d
       end.

Definition is_header_disabled (transformer_name : string) (line : Z)
    (self : t) : bool :=
  if DisabledLines.is_header_disabled line (at_ ALL_TRANSFORMERS self) then true
  else match self.(disablers) !! transformer_name with
       | None => false
       | Some d => DisabledLines.is_header_disabled line d
       end.

Definition is_node_disabled (transformer_name : string)
    (node : option Located) (full_match : bool) (self : t) : bool :=
  if DisabledLines.is_node_disabled node full_match (at_ ALL_TRANSFORMERS self)
  then true
  else match self.(disablers) !! transformer_name with
       | None => false
       | Some d => DisabledLines.is_node_disabled node full_match d
       end.

End DisablersInFile.

(* ===================================================================== *)
(** ** The traversal: [RegisterDisablers] *)
(* ===================================================================== *)

(** A scope frame, [Dict[str, int]], in insertion order. *)
Definition Frame := list (string * Z).

Fixpoint frame_get (k : string) (f : Frame) : option Z :=
  match f with
  | [] => None
  | (k', v) :: f' => if String.eqb k k' then Some v else frame_get k f'
  end.

(** [frame[k] = v]: an existing key keeps its place, a new one goes last. *)
Fixpoint frame_set (k : string) (v : Z) (f : Frame) : Frame :=
  match f with
  | [] => [(k, v)]
  | (k', v') :: f' =>
      if String.eqb k k' then (k, v) :: f' else (k', v') :: frame_set k v f'
  end.

(** [not frame.get(k)]. *)
Definition frame_closed (k : string) (f : Frame) : bool :=
  negb (Py.truthy_int (frame_get k f)).

(** The two list indices the code uses, [0] and [-1]. *)
Inductive Index := First | Last.

Definition stack_get (i : Index) (stack : list Frame) : option Frame :=
  match i with First => head stack | Last => last stack end.

Definition stack_set (i : Index) (f : Frame) (stack : list Frame)
    : list Frame :=
  match i with
  | First => match stack with [] => [] | _ :: rest => f :: rest end
  | Last => match stack with [] => [] | _ => removelast stack ++ [f] end
  end.

Module RegisterDisablers.

Record t := mk {
  start_line : option Z;
  end_line : option Z;
  disablers : DisablersInFile.t;
  disablers_in_scope : list Frame;
  file_level_disablers : bool
}.

(** [__init__]. *)
Definition init (start_line end_line : option Z) : t :=
  mk start_line end_line (DisablersInFile.init start_line end_line None)
     [] false.

Definition with_disablers (d : DisablersInFile.t) (self : t) : t :=
  mk self.(start_line) self.(end_line) d self.(disablers_in_scope)
     self.(file_level_disablers).

Definition with_scope (s : list Frame) (self : t) : t :=
  mk self.(start_line) self.(end_line) self.(disablers) s
     self.(file_level_disablers).

Definition with_file_level (b : bool) (self : t) : t :=
  mk self.(start_line) self.(end_line) self.(disablers)
     self.(disablers_in_scope) b.

(** A method without a result: the state after it, or [None] if it
    raises. *)
Definition M := t -> option t.

Definition ret : M := Some.
Definition seq (a b : M) : M := fun self => a self ≫= b.

(** [for x in xs: body(x)]. *)
Definition for_each {A} (body : A -> M) : list A -> M :=
  fix go (xs : list A) : M :=
    match xs with
    | [] => ret
    | x :: xs' => seq (body x) (go xs')
    end.

Definition is_disabled_in_file (transformer_name : string) (self : t) : bool :=
  DisablersInFile.is_disabled_in_file transformer_name self.(disablers).

(** [self.disablers_in_scope.append({ALL_TRANSFORMERS: 0})]. *)
Definition push_scope : M := fun self =>
  Some (with_scope (self.(disablers_in_scope) ++ [[(ALL_TRANSFORMERS, 0)]]) self).

(** The body of the loop of [close_disabler]. *)
Definition close_one (line : Z) (entry : string * Z) : M := fun self =>
  let '(transformer_name, first) := entry in
  if first =? 0 then Some self
  else Some (with_disablers
               (DisablersInFile.add_disabler transformer_name first line
                  self.(file_level_disablers) self.(disablers)) self).

(** [close_disabler]: [pop] raises on an empty stack. *)
Definition close_disabler (line : Z) : M := fun self =>
  disabler ← last self.(disablers_in_scope);
  for_each (close_one line) disabler
    (with_scope (removelast self.(disablers_in_scope)) self).

(** [visit_SectionHeader]: the loop stops at the first [off] comment. *)
Fixpoint header_comments (line : Z) (comments : list Token) : M :=
  match comments with
  | [] => ret
  | comment :: rest =>
      match get_disabler (value comment) with
      | None => header_comments line rest
      | Some disabler =>
          if negb (String.eqb (group_disabler disabler) "off")
          then header_comments line rest
          else
            for_each
              (fun transformer self =>
                 Some (with_disablers
                         (DisablersInFile.add_disabled_header transformer line
                            self.(disablers)) self))
              (get_disabler_transformers disabler)
      end
  end.

Definition visit_SectionHeader (node : Statement) : M :=
  header_comments (lineno (sloc node)) (get_tokens COMMENT node).

(** The body of the loop over [transformers] for a [Comment] statement. *)
Definition comment_step (index : Index) (disabler_start : bool) (line : Z)
    (transformer : string) : M := fun self =>
  frame ← stack_get index self.(disablers_in_scope);
  if disabler_start then
    if frame_closed transformer frame then Some self
    else
      let first := default 0 (frame_get transformer frame) in
      let self :=
        with_disablers
          (DisablersInFile.add_disabler transformer first line false
             self.(disablers)) self in
      Some (with_scope
              (stack_set index (frame_set transformer 0 frame)
                 self.(disablers_in_scope)) self)
  else
    if frame_closed transformer frame then
      Some (with_scope
              (stack_set index (frame_set transformer line frame)
                 self.(disablers_in_scope)) self)
    else Some self.

(** The body of the loop over the comments of another statement. *)
Definition inline_step (loc : Located) (comment : Token) : M :=
  match get_disabler (value comment) with
  | None => ret
  | Some disabler =>
      if String.eqb (group_disabler disabler) "off" then
        for_each
          (fun transformer self =>
             Some (with_disablers
                     (DisablersInFile.add_disabler transformer (lineno loc)
                        (end_lineno loc) false self.(disablers)) self))
          (get_disabler_transformers disabler)
      else ret
  end.

Definition visit_Statement (node : Statement) : M :=
  match sclass node with
  | Comment =>
      match get_token COMMENT node with
      | None => fun _ => None
      | Some comment =>
          match get_disabler (value comment) with
          | None => ret
          | Some disabler =>
              let transformers := get_disabler_transformers disabler in
              let index := if is_line_start node then First else Last in
              let disabler_start := String.eqb (group_disabler disabler) "on" in
              for_each
                (comment_step index disabler_start (lineno (sloc node)))
                transformers
          end
      end
  | _ => for_each (inline_step (sloc node)) (get_tokens COMMENT node)
  end.

(** [self.visit] on a statement: the method found for its class. *)
Definition visit_statement (node : Statement) : M :=
  match sclass node with
  | SectionHeader => visit_SectionHeader node
  | _ => visit_Statement node
  end.

Definition visit_field (field : option Statement) : M :=
  match field with None => ret | Some s => visit_statement s end.

(** One round of the [while tail.next] loop of [visit_Try], given the
    visit of [tail.body]. *)
Definition try_round (visit_body : M) (next_lineno : Z) : M :=
  seq push_scope (seq visit_body (close_disabler (next_lineno - 1))).

(** [self.visit]: Robot Framework's [ModelVisitor] calls the method named
    after the class of the node or, failing that, after its nearest base
    class, so every statement but a section header reaches
    [visit_Statement] and a comment section reaches [visit_Section].  The
    bodies of [visit_TestCase] (with its aliases) and of [visit_Try] are
    written out here, where the recursion is; [visit_TestCase],
    [generic_visit] and [visit_Try] below name them.  [generic_visit] on a
    statement visits nothing, so [visit_Try] skips its headers; its loop
    starts at [tail = node], which is the first round written out in the
    case of [NTry]. *)
Fixpoint visit (node : Node) : M :=
  match node with
  | NStatement s => visit_statement s
  | NBlock _ header body end_ loc =>
      seq push_scope
        (seq (seq (visit_field header)
                (seq (for_each visit body) (visit_field end_)))
             (close_disabler (end_lineno loc)))
  | NIf header body orelse end_ loc =>
      seq push_scope
        (seq (seq (visit_field header)
                (seq (for_each visit body)
                   (seq (match orelse with None => ret | Some n => visit n end)
                      (visit_field end_))))
             (close_disabler (end_lineno loc)))
  | NTry (mkTry _ body next _ loc) =>
      seq push_scope
        (seq (for_each visit body)
           (seq (close_disabler (end_lineno loc))
              match next with
              | None => ret
              | Some t =>
                  seq (try_round (for_each visit body) (lineno (try_loc t)))
                      (try_while t)
              end))
  end
with try_while (tail : TryNode) : M :=
  match tail with
  | mkTry _ body next _ _ =>
      match next with
      | None => ret
      | Some t =>
          seq (try_round (for_each visit body) (lineno (try_loc t)))
              (try_while t)
      end
  end.

(** [generic_visit]: visit every child, field by field. *)
Definition generic_visit (node : Node) : M :=
  match node with
  | NStatement _ => ret
  | NBlock _ header body end_ _ =>
      seq (visit_field header) (seq (for_each visit body) (visit_field end_))
  | NIf header body orelse end_ _ =>
      seq (visit_field header)
        (seq (for_each visit body)
           (seq (match orelse with None => ret | Some n => visit n end)
              (visit_field end_)))
  | NTry (mkTry header body next end_ _) =>
      seq (visit_statement header)
        (seq (for_each visit body)
           (seq (match next with None => ret | Some t => visit (NTry t) end)
              (visit_field end_)))
  end.

(** [visit_TestCase], also [visit_Keyword], [visit_Section], [visit_For],
    [visit_ForLoop], [visit_If] and [visit_While]. *)
Definition visit_TestCase (node : Node) : M :=
  seq push_scope
    (seq (generic_visit node) (close_disabler (end_lineno (node_loc node)))).

Definition visit_Section := visit_TestCase.

Definition visit_Try (node : TryNode) : M :=
  seq push_scope
    (seq (for_each visit (try_body node))
       (seq (close_disabler (end_lineno (try_loc node))) (try_while node))).

(** The loop of [visit_File] over [enumerate(node.sections)]. *)
Fixpoint visit_sections (index : nat) (sections : list Node) : M :=
  match sections with
  | [] => ret
  | section :: rest =>
      seq (fun self =>
             visit_Section section
               (with_file_level
                  (Nat.eqb index 0 && is_CommentSection section) self))
          (visit_sections (S index) rest)
  end.

Definition visit_File (node : File) : M := fun self =>
  let self := with_file_level false self in
  let self :=
    with_disablers
      (DisablersInFile.init self.(start_line) self.(end_line)
         (Some (file_end_lineno node))) self in
  d ← DisablersInFile.parse_global_disablers self.(disablers);
  self ← visit_sections 0 (sections node) (with_disablers d self);
  Some (with_disablers (DisablersInFile.sort_disablers self.(disablers)) self).

End RegisterDisablers.

(** The whole pass on one document: a fresh visitor, [visit_File], and the
    registry it leaves. *)
Definition register_disablers (start_line end_line : option Z) (f : File)
    : option DisablersInFile.t :=
  RegisterDisablers.disablers <$>
    RegisterDisablers.visit_File f (RegisterDisablers.init start_line end_line).

(** The intervals registered for a target. *)
Definition lines_of (name : string) (d : DisablersInFile.t) : list (Z * Z) :=
  DisabledLines.lines (DisablersInFile.at_ name d).

(* ===================================================================== *)
(** ** Well-formed trees, and what a visit may change *)
(* ===================================================================== *)

(** The parser gives every [Comment] statement a comment token. *)
Definition wf_statement (s : Statement) : bool :=
  match sclass s with
  | Comment => bool_decide (is_Some (get_token COMMENT s))
  | _ => true
  end.

Definition wf_field (field : option Statement) : bool :=
  match field with None => true | Some s => wf_statement s end.

Fixpoint wf_node (n : Node) : bool :=
  match n with
  | NStatement s => wf_statement s
  | NBlock _ header body end_ _ =>
      wf_field header && forallb wf_node body && wf_field end_
  | NIf header body orelse end_ _ =>
      wf_field header && forallb wf_node body
      && match orelse with None => true | Some n' => wf_node n' end
      && wf_field end_
  | NTry t => wf_try t
  end
with wf_try (t : TryNode) : bool :=
  match t with
  | mkTry _ body next _ _ =>
      forallb wf_node body
      && match next with None => true | Some t' => wf_try t' end
  end.

Definition is_statement (n : Node) : bool :=
  match n with NStatement _ => true | _ => false end.

(** An interval [(first, last)] wholly contains the lines the query reads
    of a node. *)
Definition covers (iv : Z * Z) (node : Located) : Prop :=
  fst iv <= lineno node /\ Z.max (lineno node) (end_lineno node) <= snd iv.

(** The intervals synthesized from a processing window on a document of
    [file_end] lines: the lines before the window and those after it, each
    left out when empty. *)
Definition global_intervals (start_line end_line : option Z) (file_end : Z)
    : list (Z * Z) :=
  match start_line with
  | None => []
  | Some s =>
      if s =? 0 then []
      else
        let e := match end_line with
                 | Some e => if e =? 0 then s else e
                 | None => s
                 end in
        (if 1 <? s then [(1, s - 1)] else [])
        ++ (if e <? file_end then [(e + 1, file_end)] else [])
  end.

(** The sections of a file are section blocks. *)
Definition is_Section (n : Node) : bool :=
  match n with
  | NBlock CommentSection _ _ _ _ | NBlock Section _ _ _ _ => true
  | _ => false
  end.

Definition wf_sections (f : File) : bool :=
  forallb (fun n => is_Section n && wf_node n) (sections f).

(** The order [sort_disablers] establishes. *)
Definition by_start (a b : Z * Z) : Prop := fst a <= fst b.

(** Two intervals share a line. *)
Definition overlapping (a b : Z * Z) : Prop :=
  fst a <= snd b /\ fst b <= snd a.

(** The registry of one target only grows. *)
Definition lines_grow (a b : DisabledLines.t) : Prop :=
  incl (DisabledLines.lines a) (DisabledLines.lines b)
  /\ (DisabledLines.disabled_whole a = true ->
      DisabledLines.disabled_whole b = true).

Definition registry_grows (a b : DisablersInFile.t) : Prop :=
  DisablersInFile.start_line b = DisablersInFile.start_line a
  /\ DisablersInFile.end_line b = DisablersInFile.end_line a
  /\ DisablersInFile.file_end b = DisablersInFile.file_end a
  /\ forall name da,
       DisablersInFile.disablers a !! name = Some da ->
       exists db, DisablersInFile.disablers b !! name = Some db
                  /\ lines_grow da db.

(** The frames strictly between index [0] and index [-1]. *)
Definition middle (stack : list Frame) : list Frame :=
  removelast (tail stack).

(** What any visit keeps: the bounds, the file-level flag, the depth of the
    stack and its middle frames; the registry only grows. *)
Definition visit_keeps (a b : RegisterDisablers.t) : Prop :=
  RegisterDisablers.start_line b = RegisterDisablers.start_line a
  /\ RegisterDisablers.end_line b = RegisterDisablers.end_line a
  /\ RegisterDisablers.file_level_disablers b
     = RegisterDisablers.file_level_disablers a
  /\ length (RegisterDisablers.disablers_in_scope b)
     = length (RegisterDisablers.disablers_in_scope a)
  /\ middle (RegisterDisablers.disablers_in_scope b)
     = middle (RegisterDisablers.disablers_in_scope a)
  /\ registry_grows (RegisterDisablers.disablers a)
                    (RegisterDisablers.disablers b).

(** A visit of a node goes through on a well-formed tree (a statement
    needs a frame to write to), keeps what [visit_keeps] lists, and a block
    leaves every frame but the one at index [0] as it found it. *)
Definition visit_goes_through (visit_node : RegisterDisablers.M)
    (needs_frame : bool) : Prop :=
  forall self,
    (needs_frame = true -> RegisterDisablers.disablers_in_scope self <> []) ->
    exists self',
      visit_node self = Some self' /\ visit_keeps self self'
      /\ (needs_frame = false ->
          tail (RegisterDisablers.disablers_in_scope self')
          = tail (RegisterDisablers.disablers_in_scope self)).

(** A step taken inside a scope: it goes through whenever there is a
    frame. *)
Definition runs_in_scope (step : RegisterDisablers.M) : Prop :=
  forall self,
    RegisterDisablers.disablers_in_scope self <> [] ->
    exists self', step self = Some self' /\ visit_keeps self self'.

Definition node_goes_through (n : Node) : Prop :=
  wf_node n = true ->
  visit_goes_through (RegisterDisablers.visit n) (is_statement n).

Definition branch_goes_through (t : TryNode) : Prop :=
  wf_try t = true ->
  runs_in_scope (RegisterDisablers.for_each RegisterDisablers.visit (try_body t))
  /\ visit_goes_through (RegisterDisablers.try_while t) false.

(** What one round of the loop of a [Comment] statement makes of the frame
    it indexes: an Enable ([disabler_start]) clears an open target, a
    Disable opens a closed one at [line]. *)
Definition frame_after (disabler_start : bool) (line : Z)
    (transformer : string) (frame : Frame) : Frame :=
  if frame_closed transformer frame then
    if disabler_start then frame else frame_set transformer line frame
  else
    if disabler_start then frame_set transformer 0 frame else frame.

Definition frame_after_all (disabler_start : bool) (line : Z)
    (transformers : list string) (frame : Frame) : Frame :=
  fold_left (fun f tr => frame_after disabler_start line tr f)
            transformers frame.

(** The last frame of the stack holds a pending start [v] for [target]. *)
Definition open_at_last (target : string) (v : Z) (stack : list Frame)
    : Prop :=
  exists init frame,
    stack = init ++ [frame] /\ frame_get target frame = Some v /\ v <> 0.

(** A property of the optional child of a node. *)
Definition on_option {A} (P : A -> Prop) (o : option A) : Prop :=
  match o with Some x => P x | None => True end.

(** A [Comment] statement that is an Enable naming [target]. *)
Definition enables (target : string) (n : Node) : bool :=
  match n with
  | NStatement s =>
      match sclass s, get_token COMMENT s with
      | Comment, Some comment =>
          match get_disabler (value comment) with
          | Some m =>
              String.eqb (group_disabler m) "on"
              && bool_decide (target ∈ get_disabler_transformers m)
          | None => false
          end
      | _, _ => false
      end
  | _ => false
  end.

(* ===================================================================== *)
(** ** Sample documents *)
(* ===================================================================== *)

Module Samples.

Definition sep := mkToken SEPARATOR "    " 0.
Definition cmt (col : Z) (v : string) := mkToken COMMENT v col.

(** A comment line starting at column [col]. *)
Definition comment_line (col : Z) (v : string) (l : Z) : Statement :=
  mkStatement Comment
    (if col =? 0 then [cmt 0 v] else [sep; cmt col v]) (mkLoc l l).

(** A keyword call, and one with a trailing comment. *)
Definition kw (l : Z) : Statement :=
  mkStatement OtherStatement [sep; mkToken DATA "Log" 4] (mkLoc l l).
Definition kwc (l : Z) (v : string) : Statement :=
  mkStatement OtherStatement [sep; mkToken DATA "Log" 4; sep; cmt 10 v]
    (mkLoc l l).

Definition hdr (l : Z) : Statement :=
  mkStatement SectionHeader [mkToken DATA "*** Test Cases ***" 0] (mkLoc l l).
Definition name (l : Z) : Statement :=
  mkStatement OtherStatement [mkToken DATA "Test" 0] (mkLoc l l).
Definition word (l : Z) (w : string) : Statement :=
  mkStatement OtherStatement [sep; mkToken DATA w 4] (mkLoc l l).

(** Lines 1-2: a leading comment section with a wildcard Disable; lines
    3-5: a test with one keyword call. *)
Definition leading_off : File :=
  mkFile
    [ NBlock CommentSection None
        [ NStatement (comment_line 0 "# robotidy: off" 1);
          NStatement (comment_line 0 "# a note" 2) ] None (mkLoc 1 2);
      NBlock Section (Some (hdr 3))
        [ NBlock TestCase (Some (name 4)) [NStatement (kw 5)] None
            (mkLoc 4 5) ] None (mkLoc 3 5) ]
    5.

(** A test (lines 2-7) with a loop on lines 3-6 whose body opens a
    Disable on line 4 at column [col], a call on line 7 after the loop, and
    a second test on lines 8-9. *)
Definition loop_off (col : Z) : File :=
  mkFile
    [ NBlock Section (Some (hdr 1))
        [ NBlock TestCase (Some (name 2))
            [ NBlock For (Some (word 3 "FOR"))
                [ NStatement (comment_line col "# robotidy: off" 4);
                  NStatement (kw 5) ]
                (Some (word 6 "END")) (mkLoc 3 6);
              NStatement (kw 7) ] None (mkLoc 2 7);
          NBlock TestCase (Some (name 8)) [NStatement (kw 9)] None
            (mkLoc 8 9) ] None (mkLoc 1 9) ]
    9.

(** TRY on line 3 with a Disable on line 4, EXCEPT on line 6, FINALLY on
    line 8 with a Disable for [X] on line 9, END on line 11. *)
Definition try_finally : TryNode :=
  mkTry (word 3 "TRY")
    [ NStatement (comment_line 4 "# robotidy: off" 4); NStatement (kw 5) ]
    (Some
       (mkTry (word 6 "EXCEPT") [NStatement (kw 7)]
          (Some
             (mkTry (word 8 "FINALLY")
                [ NStatement (comment_line 4 "# robotidy: off=X" 9);
                  NStatement (kw 10) ]
                None None (mkLoc 8 10)))
          None (mkLoc 6 10)))
    (Some (word 11 "END")) (mkLoc 3 11).

Definition try_document : File :=
  mkFile
    [ NBlock Section (Some (hdr 1))
        [ NBlock TestCase (Some (name 2))
            [ NTry try_finally; NStatement (kw 12) ] None (mkLoc 2 12) ]
        None (mkLoc 1 12) ]
    12.

End Samples.

(* ===================================================================== *)
(** ** Command-line helpers of [robotidy/cli.py] *)
(* ===================================================================== *)

Module Cli.

Definition is_dash (c : ascii) : bool := Ascii.eqb c "-".

(** The loop [while opt and opt[0] == "-": opt = opt[1:]]. *)
Fixpoint drop_dashes (opt : string) : string :=
  match opt with
  | String c r => if is_dash c then drop_dashes r else opt
  | EmptyString => EmptyString
  end.

(** [s.replace("-", "_")]. *)
Fixpoint replace_dashes (s : string) : string :=
  match s with
  | String c r => String (if is_dash c then "_"%char else c) (replace_dashes r)
  | EmptyString => EmptyString
  end.

Definition parse_opt (opt : string) : string :=
  replace_dashes (drop_dashes opt).

(** What the validators raise. *)
Inductive Raised :=
| NoSuchOption (name : string)
| BadParameter.

(** The set [allowed] of [validate_config_options]; [params] gives the
    [opts] of each parameter. *)
Definition allowed_options (params : list (list string)) : list string :=
  map parse_opt (concat params).

(** The loop over the keys of [config], in the order of the dict. *)
Fixpoint check_config (allowed : list string) (config : list string)
    : Raised + unit :=
  match config with
  | [] => inr tt
  | conf :: rest =>
      if bool_decide (conf ∈ allowed) then check_config allowed rest
      else inl (NoSuchOption conf)
  end.

(** [validate_config_options]; the recommendations attached to the
    exception are left out. *)
Definition validate_config_options (params : option (list (list string)))
    (config : list string) : Raised + unit :=
  match params with
  | None => inr tt
  | Some params => check_config (allowed_options params) config
  end.

(** [csv_list_type], on the value of the option. *)
Definition csv_list_type (value : option string) : list string :=
  match value with
  | None => []
  | Some v => if negb (Py.truthy v) then [] else Py.split_comma v
  end.

(** [validate_list_optional_value]. *)
Definition validate_list_optional_value (value : option string)
    : Raised + option string :=
  match value with
  | None => inr None
  | Some v =>
      if negb (Py.truthy v) then inr value
      else if bool_decide (v ∈ ["all"; "enabled"; "disabled"]) then inr value
      else inl BadParameter
  end.

End Cli.

(* ===================================================================== *)
(** ** Trees without directives *)
(* ===================================================================== *)

(** A comment token the recogniser rejects. *)
Definition no_directive (c : Token) : bool :=
  match get_disabler (value c) with None => true | Some _ => false end.

(** A statement none of whose comments [visit_Statement] or
    [visit_SectionHeader] takes for a directive. *)
Definition quiet_statement (s : Statement) : bool :=
  match sclass s with
  | Comment =>
      match get_token COMMENT s with
      | Some c => no_directive c
      | None => false
      end
  | _ => forallb no_directive (get_tokens COMMENT s)
  end.

Definition quiet_field (field : option Statement) : bool :=
  match field with None => true | Some s => quiet_statement s end.

(** Every statement the traversal reaches is quiet. *)
Fixpoint quiet_node (n : Node) : bool :=
  match n with
  | NStatement s => quiet_statement s
  | NBlock _ header body end_ _ =>
      quiet_field header && forallb quiet_node body && quiet_field end_
  | NIf header body orelse end_ _ =>
      quiet_field header && forallb quiet_node body
      && match orelse with None => true | Some n' => quiet_node n' end
      && quiet_field end_
  | NTry t => quiet_try t
  end
with quiet_try (t : TryNode) : bool :=
  match t with
  | mkTry _ body next _ _ =>
      forallb quiet_node body
      && match next with None => true | Some t' => quiet_try t' end
  end.

(* ===================================================================== *)
(** ** What the traversal keeps, and the decorators *)
(* ===================================================================== *)

(** A comment token that is an [off] directive. *)
Definition is_off_directive (c : Token) : bool :=
  match get_disabler (value c) with
  | Some m => String.eqb (group_disabler m) "off"
  | None => false
  end.

(** A relation between the states before and after a method holds whenever
    the method returns. *)
Definition preserves
    (R : RegisterDisablers.t -> RegisterDisablers.t -> Prop)
    (m : RegisterDisablers.M) : Prop :=
  forall a b, m a = Some b -> R a b.

(** Outside the leading comment section no whole-file flag changes. *)
Definition whole_kept (a b : RegisterDisablers.t) : Prop :=
  RegisterDisablers.file_level_disablers b
  = RegisterDisablers.file_level_disablers a
  /\ (RegisterDisablers.file_level_disablers a = false ->
      forall name,
        DisabledLines.disabled_whole
          (DisablersInFile.at_ name (RegisterDisablers.disablers b))
        = DisabledLines.disabled_whole
            (DisablersInFile.at_ name (RegisterDisablers.disablers a))).


Module Decorators.

(** The truth value of a node: a statement is the sequence of its tokens,
    a block is a plain object. *)
Definition truthy (node : Node) : bool :=
  match node with
  | NStatement s => match tokens s with [] => false | _ => true end
  | _ => true
  end.

(** The node as [is_node_disabled] reads it. *)
Definition as_query (node : Node) : option Located :=
  if truthy node then Some (node_loc node) else None.




Section Wrappers.

(** Of the transformer [self] the wrappers read the class name,
    [self.disablers] and [self.skip], of which they call [section]; of a
    header they read its [type].  [func] is the wrapped method, [same] the
    node handed back as it came. *)
Context {R : Type}.
Variables (class_name : string) (disablers : DisablersInFile.t)
  (skip : option (string -> bool)) (type_of : Statement -> string)
  (same : Node -> R) (func : Node -> R).


(** The wrapper [skip_if_disabled] returns. *)
Definition skip_if_disabled (node : Node) : R :=
  if DisablersInFile.is_node_disabled class_name (as_query node) true
       disablers
  then same node
  else func node.


End Wrappers.

End Decorators.

(* ===================================================================== *)
(** ** Where the traversal comes by *)
(* ===================================================================== *)




(* ===================================================================== *)
(** ** The way down to a statement *)
(* ===================================================================== *)







(* ===================================================================== *)
(** * Properties *)
(* ===================================================================== *)

(** ** Sorting and the full-match scan *)

Section Scan.

Import DisabledLines.

Lemma insert_by_start_In x y l :
  In x (insert_by_start y l) <-> x = y \/ In x l.
Proof.
  induction l as [|z l IH]; simpl.
  - intuition.
  - destruct (fst z <? fst y); simpl; rewrite ?IH; intuition.
Qed.

Lemma sorted_by_start_In x l : In x (sorted_by_start l) <-> In x l.
Proof.
  induction l as [|y l IH]; simpl; [reflexivity|].
  rewrite insert_by_start_In, IH. intuition.
Qed.

Lemma insert_by_start_sorted y l :
  StronglySorted by_start l -> StronglySorted by_start (insert_by_start y l).
Proof.
  induction 1 as [|z l Hl IH Hz]; simpl.
  - constructor; [constructor | constructor].
  - destruct (fst z <? fst y) eqn:E.
    + constructor; [exact IH|].
      apply List.Forall_forall. intros x Hx.
      apply insert_by_start_In in Hx as [->|Hx].
      * unfold by_start. lia.
      * rewrite List.Forall_forall in Hz. by apply Hz.
    + constructor; [by constructor|].
      constructor; [unfold by_start; lia|].
      eapply Forall_impl; [exact Hz|]. unfold by_start. simpl. lia.
Qed.

Lemma sorted_by_start_sorted l : StronglySorted by_start (sorted_by_start l).
Proof.
  induction l; simpl; [constructor | by apply insert_by_start_sorted].
Qed.

(** On a list sorted by start line the first interval reaching the node's
    end decides correctly. *)
Lemma scan_full_sorted a b l :
  StronglySorted by_start l ->
  scan_full a b l = true <-> exists iv, In iv l /\ fst iv <= a /\ b <= snd iv.
Proof.
  induction 1 as [|[s e] l Hl IH Hs]; simpl.
  - split; [discriminate | intros (? & [] & _)].
  - destruct (b <=? e) eqn:E.
    + rewrite Z.leb_le. apply Z.leb_le in E. split.
      * intros H. exists (s, e). simpl. split; [by left | lia].
      * intros (iv & [<-|Hin] & H1 & H2); [simpl in *; lia|].
        rewrite List.Forall_forall in Hs.
        apply Hs in Hin. unfold by_start in Hin.
        simpl in Hin. lia.
    + rewrite IH. split.
      * intros (iv & Hin & H). exists iv. auto.
      * intros (iv & [<-|Hin] & H1 & H2); [simpl in *; lia|].
        exists iv. auto.
Qed.

Lemma scan_overlap_spec a b l :
  scan_overlap a b l = true
  <-> exists iv, In iv l /\ a <= snd iv /\ fst iv <= b.
Proof.
  induction l as [|[s e] l IH]; simpl.
  - split; [discriminate | intros (? & [] & _)].
  - destruct ((a <=? e) && (s <=? b)) eqn:E.
    + split; [|done]. intros _. exists (s, e). simpl.
      apply andb_true_iff in E as [E1 E2]. split; [by left | lia].
    + rewrite IH. split.
      * intros (iv & Hin & H). exists iv. auto.
      * intros (iv & [<-|Hin] & H1 & H2).
        -- simpl in *. apply andb_false_iff in E as [E|E]; lia.
        -- exists iv. auto.
Qed.

(** The query of one target after [sort_disablers]. *)
Lemma is_node_disabled_sorted (d : DisabledLines.t) node :
  is_node_disabled (Some node) true (sort_disablers d) = true
  <-> exists iv, In iv (lines d) /\ covers iv node.
Proof.
  unfold is_node_disabled, sort_disablers, covers. simpl.
  destruct (sorted_by_start (lines d)) as [|x l] eqn:E.
  - split; [discriminate|]. intros (iv & Hin & _).
    apply sorted_by_start_In in Hin. rewrite E in Hin. destruct Hin.
  - rewrite <- E, scan_full_sorted by apply sorted_by_start_sorted.
    split; intros (iv & Hin & H); exists iv; split; try lia.
    + by apply (proj1 (sorted_by_start_In _ _)).
    + by apply (proj2 (sorted_by_start_In _ _)).
Qed.

End Scan.

(** ** The registry *)

Section Registry.

Import DisablersInFile.

Lemma lines_grow_refl a : lines_grow a a.
Proof. split; [apply incl_refl | auto]. Qed.

Lemma lines_grow_trans a b c : lines_grow a b -> lines_grow b c -> lines_grow a c.
Proof.
  intros [H1 H2] [H3 H4]. split; [eapply incl_tran; eauto | auto].
Qed.

Lemma registry_grows_refl d : registry_grows d d.
Proof.
  repeat split. intros name da H. exists da. split; [done | apply lines_grow_refl].
Qed.

Lemma registry_grows_trans a b c :
  registry_grows a b -> registry_grows b c -> registry_grows a c.
Proof.
  intros (A1 & A2 & A3 & A4) (B1 & B2 & B3 & B4).
  repeat split; try congruence.
  intros name da H. destruct (A4 _ _ H) as (db & Hb & Hab).
  destruct (B4 _ _ Hb) as (dc & Hc & Hbc).
  exists dc. split; [done | by eapply lines_grow_trans].
Qed.

Lemma lines_of_present name d da :
  disablers d !! name = Some da -> lines_of name d = DisabledLines.lines da.
Proof. unfold lines_of, at_. by intros ->. Qed.

(** What [add_disabler] does to the intervals of each target. *)
Lemma lines_of_add_disabler name t a b fl d :
  lines_of name (add_disabler t a b fl d)
  = if decide (name = t) then lines_of name d ++ [(a, b)] else lines_of name d.
Proof.
  unfold lines_of, add_disabler, ensure, at_.
  destruct (decide (name = t)) as [->|Hne];
    destruct (disablers d !! t) as [dt|] eqn:E; simpl.
  - rewrite lookup_insert_eq, E. simpl. by destruct fl.
  - rewrite !lookup_insert_eq. simpl. by destruct fl.
  - by rewrite lookup_insert_ne.
  - by rewrite !lookup_insert_ne.
Qed.

Lemma add_disabler_In name t a b fl d iv :
  In iv (lines_of name (add_disabler t a b fl d))
  <-> In iv (lines_of name d) \/ (name = t /\ iv = (a, b)).
Proof.
  rewrite lines_of_add_disabler. case_decide.
  - rewrite in_app_iff. simpl. intuition.
  - intuition.
Qed.

Lemma add_disabler_lookup t a b fl d :
  exists dt, disablers (add_disabler t a b fl d) !! t = Some dt
    /\ DisabledLines.lines dt = lines_of t d ++ [(a, b)]
    /\ (fl = true -> DisabledLines.disabled_whole dt = true).
Proof.
  unfold add_disabler, lines_of, ensure, at_.
  destruct (disablers d !! t) as [dt|] eqn:E; simpl;
    rewrite ?lookup_insert_eq, ?E; simpl;
    (eexists; split; [done|]);
    destruct fl; simpl; split; auto; discriminate.
Qed.

Lemma registry_grows_add_disabler t a b fl d :
  registry_grows d (add_disabler t a b fl d).
Proof.
  unfold registry_grows, add_disabler, ensure.
  destruct (disablers d !! t) as [dt|] eqn:E; simpl; repeat split.
  - intros name da H. rewrite lookup_insert. case_decide; subst.
    + eexists. split; [done|]. unfold at_. rewrite E. simpl.
      rewrite E in H. injection H as ->.
      destruct fl; split; simpl; auto using incl_appl, incl_refl.
    + exists da. split; [done | apply lines_grow_refl].
  - intros name da H. rewrite lookup_insert. case_decide; subst.
    + congruence.
    + rewrite lookup_insert_ne by done.
      exists da. split; [done | apply lines_grow_refl].
Qed.

Lemma registry_grows_add_disabled_header t line d :
  registry_grows d (add_disabled_header t line d).
Proof.
  unfold registry_grows, add_disabled_header, ensure.
  destruct (disablers d !! t) as [dt|] eqn:E; simpl; repeat split.
  - intros name da H. rewrite lookup_insert. case_decide; subst.
    + eexists. split; [done|]. unfold at_. rewrite E. simpl.
      rewrite E in H. injection H as ->.
      split; simpl; auto using incl_refl.
    + exists da. split; [done | apply lines_grow_refl].
  - intros name da H. rewrite lookup_insert. case_decide; subst.
    + congruence.
    + rewrite lookup_insert_ne by done.
      exists da. split; [done | apply lines_grow_refl].
Qed.

Lemma registry_grows_lines a b name iv :
  registry_grows a b -> In iv (lines_of name a) -> In iv (lines_of name b).
Proof.
  intros (_ & _ & _ & H) Hin. unfold lines_of, at_ in *.
  destruct (disablers a !! name) as [da|] eqn:E; simpl in Hin; [|destruct Hin].
  destruct (H _ _ E) as (db & -> & Hg & _). simpl. by apply Hg.
Qed.

Lemma registry_grows_whole a b name :
  registry_grows a b ->
  DisabledLines.disabled_whole (at_ name a) = true ->
  disablers a !! name <> None ->
  DisabledLines.disabled_whole (at_ name b) = true.
Proof.
  intros (_ & _ & _ & H) Hw Hn. unfold at_ in *.
  destruct (disablers a !! name) as [da|] eqn:E; [|done].
  destruct (H _ _ E) as (db & -> & _ & Hg). simpl in *. auto.
Qed.

Lemma lines_of_sort_disablers name d :
  lines_of name (sort_disablers d)
  = DisabledLines.sorted_by_start (lines_of name d).
Proof.
  unfold lines_of, sort_disablers, at_. simpl. rewrite lookup_fmap.
  by destruct (disablers d !! name).
Qed.

Lemma whole_sort_disablers name d :
  DisabledLines.disabled_whole (at_ name (sort_disablers d))
  = DisabledLines.disabled_whole (at_ name d).
Proof.
  unfold sort_disablers, at_. simpl. rewrite lookup_fmap.
  by destruct (disablers d !! name).
Qed.

Lemma is_node_disabled_at_sorted name d node :
  DisabledLines.is_node_disabled (Some node) true (at_ name (sort_disablers d))
  = true
  <-> exists iv, In iv (lines_of name d) /\ covers iv node.
Proof.
  unfold lines_of, sort_disablers, at_. simpl. rewrite lookup_fmap.
  destruct (disablers d !! name) as [dn|]; simpl.
  - apply is_node_disabled_sorted.
  - split; [discriminate | intros (? & [] & _)].
Qed.

(** The query of [DisablersInFile] once the pass has sorted the registry:
    the wildcard's intervals and the target's own are each searched
    exactly. *)
Lemma is_node_disabled_final name d node :
  is_node_disabled name (Some node) true (sort_disablers d) = true
  <-> exists iv, (In iv (lines_of ALL_TRANSFORMERS d) \/ In iv (lines_of name d))
                 /\ covers iv node.
Proof.
  unfold is_node_disabled.
  destruct (DisabledLines.is_node_disabled (Some node) true
              (at_ ALL_TRANSFORMERS (sort_disablers d))) eqn:E.
  - apply is_node_disabled_at_sorted in E as (iv & Hin & Hc).
    split; [|done]. intros _. exists iv. auto.
  - pose proof (is_node_disabled_at_sorted name d node) as Hn.
    unfold at_ in Hn at 1.
    destruct (disablers (sort_disablers d) !! name) as [dn|] eqn:En; simpl in Hn.
    + rewrite Hn. split.
      * intros (iv & Hin & Hc). exists iv. auto.
      * intros (iv & [Hin|Hin] & Hc); [|by exists iv].
        assert (DisabledLines.is_node_disabled (Some node) true
                  (at_ ALL_TRANSFORMERS (sort_disablers d)) = true) as E'
          by (apply is_node_disabled_at_sorted; by exists iv).
        congruence.
    + split; [discriminate|]. intros (iv & [Hin|Hin] & Hc).
      * assert (DisabledLines.is_node_disabled (Some node) true
                  (at_ ALL_TRANSFORMERS (sort_disablers d)) = true) as E'
          by (apply is_node_disabled_at_sorted; by exists iv).
        congruence.
      * unfold sort_disablers in En. simpl in En. rewrite lookup_fmap in En.
        unfold lines_of, at_ in Hin.
        destruct (disablers d !! name); [discriminate | destruct Hin].
Qed.

End Registry.

(** ** Induction on the block tree *)

Section NodeInduction.

Variables (P : Node -> Prop) (Q : TryNode -> Prop).
Hypothesis on_statement : forall s, P (NStatement s).
Hypothesis on_block :
  forall k header body end_ loc,
    Forall P body -> P (NBlock k header body end_ loc).
Hypothesis on_if :
  forall header body orelse end_ loc,
    Forall P body -> on_option P orelse -> P (NIf header body orelse end_ loc).
Hypothesis on_try : forall t, Q t -> P (NTry t).
Hypothesis on_branch :
  forall header body next end_ loc,
    Forall P body -> on_option Q next -> Q (mkTry header body next end_ loc).

Lemma Node_TryNode_ind : (forall n, P n) /\ (forall t, Q t).
Proof.
  refine
    (let all_of (f : forall n, P n) :=
         fix go (l : list Node) : Forall P l :=
           match l with
           | [] => @List.Forall_nil _ P
           | x :: l' => @List.Forall_cons _ P x l' (f x) (go l')
           end in
     conj
       (fix node (n : Node) : P n :=
          match n with
          | NStatement s => on_statement s
          | NBlock k h b e l => on_block k h b e l (all_of node b)
          | NIf h b o e l =>
              on_if h b o e l (all_of node b)
                (match o return on_option P o with
                 | Some n' => node n'
                 | None => I
                 end)
          | NTry t => on_try t (branch t)
          end
        with branch (t : TryNode) : Q t :=
          match t with
          | mkTry h b nx e l =>
              on_branch h b nx e l (all_of node b)
                (match nx return on_option Q nx with
                 | Some t' => branch t'
                 | None => I
                 end)
          end
        for node)
       (fix node (n : Node) : P n :=
          match n with
          | NStatement s => on_statement s
          | NBlock k h b e l => on_block k h b e l (all_of node b)
          | NIf h b o e l =>
              on_if h b o e l (all_of node b)
                (match o return on_option P o with
                 | Some n' => node n'
                 | None => I
                 end)
          | NTry t => on_try t (branch t)
          end
        with branch (t : TryNode) : Q t :=
          match t with
          | mkTry h b nx e l =>
              on_branch h b nx e l (all_of node b)
                (match nx return on_option Q nx with
                 | Some t' => branch t'
                 | None => I
                 end)
          end
        for branch)).
Qed.

End NodeInduction.

(** ** The scope stack *)

Section Stack.

Lemma stack_snoc (stack : list Frame) :
  stack <> [] -> exists init top, stack = init ++ [top].
Proof.
  intros H. destruct (exists_last H) as (init & top & ->). eauto.
Qed.

Lemma stack_get_last init (top : Frame) :
  stack_get Last (init ++ [top]) = Some top.
Proof. apply last_snoc. Qed.

Lemma stack_set_last init (top f : Frame) :
  stack_set Last f (init ++ [top]) = init ++ [f].
Proof.
  unfold stack_set. destruct (init ++ [top]) eqn:E.
  - by destruct init.
  - by rewrite <- E, removelast_last.
Qed.

Lemma middle_snoc init (top : Frame) : middle (init ++ [top]) = tail init.
Proof.
  unfold middle. destruct init as [|b mid]; [done|].
  simpl. apply removelast_last.
Qed.

Lemma stack_set_length i f (stack : list Frame) :
  length (stack_set i f stack) = length stack.
Proof.
  destruct stack as [|b rest] using rev_ind; [by destruct i|].
  destruct i.
  - by destruct rest.
  - rewrite stack_set_last, !length_app. done.
Qed.

Lemma stack_set_middle i f (stack : list Frame) :
  middle (stack_set i f stack) = middle stack.
Proof.
  destruct stack as [|b rest] using rev_ind; [by destruct i|].
  destruct i.
  - by destruct rest.
  - by rewrite stack_set_last, !middle_snoc.
Qed.

(** A stack of the same depth and middle as [init ++ [top]]. *)
Lemma same_shape_snoc (stack init : list Frame) top :
  length stack = length (init ++ [top]) ->
  middle stack = middle (init ++ [top]) ->
  exists init' top',
    stack = init' ++ [top'] /\ length init' = length init
    /\ tail init' = tail init.
Proof.
  intros Hl Hm. destruct (stack_snoc stack) as (init' & top' & ->).
  { intros ->. rewrite length_app in Hl. simpl in Hl. lia. }
  exists init', top'. rewrite !middle_snoc in Hm. rewrite !length_app in Hl.
  simpl in Hl. split; [done|]. split; [lia | done].
Qed.

End Stack.

(** ** What the visitor's steps keep *)

Section Steps.

Import RegisterDisablers.

(** The methods named in the source are the cases of [visit]. *)
Lemma visit_block_eq k header body end_ loc :
  visit (NBlock k header body end_ loc)
  = visit_TestCase (NBlock k header body end_ loc).
Proof. reflexivity. Qed.

Lemma visit_if_eq header body orelse end_ loc :
  visit (NIf header body orelse end_ loc)
  = visit_TestCase (NIf header body orelse end_ loc).
Proof. reflexivity. Qed.

Lemma visit_try_eq t : visit (NTry t) = visit_Try t.
Proof. by destruct t. Qed.

Lemma visit_keeps_refl a : visit_keeps a a.
Proof. do 5 (split; [done|]). apply registry_grows_refl. Qed.

Lemma visit_keeps_trans a b c :
  visit_keeps a b -> visit_keeps b c -> visit_keeps a c.
Proof.
  intros (A1 & A2 & A3 & A4 & A5 & A6) (B1 & B2 & B3 & B4 & B5 & B6).
  unfold visit_keeps. rewrite B1, B2, B3, B4, B5.
  do 5 (split; [done|]). by eapply registry_grows_trans.
Qed.

Lemma visit_keeps_nonempty a b :
  visit_keeps a b -> disablers_in_scope a <> [] -> disablers_in_scope b <> [].
Proof.
  intros (_ & _ & _ & Hl & _) Ha Hb. rewrite Hb in Hl.
  destruct (disablers_in_scope a); [done | discriminate].
Qed.

(** A step that only touches the registry. *)
Lemma visit_keeps_registry d a :
  registry_grows (disablers a) d -> visit_keeps a (with_disablers d a).
Proof. intros H. by do 5 (split; [done|]). Qed.

(** A loop keeps what each of its rounds keeps. *)
Lemma for_each_keeps {A} (body : A -> M) (Inv : t -> Prop) xs :
  (forall x self, In x xs -> Inv self ->
     exists self', body x self = Some self' /\ visit_keeps self self'
                   /\ Inv self') ->
  forall self, Inv self ->
    exists self', for_each body xs self = Some self' /\ visit_keeps self self'
                  /\ Inv self'.
Proof.
  induction xs as [|x xs IH]; intros Hbody self Hinv; simpl.
  - exists self. split; [done|]. split; [apply visit_keeps_refl | done].
  - destruct (Hbody x self) as (s1 & E1 & K1 & I1); [by left | done |].
    destruct (IH (fun y s Hy => Hbody y s (or_intror Hy)) s1 I1)
      as (s2 & E2 & K2 & I2).
    exists s2. unfold seq. rewrite E1. simpl. split; [done|].
    split; [by eapply visit_keeps_trans | done].
Qed.

Lemma push_scope_spec self :
  push_scope self
  = Some (with_scope (disablers_in_scope self ++ [[(ALL_TRANSFORMERS, 0)]]) self).
Proof. done. Qed.

Lemma close_one_keeps line entry self :
  exists self', close_one line entry self = Some self'
    /\ visit_keeps self self'
    /\ disablers_in_scope self' = disablers_in_scope self.
Proof.
  destruct entry as [name first]. unfold close_one.
  destruct (first =? 0).
  - exists self. split; [done|]. split; [apply visit_keeps_refl | done].
  - eexists. split; [done|]. split; [|done].
    apply visit_keeps_registry, registry_grows_add_disabler.
Qed.

(** [close_disabler] pops the last frame; the registry grows. *)
Lemma close_disabler_spec line self init top :
  disablers_in_scope self = init ++ [top] ->
  exists self',
    close_disabler line self = Some self'
    /\ disablers_in_scope self' = init
    /\ start_line self' = start_line self /\ end_line self' = end_line self
    /\ file_level_disablers self' = file_level_disablers self
    /\ registry_grows (disablers self) (disablers self').
Proof.
  intros Hs. unfold close_disabler. rewrite Hs, last_snoc. simpl.
  rewrite removelast_last.
  destruct (for_each_keeps (close_one line)
              (fun s => disablers_in_scope s = init) top) with
    (self := with_scope init self) as (s' & E & K & I); [|done|].
  - intros x s _ Hi. destruct (close_one_keeps line x s) as (s' & E & K & S).
    exists s'. split; [done|]. split; [done | congruence].
  - exists s'. split; [done|]. split; [done|].
    destruct K as (K1 & K2 & K3 & _ & _ & K6). simpl in *.
    by do 3 (split; [done|]).
Qed.

Lemma seq_keeps (a b : M) self :
  (exists s1, a self = Some s1 /\ visit_keeps self s1
     /\ exists s2, b s1 = Some s2 /\ visit_keeps s1 s2) ->
  exists s2, seq a b self = Some s2 /\ visit_keeps self s2.
Proof.
  intros (s1 & E1 & K1 & s2 & E2 & K2). exists s2. unfold seq. rewrite E1.
  split; [done | by eapply visit_keeps_trans].
Qed.

(** Steps that only write to the registry. *)
Lemma registry_loop_keeps (f : string -> DisablersInFile.t -> DisablersInFile.t)
    names self :
  (forall name d, registry_grows d (f name d)) ->
  exists self',
    for_each (fun name s => Some (with_disablers (f name (disablers s)) s))
      names self = Some self'
    /\ visit_keeps self self'
    /\ disablers_in_scope self' = disablers_in_scope self.
Proof.
  intros Hf.
  apply (for_each_keeps _
           (fun s => disablers_in_scope s = disablers_in_scope self)); [|done].
  intros name s _ Hs. eexists. split; [done|].
  split; [by apply visit_keeps_registry | done].
Qed.

Lemma inline_step_keeps loc comment self :
  exists self', inline_step loc comment self = Some self'
    /\ visit_keeps self self'
    /\ disablers_in_scope self' = disablers_in_scope self.
Proof.
  unfold inline_step. destruct (get_disabler (value comment)) as [m|].
  - destruct (String.eqb (group_disabler m) "off").
    + apply (registry_loop_keeps
               (fun name => DisablersInFile.add_disabler name _ _ false)).
      intros. apply registry_grows_add_disabler.
    + exists self. split; [done|]. split; [apply visit_keeps_refl | done].
  - exists self. split; [done|]. split; [apply visit_keeps_refl | done].
Qed.

Lemma header_comments_keeps line comments self :
  exists self', header_comments line comments self = Some self'
    /\ visit_keeps self self'
    /\ disablers_in_scope self' = disablers_in_scope self.
Proof.
  induction comments as [|c rest IH]; simpl.
  - exists self. split; [done|]. split; [apply visit_keeps_refl | done].
  - destruct (get_disabler (value c)) as [m|]; [|exact IH].
    destruct (negb (String.eqb (group_disabler m) "off")); [exact IH|].
    apply (registry_loop_keeps
             (fun name => DisablersInFile.add_disabled_header name line)).
    intros. apply registry_grows_add_disabled_header.
Qed.

Lemma comment_step_keeps index disabler_start line transformer self :
  disablers_in_scope self <> [] ->
  exists self',
    comment_step index disabler_start line transformer self = Some self'
    /\ visit_keeps self self'.
Proof.
  intros Hne. unfold comment_step.
  assert (exists frame, stack_get index (disablers_in_scope self) = Some frame)
    as (frame & ->).
  { destruct (stack_snoc _ Hne) as (init & top & ->). destruct index.
    - destruct init; simpl; eauto.
    - rewrite stack_get_last. eauto. }
  simpl.
  destruct disabler_start, (frame_closed transformer frame);
    try (exists self; split; [done | apply visit_keeps_refl]);
    (eexists; split; [done|]); unfold visit_keeps; simpl;
    rewrite stack_set_length, stack_set_middle;
    do 5 (split; [done|]).
  - apply registry_grows_add_disabler.
  - apply registry_grows_refl.
Qed.

Lemma visit_statement_keeps s self :
  wf_statement s = true -> disablers_in_scope self <> [] ->
  exists self', visit_statement s self = Some self' /\ visit_keeps self self'.
Proof.
  intros Hwf Hne. unfold visit_statement, visit_Statement, wf_statement in *.
  destruct (sclass s).
  - apply bool_decide_eq_true in Hwf as [comment ->].
    destruct (get_disabler (value comment)) as [m|].
    + destruct (for_each_keeps
                  (comment_step (if is_line_start s then First else Last)
                     (String.eqb (group_disabler m) "on") (lineno (sloc s)))
                  (fun x => disablers_in_scope x <> [])
                  (get_disabler_transformers m)) with (self := self)
        as (s' & E & K & _); [|done|by exists s'].
      intros x x0 _ Hx. destruct (comment_step_keeps
        (if is_line_start s then First else Last)
        (String.eqb (group_disabler m) "on") (lineno (sloc s)) x x0 Hx)
        as (s' & E & K).
      exists s'. split; [done|]. split; [done | by eapply visit_keeps_nonempty].
    + exists self. split; [done | apply visit_keeps_refl].
  - destruct (header_comments_keeps (lineno (sloc s)) (get_tokens COMMENT s) self)
      as (s' & E & K & _). by exists s'.
  - destruct (for_each_keeps (inline_step (sloc s)) (fun _ => True)
                (get_tokens COMMENT s)) with (self := self)
      as (s' & E & K & _); [|done|by exists s'].
    intros x x0 _ _. destruct (inline_step_keeps (sloc s) x x0) as (s' & E & K & _).
    by exists s'.
Qed.

Lemma visit_field_keeps field self :
  wf_field field = true -> disablers_in_scope self <> [] ->
  exists self', visit_field field self = Some self' /\ visit_keeps self self'.
Proof.
  destruct field as [s|]; simpl.
  - apply visit_statement_keeps.
  - intros _ _. exists self. split; [done | apply visit_keeps_refl].
Qed.

(** Push a frame, run [inner], close the frame: the shape of every
    scope-bearing visit. *)
Lemma scoped_goes_through (inner : M) line :
  (forall s, disablers_in_scope s <> [] ->
     exists s', inner s = Some s' /\ visit_keeps s s') ->
  visit_goes_through (seq push_scope (seq inner (close_disabler line))) false.
Proof.
  intros Hinner self _. unfold seq at 1. rewrite push_scope_spec. simpl.
  set (self1 := with_scope _ self).
  destruct (Hinner self1) as (self2 & E2 & K2).
  { simpl. by destruct (disablers_in_scope self). }
  destruct K2 as (K21 & K22 & K23 & K24 & K25 & K26).
  destruct (same_shape_snoc _ _ _ K24 K25) as (init & top & Hs2 & Hl & Ht).
  destruct (close_disabler_spec line self2 init top Hs2)
    as (self3 & E3 & S3 & A3 & B3 & C3 & D3).
  exists self3. unfold seq. rewrite E2. simpl. split; [done|].
  split; [|intros _; congruence].
  unfold visit_keeps. rewrite S3, A3, B3, C3, K21, K22, K23. simpl.
  do 3 (split; [done|]). split; [done|]. split.
  - unfold middle. by rewrite Ht.
  - by eapply registry_grows_trans.
Qed.

End Steps.

(** ** Every visit of a well-formed tree goes through *)

Section Totality.

Import RegisterDisablers.

Lemma runs_ret : runs_in_scope ret.
Proof. intros s _. exists s. split; [done | apply visit_keeps_refl]. Qed.

Lemma runs_seq a b : runs_in_scope a -> runs_in_scope b -> runs_in_scope (seq a b).
Proof.
  intros Ha Hb s Hs. apply seq_keeps.
  destruct (Ha s Hs) as (s1 & E1 & K1). exists s1. split; [done|]. split; [done|].
  apply Hb. by eapply visit_keeps_nonempty.
Qed.

Lemma runs_field field : wf_field field = true -> runs_in_scope (visit_field field).
Proof. intros H s Hs. by apply visit_field_keeps. Qed.

Lemma runs_goes_through m b : visit_goes_through m b -> runs_in_scope m.
Proof.
  intros H s Hs. destruct (H s (fun _ => Hs)) as (s' & E & K & _). eauto.
Qed.

Lemma runs_body body :
  Forall node_goes_through body -> forallb wf_node body = true ->
  runs_in_scope (for_each visit body).
Proof.
  intros HP Hwf s Hs.
  destruct (for_each_keeps visit (fun x => disablers_in_scope x <> []) body)
    with (self := s) as (s' & E & K & _); [|done|by exists s'].
  intros x s0 Hx Hs0.
  rewrite List.Forall_forall in HP. rewrite forallb_forall in Hwf.
  destruct (runs_goes_through _ _ (HP x Hx (Hwf x Hx)) s0 Hs0) as (s' & E & K).
  exists s'. split; [done|]. split; [done | by eapply visit_keeps_nonempty].
Qed.

Lemma goes_through_ret : visit_goes_through ret false.
Proof.
  intros s _. exists s. split; [done|]. split; [apply visit_keeps_refl | done].
Qed.

Lemma goes_through_seq a b :
  visit_goes_through a false -> visit_goes_through b false ->
  visit_goes_through (seq a b) false.
Proof.
  intros Ha Hb s _.
  destruct (Ha s) as (s1 & E1 & K1 & T1); [done|].
  destruct (Hb s1) as (s2 & E2 & K2 & T2); [done|].
  exists s2. unfold seq. rewrite E1. simpl. split; [done|].
  split; [by eapply visit_keeps_trans|]. intros _. rewrite T2, T1; done.
Qed.

Lemma scoped_then_goes_through inner line rest :
  runs_in_scope inner -> visit_goes_through rest false ->
  visit_goes_through
    (seq push_scope (seq inner (seq (close_disabler line) rest))) false.
Proof.
  intros Hi Hr s Hs.
  destruct (goes_through_seq _ _ (scoped_goes_through inner line Hi) Hr s Hs)
    as (s' & E & K).
  exists s'. split; [|done]. rewrite <- E. unfold seq. simpl.
  by destruct (inner _).
Qed.

(** The rest of [visit_Try] after a branch has been reached. *)
Lemma try_rest_goes_through body next :
  runs_in_scope (for_each visit body) ->
  on_option branch_goes_through next ->
  match next with None => True | Some t' => wf_try t' = true end ->
  visit_goes_through
    match next with
    | None => ret
    | Some t =>
        seq (try_round (for_each visit body) (lineno (try_loc t))) (try_while t)
    end false.
Proof.
  intros Hb Hn Hwf. destruct next as [t'|]; [|apply goes_through_ret].
  apply goes_through_seq.
  - by apply scoped_goes_through.
  - by apply Hn.
Qed.

Lemma wf_try_next body next h e l :
  wf_try (mkTry h body next e l) = true ->
  forallb wf_node body = true
  /\ match next with None => True | Some t' => wf_try t' = true end.
Proof.
  simpl. intros [H1 H2]%andb_true_iff. split; [done|]. by destruct next.
Qed.

Lemma goes_through_all :
  (forall n, node_goes_through n) /\ (forall t, branch_goes_through t).
Proof.
  apply Node_TryNode_ind.
  - intros s Hwf self Hs. simpl in *.
    destruct (visit_statement_keeps s self Hwf (Hs eq_refl)) as (s' & E & K).
    exists s'. by split; [|split].
  - intros k header body end_ loc HP Hwf. simpl in Hwf.
    apply andb_true_iff in Hwf as [[H1 H2]%andb_true_iff H3].
    apply scoped_goes_through.
    apply runs_seq; [by apply runs_field|].
    apply runs_seq; [by apply runs_body | by apply runs_field].
  - intros header body orelse end_ loc HP Ho Hwf. simpl in Hwf.
    apply andb_true_iff in Hwf as [[[H1 H2]%andb_true_iff H3]%andb_true_iff H4].
    apply scoped_goes_through.
    apply runs_seq; [by apply runs_field|].
    apply runs_seq; [by apply runs_body|].
    apply runs_seq; [|by apply runs_field].
    destruct orelse as [n|]; [|apply runs_ret].
    eapply runs_goes_through. by apply Ho.
  - intros [h body next e l] Ht Hwf. simpl in Hwf.
    destruct (Ht Hwf) as [Hb Hw]. simpl in Hb.
    by apply (scoped_then_goes_through (for_each visit body) (end_lineno l) _ Hb).
  - intros h body next e l HP Hn Hwf.
    destruct (wf_try_next _ _ _ _ _ Hwf) as [H1 H2].
    pose proof (runs_body body HP H1) as Hb.
    split; [exact Hb|]. by apply try_rest_goes_through.
Qed.

Lemma visit_goes_through_wf n :
  wf_node n = true -> visit_goes_through (visit n) (is_statement n).
Proof. apply goes_through_all. Qed.

End Totality.

(** ** The global restriction and the whole pass *)

Section Pass.

Import RegisterDisablers.

Lemma parse_global_disablers_lines (self : DisabledLines.t) fe :
  DisabledLines.file_end self = Some fe ->
  DisabledLines.parse_global_disablers self
  = Some (DisabledLines.set_lines
            (DisabledLines.lines self
             ++ global_intervals (DisabledLines.start_line self)
                  (DisabledLines.end_line self) fe) self).
Proof.
  intros Hfe. unfold DisabledLines.parse_global_disablers, global_intervals.
  rewrite Hfe. destruct self as [sl el fe' ls hs w]. simpl in *.
  destruct sl as [s|]; simpl; [|by rewrite app_nil_r].
  destruct (s =? 0); simpl; [by rewrite app_nil_r|].
  destruct el as [e|]; simpl.
  - destruct (e =? 0); simpl; destruct (1 <? s); simpl;
      repeat match goal with |- context [if ?c then _ else _] => destruct c end;
      unfold DisabledLines.add_disabler, DisabledLines.set_lines; simpl;
      rewrite <- ?app_assoc, ?app_nil_r; done.
  - destruct (1 <? s); simpl;
      repeat match goal with |- context [if ?c then _ else _] => destruct c end;
      unfold DisabledLines.add_disabler, DisabledLines.set_lines; simpl;
      rewrite <- ?app_assoc, ?app_nil_r; done.
Qed.

(** The registry [visit_File] starts the sections with. *)
Lemma parse_global_disablers_init sl el fe :
  exists d0,
    DisablersInFile.parse_global_disablers
      (DisablersInFile.init sl el (Some fe)) = Some d0
    /\ lines_of ALL_TRANSFORMERS d0 = global_intervals sl el fe
    /\ DisablersInFile.disablers d0 !! ALL_TRANSFORMERS <> None
    /\ forall name, name <> ALL_TRANSFORMERS -> lines_of name d0 = [].
Proof.
  unfold DisablersInFile.parse_global_disablers, DisablersInFile.init. simpl.
  rewrite lookup_singleton_eq. simpl.
  rewrite (parse_global_disablers_lines _ fe) by done. simpl.
  eexists. split; [done|]. unfold lines_of, DisablersInFile.at_. simpl.
  rewrite lookup_insert_eq. simpl. split; [done|]. split; [done|].
  intros name Hn. rewrite lookup_insert_ne, lookup_singleton_ne by done. done.
Qed.

Lemma register_disablers_unfold sl el f :
  register_disablers sl el f
  = d0 ← DisablersInFile.parse_global_disablers
           (DisablersInFile.init sl el (Some (file_end_lineno f)));
    self ← visit_sections 0 (sections f) (mk sl el d0 [] false);
    Some (DisablersInFile.sort_disablers (disablers self)).
Proof.
  unfold register_disablers, visit_File, init. simpl.
  destruct (DisablersInFile.parse_global_disablers _) as [d0|]; [|done]. simpl.
  unfold with_disablers. simpl.
  by destruct (visit_sections _ _ _).
Qed.

(** The sections after the first leave an empty stack and only grow the
    registry. *)
Lemma visit_sections_goes_through index secs self :
  forallb (fun n => is_Section n && wf_node n) secs = true ->
  disablers_in_scope self = [] ->
  exists self',
    visit_sections index secs self = Some self'
    /\ disablers_in_scope self' = []
    /\ registry_grows (disablers self) (disablers self').
Proof.
  revert index self. induction secs as [|sec secs IH]; intros index self Hwf Hs.
  - exists self. split; [done|]. split; [done | apply registry_grows_refl].
  - simpl in Hwf. apply andb_true_iff in Hwf as [[H1 H2]%andb_true_iff H3].
    simpl. unfold seq at 1.
    assert (visit_Section sec = visit sec) as ->.
    { destruct sec as [|[] ? ? ? ?| |]; done. }
    destruct (visit_goes_through_wf sec H2
                (with_file_level (Nat.eqb index 0 && is_CommentSection sec) self))
      as (s1 & E1 & K1 & T1).
    { destruct sec; done. }
    rewrite E1. simpl.
    destruct K1 as (_ & _ & _ & Kl & _ & Kg). simpl in Kl, Kg.
    rewrite Hs in Kl. apply nil_length_inv in Kl.
    destruct (IH (S index) s1 H3 Kl) as (s2 & E2 & S2 & G2).
    exists s2. split; [done|]. split; [done|]. by eapply registry_grows_trans.
Qed.

(** On a well-formed document the pass returns a registry: the sorted form
    of one that has grown from the global restriction. *)
Lemma register_disablers_goes_through sl el f :
  wf_sections f = true ->
  exists d0 d1,
    DisablersInFile.parse_global_disablers
      (DisablersInFile.init sl el (Some (file_end_lineno f))) = Some d0
    /\ registry_grows d0 d1
    /\ register_disablers sl el f = Some (DisablersInFile.sort_disablers d1).
Proof.
  intros Hwf. rewrite register_disablers_unfold.
  destruct (parse_global_disablers_init sl el (file_end_lineno f))
    as (d0 & E0 & _).
  destruct (visit_sections_goes_through 0 (sections f) (mk sl el d0 [] false) Hwf)
    as (s1 & E1 & _ & G1); [done|].
  exists d0, (disablers s1). rewrite E0. simpl. rewrite E1. done.
Qed.

End Pass.

(** ** Queries *)

Section Queries.

(** The query of the registry is the query of the wildcard's intervals or
    of the target's own. *)
Lemma is_node_disabled_either name node full d :
  DisablersInFile.is_node_disabled name node full d
  = DisabledLines.is_node_disabled node full
      (DisablersInFile.at_ ALL_TRANSFORMERS d)
    || DisabledLines.is_node_disabled node full (DisablersInFile.at_ name d).
Proof.
  unfold DisablersInFile.is_node_disabled.
  destruct (DisabledLines.is_node_disabled node full
              (DisablersInFile.at_ ALL_TRANSFORMERS d)); [done|].
  unfold DisablersInFile.at_.
  destruct (DisablersInFile.disablers d !! name); simpl; [done|].
  by destruct node.
Qed.

Lemma is_node_disabled_overlap (d : DisabledLines.t) node :
  DisabledLines.is_node_disabled (Some node) false d = true
  <-> exists iv, In iv (DisabledLines.lines d)
                 /\ lineno node <= snd iv
                 /\ fst iv <= Z.max (lineno node) (end_lineno node).
Proof.
  unfold DisabledLines.is_node_disabled.
  destruct (DisabledLines.lines d) as [|x l] eqn:E.
  - split; [discriminate | intros (? & [] & _)].
  - apply scan_overlap_spec.
Qed.

(** An interval of the wildcard that contains a node disables it for every
    target and in both modes, once the registry is sorted. *)
Lemma wildcard_interval_disables name node full d iv :
  In iv (lines_of ALL_TRANSFORMERS d) -> covers iv node ->
  DisablersInFile.is_node_disabled name (Some node) full
    (DisablersInFile.sort_disablers d) = true.
Proof.
  intros Hin Hc. destruct full.
  - apply is_node_disabled_final. exists iv. auto.
  - rewrite is_node_disabled_either. apply orb_true_iff. left.
    apply is_node_disabled_overlap. exists iv.
    fold (lines_of ALL_TRANSFORMERS (DisablersInFile.sort_disablers d)).
    rewrite lines_of_sort_disablers. split.
    + by apply sorted_by_start_In.
    + destruct Hc. lia.
Qed.

End Queries.

(** ** The full-match scan on a sorted list, and the processing window *)

(** C4, as the code has it: after [sort_disablers] the full-match query of
    a target answers true exactly when one of the wildcard's intervals or
    one of the target's own wholly contains the node; an interval that
    contains the node is never passed over, whatever other intervals
    overlap it. *)
Theorem full_match_exact_on_sorted name (d : DisablersInFile.t) node :
  DisablersInFile.is_node_disabled name (Some node) true
    (DisablersInFile.sort_disablers d) = true
  <-> exists iv,
        (In iv (lines_of ALL_TRANSFORMERS d) \/ In iv (lines_of name d))
        /\ covers iv node.
Proof. apply is_node_disabled_final. Qed.

(** C4, as stated, does not hold: no sorted interval list has two
    overlapping intervals with different end lines and a node wholly inside
    one of them that the full-match query reports as not disabled. *)
Lemma no_contained_node_is_missed :
  ~ exists (d : DisabledLines.t) (a b : Z * Z) (node : Located),
      let finalized := DisabledLines.sort_disablers d in
      In a (DisabledLines.lines finalized)
      /\ In b (DisabledLines.lines finalized)
      /\ overlapping a b /\ snd a <> snd b
      /\ covers a node
      /\ DisabledLines.is_node_disabled (Some node) true finalized = false.
Proof.
  intros (d & a & b & node & Ha & _ & _ & _ & Hc & Hq). cbv zeta in *.
  assert (DisabledLines.is_node_disabled (Some node) true
            (DisabledLines.sort_disablers d) = true) as Ht.
  { apply is_node_disabled_sorted. exists a. split; [|done].
    by apply (proj1 (sorted_by_start_In _ _)). }
  congruence.
Qed.

(** C10, as the code has it: without a [start_line] the window is
    ignored, whatever [end_line] is, and a [start_line] of 0 counts as none;
    with another [start_line] and no [end_line] the window is the single
    line [start_line], so the lines after it up to the file end are
    synthesized whenever [start_line] is below the file end. *)
Theorem half_given_window (s : Z) (e : option Z) (fe : Z) (fe' : option Z)
    (ls : list (Z * Z)) (hs : gset Z) (w : bool) :
  DisabledLines.parse_global_disablers (DisabledLines.mk None e fe' ls hs w)
  = Some (DisabledLines.mk None e fe' ls hs w)
  /\ DisabledLines.parse_global_disablers
       (DisabledLines.mk (Some 0) e fe' ls hs w)
     = Some (DisabledLines.mk (Some 0) e fe' ls hs w)
  /\ (s <> 0 ->
      DisabledLines.lines
        <$> DisabledLines.parse_global_disablers
              (DisabledLines.mk (Some s) None (Some fe) ls hs w)
      = DisabledLines.lines
          <$> DisabledLines.parse_global_disablers
                (DisabledLines.mk (Some s) (Some s) (Some fe) ls hs w)
      /\ DisabledLines.parse_global_disablers
           (DisabledLines.mk (Some s) None (Some fe) ls hs w)
         = Some (DisabledLines.mk (Some s) None (Some fe)
                   (ls ++ (if 1 <? s then [(1, s - 1)] else [])
                       ++ (if s <? fe then [(s + 1, fe)] else []))
                   hs w)
      /\ (s < fe ->
          exists r,
            DisabledLines.parse_global_disablers
              (DisabledLines.mk (Some s) None (Some fe) ls hs w) = Some r
            /\ In (s + 1, fe) (DisabledLines.lines r))).
Proof.
  split; [done|]. split; [done|]. intros Hs.
  assert (DisabledLines.parse_global_disablers
            (DisabledLines.mk (Some s) None (Some fe) ls hs w)
          = Some (DisabledLines.mk (Some s) None (Some fe)
                    (ls ++ (if 1 <? s then [(1, s - 1)] else [])
                        ++ (if s <? fe then [(s + 1, fe)] else []))
                    hs w)) as E.
  { rewrite (parse_global_disablers_lines _ fe) by done.
    unfold global_intervals, DisabledLines.set_lines. simpl.
    by destruct (Z.eqb_spec s 0). }
  split; [|split; [exact E|]].
  - rewrite E, (parse_global_disablers_lines _ fe) by done.
    unfold global_intervals, DisabledLines.set_lines. simpl.
    by destruct (Z.eqb_spec s 0).
  - intros Hlt. eexists. split; [exact E|]. simpl.
    apply in_or_app. right. apply in_or_app. right.
    destruct (Z.ltb_spec s fe); [by left | lia].
Qed.

Lemma half_given_window_witness :
  DisabledLines.lines
    <$> DisabledLines.parse_global_disablers
          (DisabledLines.init (Some 3) None (Some 10))
  = Some [(1, 2); (4, 10)]
  /\ exists r,
       DisabledLines.parse_global_disablers
         (DisabledLines.init (Some 3) None (Some 10)) = Some r
       /\ In (4, 10) (DisabledLines.lines r).
Proof.
  destruct (half_given_window 3 (Some 7) 10 None [] ∅ false) as (_ & _ & H3).
  destruct H3 as (_ & E & H); [lia|].
  split.
  - unfold DisabledLines.init. rewrite E. reflexivity.
  - apply H. lia.
Defined.

(** C10, as stated, does not hold: a [start_line] of 0 is supplied and is
    below the file end, 10, yet no interval is synthesized: the lines 1 to
    10 stay enabled. *)
Lemma start_line_zero_synthesizes_nothing :
  0 < 10
  /\ exists r,
       DisabledLines.parse_global_disablers
         (DisabledLines.init (Some 0) None (Some 10)) = Some r
       /\ DisabledLines.lines r = []
       /\ ~ In (0 + 1, 10) (DisabledLines.lines r)
       /\ DisabledLines.is_node_disabled (Some (mkLoc 5 5)) true r = false.
Proof.
  split; [lia|]. eexists. split; [reflexivity|]. simpl.
  split; [done|]. split; [tauto | done].
Qed.

(** C6: with the window 5..10 on a document of 20 lines the wildcard gets
    the intervals (1,4) and (11,20) before the first section is visited;
    after the pass every line of 1..4 and 11..20 is disabled for every
    target, and the synthesized intervals leave the lines 5..10 alone.  A
    bound that would be empty is left out. *)
Theorem window_5_10_of_20 (f : File) :
  file_end_lineno f = 20 -> wf_sections f = true ->
  exists d0 d,
    DisablersInFile.parse_global_disablers
      (DisablersInFile.init (Some 5) (Some 10) (Some (file_end_lineno f)))
    = Some d0
    /\ lines_of ALL_TRANSFORMERS d0 = [(1, 4); (11, 20)]
    /\ register_disablers (Some 5) (Some 10) f
       = (self ← RegisterDisablers.visit_sections 0 (sections f)
                   (RegisterDisablers.mk (Some 5) (Some 10) d0 [] false);
          Some (DisablersInFile.sort_disablers
                  (RegisterDisablers.disablers self)))
    /\ register_disablers (Some 5) (Some 10) f = Some d
    /\ (forall l name full,
          1 <= l <= 4 \/ 11 <= l <= 20 ->
          DisablersInFile.is_node_disabled name (Some (mkLoc l l)) full d
          = true)
    /\ (forall l name full,
          5 <= l <= 10 ->
          DisablersInFile.is_node_disabled name (Some (mkLoc l l)) full d0
          = false)
    /\ lines_of ALL_TRANSFORMERS
         <$> DisablersInFile.parse_global_disablers
               (DisablersInFile.init (Some 1) (Some 10) (Some 20))
       = Some [(11, 20)]
    /\ lines_of ALL_TRANSFORMERS
         <$> DisablersInFile.parse_global_disablers
               (DisablersInFile.init (Some 5) (Some 20) (Some 20))
       = Some [(1, 4)].
Proof.
  intros Hfe Hwf.
  destruct (register_disablers_goes_through (Some 5) (Some 10) f Hwf)
    as (d0 & d1 & E0 & G & E).
  destruct (parse_global_disablers_init (Some 5) (Some 10) (file_end_lineno f))
    as (d0' & E0' & L0 & P0 & N0).
  assert (d0' = d0) as -> by congruence.
  rewrite Hfe in L0. change (global_intervals _ _ _) with [(1, 4); (11, 20)] in L0.
  exists d0, (DisablersInFile.sort_disablers d1).
  split; [done|]. split; [done|]. split.
  { rewrite register_disablers_unfold, E0. done. }
  split; [done|]. split; [|split; [|by vm_compute]].
  - intros l name full Hl.
    destruct Hl as [Hl|Hl];
      [apply (wildcard_interval_disables name _ full d1 (1, 4))
      |apply (wildcard_interval_disables name _ full d1 (11, 20))];
      try (apply (registry_grows_lines d0 d1); [done|]; rewrite L0; simpl; tauto);
      unfold covers; simpl; lia.
  - intros l name full Hl. rewrite is_node_disabled_either.
    assert (forall n, DisabledLines.is_node_disabled (Some (mkLoc l l)) full
                        (DisablersInFile.at_ n d0) = false) as Hq.
    { intros n. destruct (decide (n = ALL_TRANSFORMERS)) as [->|Hn].
      - unfold DisabledLines.is_node_disabled.
        fold (lines_of ALL_TRANSFORMERS d0). rewrite L0. simpl.
        destruct full; simpl;
          repeat match goal with
                 | |- context [if ?c then _ else _] => destruct c eqn:?
                 end; try done; lia.
      - unfold DisabledLines.is_node_disabled.
        fold (lines_of n d0). by rewrite N0. }
    by rewrite !Hq.
Qed.

Lemma window_5_10_of_20_witness :
  exists d,
    register_disablers (Some 5) (Some 10)
      (mkFile (sections (Samples.loop_off 8)) 20) = Some d
    /\ DisablersInFile.is_node_disabled ALL_TRANSFORMERS (Some (mkLoc 12 12))
         true d = true.
Proof.
  destruct (window_5_10_of_20 (mkFile (sections (Samples.loop_off 8)) 20)
              eq_refl eq_refl)
    as (d0 & d & _ & _ & _ & E & H & _).
  exists d. split; [exact E|]. apply H. lia.
Defined.

(** ** Frames and the loop of a [Comment] statement *)

Section Frames.

Import RegisterDisablers.

Lemma frame_get_set_eq k v (f : Frame) : frame_get k (frame_set k v f) = Some v.
Proof.
  induction f as [|[k' v'] f IH]; simpl.
  - by rewrite String.eqb_refl.
  - destruct (String.eqb_spec k k'); simpl.
    + by rewrite String.eqb_refl.
    + by destruct (String.eqb_spec k k').
Qed.

Lemma frame_get_set_ne k k' v (f : Frame) :
  k <> k' -> frame_get k' (frame_set k v f) = frame_get k' f.
Proof.
  intros Hne. induction f as [|[k0 v0] f IH]; simpl.
  - by destruct (String.eqb_spec k' k).
  - destruct (String.eqb_spec k k0) as [->|]; simpl.
    + by destruct (String.eqb_spec k' k0).
    + by destruct (String.eqb_spec k' k0).
Qed.

Lemma frame_get_In k v (f : Frame) : frame_get k f = Some v -> In (k, v) f.
Proof.
  induction f as [|[k' v'] f IH]; simpl; [done|].
  destruct (String.eqb_spec k k') as [->|].
  - intros [= ->]. by left.
  - intros H. right. auto.
Qed.

Lemma frame_closed_false k (f : Frame) :
  frame_closed k f = false <-> exists v, frame_get k f = Some v /\ v <> 0.
Proof.
  unfold frame_closed, Py.truthy_int. destruct (frame_get k f) as [v|]; simpl.
  - destruct (Z.eqb_spec v 0); simpl; split; try done.
    + intros (v' & [= <-] & H). done.
    + intros _. eauto.
  - split; [done | intros (? & ? & _); done].
Qed.

Lemma frame_after_other ds line tr t (f : Frame) :
  t <> tr -> frame_get t (frame_after ds line tr f) = frame_get t f.
Proof.
  intros Hne. unfold frame_after.
  destruct (frame_closed tr f), ds; try done;
    by rewrite frame_get_set_ne.
Qed.

Lemma frame_after_open line tr t (f : Frame) :
  frame_closed t f = false ->
  frame_get t (frame_after false line tr f) = frame_get t f.
Proof.
  intros Hopen. destruct (decide (t = tr)) as [->|Hne].
  - unfold frame_after. by rewrite Hopen.
  - by apply frame_after_other.
Qed.

(** A pending start survives a Disable, and an Enable that does not name
    the target. *)
Lemma frame_after_all_kept ds line ts t (f : Frame) :
  (ds = true /\ ~ In t ts) \/ (ds = false /\ frame_closed t f = false) ->
  frame_get t (frame_after_all ds line ts f) = frame_get t f.
Proof.
  unfold frame_after_all. revert f. induction ts as [|tr ts IH]; intros f H; [done|].
  simpl. destruct H as [[-> Hn]|[-> Hopen]].
  - rewrite IH.
    + apply frame_after_other. intros ->. apply Hn. by left.
    + left. split; [done|]. intros Hin. apply Hn. by right.
  - rewrite IH.
    + by apply frame_after_open.
    + right. split; [done|]. unfold frame_closed in *.
      by rewrite frame_after_open.
Qed.

(** A Disable naming the target leaves it pending: at the start it already
    had, or at the line of the comment. *)
Lemma frame_after_all_opened line ts t (f : Frame) :
  In t ts -> line <> 0 ->
  exists v,
    frame_get t (frame_after_all false line ts f) = Some v /\ v <> 0
    /\ (frame_closed t f = true -> v = line)
    /\ (frame_closed t f = false -> frame_get t f = Some v).
Proof.
  intros Hin Hline. destruct (frame_closed t f) eqn:Hc.
  - exists line. split; [|by repeat split].
    revert f Hc. induction ts as [|tr ts IH]; intros f Hc; [destruct Hin|].
    change (frame_after_all false line (tr :: ts) f)
      with (frame_after_all false line ts (frame_after false line tr f)).
    destruct (decide (tr = t)) as [->|Hne].
    + assert (frame_get t (frame_after false line t f) = Some line) as Hf.
      { unfold frame_after. rewrite Hc. apply frame_get_set_eq. }
      rewrite frame_after_all_kept, Hf; [done|].
      right. split; [done|]. apply frame_closed_false. eauto.
    + destruct Hin as [->|Hin]; [done|].
      apply (IH Hin). unfold frame_closed in *.
      by rewrite frame_after_other.
  - apply frame_closed_false in Hc as Hv. destruct Hv as (v & Hv & Hnz).
    exists v. rewrite frame_after_all_kept by auto. by repeat split.
Qed.

Lemma stack_get_set i f (stack : list Frame) :
  stack <> [] -> stack_get i (stack_set i f stack) = Some f.
Proof.
  intros Hne. destruct (stack_snoc _ Hne) as (init & top & ->). destruct i.
  - by destruct init.
  - rewrite stack_set_last. apply stack_get_last.
Qed.

Lemma stack_set_set i f f' (stack : list Frame) :
  stack_set i f (stack_set i f' stack) = stack_set i f stack.
Proof.
  destruct stack as [|top init] using rev_ind; [by destruct i|]. destruct i.
  - by destruct init.
  - by rewrite !stack_set_last.
Qed.

Lemma stack_set_get i f (stack : list Frame) :
  stack_get i stack = Some f -> stack_set i f stack = stack.
Proof.
  destruct stack as [|top init] using rev_ind; [by destruct i|]. destruct i.
  - destruct init; simpl; by intros [= ->].
  - rewrite stack_get_last, stack_set_last. by intros [= ->].
Qed.

Lemma stack_get_nonempty i f (stack : list Frame) :
  stack_get i stack = Some f -> stack <> [].
Proof. by destruct i, stack. Qed.

(** One round of the loop writes [frame_after] to the frame it indexes and
    may add to the registry. *)
Lemma comment_step_spec index ds line tr self frame :
  stack_get index (disablers_in_scope self) = Some frame ->
  exists self',
    comment_step index ds line tr self = Some self'
    /\ disablers_in_scope self'
       = stack_set index (frame_after ds line tr frame) (disablers_in_scope self)
    /\ visit_keeps self self'.
Proof.
  intros Hget. pose proof (stack_get_nonempty _ _ _ Hget) as Hne.
  destruct (comment_step_keeps index ds line tr self Hne) as (self' & E & K).
  exists self'. split; [done|]. split; [|done].
  unfold comment_step in E. rewrite Hget in E. simpl in E. unfold frame_after.
  destruct ds, (frame_closed tr frame); injection E as <-; simpl;
    by rewrite ?(stack_set_get _ _ _ Hget).
Qed.

Lemma comment_loop_spec index ds line ts self frame :
  stack_get index (disablers_in_scope self) = Some frame ->
  exists self',
    for_each (comment_step index ds line) ts self = Some self'
    /\ disablers_in_scope self'
       = stack_set index (frame_after_all ds line ts frame)
           (disablers_in_scope self)
    /\ visit_keeps self self'.
Proof.
  revert self frame. induction ts as [|tr ts IH]; intros self frame Hget.
  - exists self. split; [done|]. split; [|apply visit_keeps_refl].
    simpl. by rewrite stack_set_get.
  - destruct (comment_step_spec index ds line tr self frame Hget)
      as (s1 & E1 & S1 & K1).
    destruct (IH s1 (frame_after ds line tr frame)) as (s2 & E2 & S2 & K2).
    { rewrite S1. apply stack_get_set. by eapply stack_get_nonempty. }
    exists s2. simpl. unfold seq. rewrite E1. simpl. split; [done|].
    split; [|by eapply visit_keeps_trans].
    rewrite S2, S1. apply stack_set_set.
Qed.

End Frames.

(** ** A pending Disable and the frame that holds it *)

Section Pending.

Import RegisterDisablers.

Lemma for_each_app {A} (body : A -> M) xs ys self :
  for_each body (xs ++ ys) self = for_each body xs self ≫= for_each body ys.
Proof.
  revert self. induction xs as [|x xs IH]; intros self; simpl; [done|].
  unfold seq. destruct (body x self) as [s1|]; simpl; [apply IH | done].
Qed.

(** A statement that is no [Comment] leaves the stack alone. *)
Lemma visit_statement_stack s self :
  sclass s <> Comment ->
  exists self',
    visit_statement s self = Some self' /\ visit_keeps self self'
    /\ disablers_in_scope self' = disablers_in_scope self.
Proof.
  intros Hc. unfold visit_statement, visit_Statement, visit_SectionHeader.
  destruct (sclass s); [done | apply header_comments_keeps |].
  apply (for_each_keeps (inline_step (sloc s))
           (fun x => disablers_in_scope x = disablers_in_scope self)); [|done].
  intros c x _ Hx. destruct (inline_step_keeps (sloc s) c x) as (s' & E & K & S).
  exists s'. split; [done|]. split; [done | congruence].
Qed.

(** What a [Comment] statement with a directive does. *)
Lemma visit_comment_unfold s comment m :
  sclass s = Comment -> get_token COMMENT s = Some comment ->
  get_disabler (value comment) = Some m ->
  visit_statement s
  = for_each
      (comment_step (if is_line_start s then First else Last)
         (String.eqb (group_disabler m) "on") (lineno (sloc s)))
      (get_disabler_transformers m).
Proof.
  intros Hc Ht Hm. unfold visit_statement, visit_Statement.
  by rewrite Hc, Ht, Hm.
Qed.

(** The frame a [Comment] statement writes to, seen from the last frame. *)
Lemma comment_loop_last index ds line ts self init frame :
  disablers_in_scope self = init ++ [frame] ->
  exists self' frame' init',
    for_each (comment_step index ds line) ts self = Some self'
    /\ visit_keeps self self'
    /\ disablers_in_scope self' = init' ++ [frame']
    /\ length init' = length init
    /\ (index = Last \/ init = [] ->
        init' = init /\ frame' = frame_after_all ds line ts frame)
    /\ (index = First -> init <> [] -> frame' = frame).
Proof.
  intros Hs.
  assert (exists f0, stack_get index (disablers_in_scope self) = Some f0)
    as (f0 & Hget).
  { rewrite Hs. destruct index; [|rewrite stack_get_last; eauto].
    destruct init; simpl; eauto. }
  destruct (comment_loop_spec index ds line ts self f0 Hget) as (s' & E & S & K).
  rewrite Hs in S, Hget. destruct index.
  - destruct init as [|b mid]; simpl in *.
    + injection Hget as <-. exists s', (frame_after_all ds line ts frame), [].
      do 4 (split; [done|]). split; [done|]. by intros _ H.
    + injection Hget as <-.
      exists s', frame, (frame_after_all ds line ts b :: mid).
      do 4 (split; [done|]). split; [|done]. by intros [|].
  - rewrite stack_set_last in S. rewrite stack_get_last in Hget.
    injection Hget as <-.
    exists s', (frame_after_all ds line ts frame), init.
    do 4 (split; [done|]). by split.
Qed.

(** A statement that is not an Enable of the target keeps its pending
    start in the last frame. *)
Lemma statement_keeps_open t v s self :
  wf_statement s = true -> enables t (NStatement s) = false ->
  open_at_last t v (disablers_in_scope self) ->
  exists self',
    visit_statement s self = Some self' /\ visit_keeps self self'
    /\ open_at_last t v (disablers_in_scope self').
Proof.
  intros Hwf Hen Hopen. destruct (decide (sclass s = Comment)) as [Hc|Hc].
  - unfold wf_statement in Hwf. rewrite Hc in Hwf.
    apply bool_decide_eq_true in Hwf as [comment Ht].
    simpl in Hen. rewrite Hc, Ht in Hen.
    destruct (get_disabler (value comment)) as [m|] eqn:Hm.
    + rewrite (visit_comment_unfold s comment m Hc Ht Hm).
      destruct Hopen as (init & frame & Hs & Hg & Hv).
      destruct (comment_loop_last (if is_line_start s then First else Last)
                  (String.eqb (group_disabler m) "on") (lineno (sloc s))
                  (get_disabler_transformers m) self init frame Hs)
        as (s' & frame' & init' & E & K & S' & Hl & Hlast & Hfirst).
      exists s'. split; [done|]. split; [done|].
      exists init', frame'. split; [done|]. split; [|done].
      assert (frame_get t
                (frame_after_all (String.eqb (group_disabler m) "on")
                   (lineno (sloc s)) (get_disabler_transformers m) frame)
              = Some v) as Hkept.
      { rewrite frame_after_all_kept; [done|].
        destruct (String.eqb (group_disabler m) "on"); simpl in Hen.
        - left. split; [done|]. apply bool_decide_eq_false in Hen.
          intros Hin. apply Hen. by apply list_elem_of_In.
        - right. split; [done|]. apply frame_closed_false. eauto. }
      destruct (is_line_start s).
      * destruct init as [|b mid].
        -- destruct Hlast as [_ ->]; [by right | done].
        -- rewrite Hfirst; done.
      * destruct Hlast as [_ ->]; [by left | done].
    + unfold visit_statement, visit_Statement. rewrite Hc, Ht, Hm.
      exists self. split; [done|]. split; [apply visit_keeps_refl | done].
  - destruct (visit_statement_stack s self Hc) as (s' & E & K & S).
    exists s'. split; [done|]. split; [done|]. by rewrite S.
Qed.

(** A block below another scope keeps the last frame as it is. *)
Lemma block_keeps_open t v n self :
  wf_node n = true -> is_statement n = false ->
  (2 <= length (disablers_in_scope self))%nat ->
  open_at_last t v (disablers_in_scope self) ->
  exists self',
    visit n self = Some self' /\ visit_keeps self self'
    /\ open_at_last t v (disablers_in_scope self').
Proof.
  intros Hwf Hb Hlen (init & frame & Hs & Hg & Hv).
  destruct (visit_goes_through_wf n Hwf self) as (s' & E & K & T).
  { by rewrite Hb. }
  exists s'. split; [done|]. split; [done|].
  specialize (T Hb). destruct K as (_ & _ & _ & Kl & _).
  rewrite Hs in T, Kl, Hlen. rewrite length_app in Hlen. simpl in Hlen.
  destruct init as [|b mid]; [simpl in Hlen; lia|].
  destruct (disablers_in_scope s') as [|b' rest]; [discriminate|].
  simpl in T. subst rest.
  exists (b' :: mid), frame. by split.
Qed.

(** The statements and blocks after a Disable keep it pending as long as
    none of them is an Enable of the target in that frame. *)
Lemma body_keeps_open t v nodes self :
  forallb wf_node nodes = true ->
  forallb (fun n => negb (enables t n)) nodes = true ->
  (2 <= length (disablers_in_scope self))%nat
    \/ forallb is_statement nodes = true ->
  open_at_last t v (disablers_in_scope self) ->
  exists self',
    for_each visit nodes self = Some self' /\ visit_keeps self self'
    /\ open_at_last t v (disablers_in_scope self').
Proof.
  intros Hwf Hen Hdepth Hopen.
  destruct (for_each_keeps visit
              (fun s => open_at_last t v (disablers_in_scope s)
                        /\ length (disablers_in_scope s)
                           = length (disablers_in_scope self)) nodes)
    with (self := self) as (s' & E & K & I & _); [|done|by exists s'].
  intros n s Hn [Ho Hl].
  rewrite forallb_forall in Hwf, Hen.
  specialize (Hwf n Hn). specialize (Hen n Hn).
  apply negb_true_iff in Hen.
  assert (exists s', visit n s = Some s' /\ visit_keeps s s'
                     /\ open_at_last t v (disablers_in_scope s'))
    as (s' & E & K & O).
  { destruct n as [st| | |] eqn:En.
    - by apply statement_keeps_open.
    - apply block_keeps_open; try done. rewrite Hl.
      destruct Hdepth as [|Hst]; [done|].
      rewrite forallb_forall in Hst. by specialize (Hst _ Hn).
    - apply block_keeps_open; try done. rewrite Hl.
      destruct Hdepth as [|Hst]; [done|].
      rewrite forallb_forall in Hst. by specialize (Hst _ Hn).
    - apply block_keeps_open; try done. rewrite Hl.
      destruct Hdepth as [|Hst]; [done|].
      rewrite forallb_forall in Hst. by specialize (Hst _ Hn). }
  exists s'. split; [done|]. split; [done|]. split; [done|].
  destruct K as (_ & _ & _ & Kl & _). congruence.
Qed.

(** A Disable naming the target leaves it pending in the last frame. *)
Lemma disable_opens t s comment m self init frame :
  sclass s = Comment -> get_token COMMENT s = Some comment ->
  get_disabler (value comment) = Some m ->
  String.eqb (group_disabler m) "on" = false ->
  In t (get_disabler_transformers m) -> lineno (sloc s) <> 0 ->
  disablers_in_scope self = init ++ [frame] ->
  is_line_start s = false \/ init = [] ->
  exists self' v,
    visit_statement s self = Some self' /\ visit_keeps self self'
    /\ open_at_last t v (disablers_in_scope self')
    /\ (frame_closed t frame = true -> v = lineno (sloc s)).
Proof.
  intros Hc Ht Hm Hoff Hin Hline Hs Hidx.
  rewrite (visit_comment_unfold s comment m Hc Ht Hm), Hoff.
  destruct (comment_loop_last (if is_line_start s then First else Last)
              false (lineno (sloc s)) (get_disabler_transformers m)
              self init frame Hs)
    as (s' & frame' & init' & E & K & S' & Hl & Hlast & _).
  destruct Hlast as [-> ->].
  { destruct Hidx as [-> | ->]; [by left | by right]. }
  destruct (frame_after_all_opened (lineno (sloc s))
              (get_disabler_transformers m) t frame Hin Hline)
    as (v & Hv & Hnz & Hclosed & _).
  exists s', v. split; [done|]. split; [done|]. split; [|done].
  by exists init,
    (frame_after_all false (lineno (sloc s)) (get_disabler_transformers m) frame).
Qed.

(** Closing a frame registers every pending start of it up to the closing
    line, file-wide if the visitor is in the leading comment section. *)
Lemma close_loop_registers line t v entries self :
  In (t, v) entries -> v <> 0 ->
  exists self',
    for_each (close_one line) entries self = Some self'
    /\ visit_keeps self self'
    /\ disablers_in_scope self' = disablers_in_scope self
    /\ In (v, line) (lines_of t (disablers self'))
    /\ (file_level_disablers self = true ->
        DisabledLines.disabled_whole
          (DisablersInFile.at_ t (disablers self')) = true
        /\ DisablersInFile.disablers (disablers self') !! t <> None).
Proof.
  revert self. induction entries as [|[k x] entries IH]; intros self Hin Hv;
    [destruct Hin|].
  simpl. unfold seq.
  destruct (close_one_keeps line (k, x) self) as (s1 & E1 & K1 & S1).
  rewrite E1. simpl.
  destruct Hin as [[= -> ->]|Hin].
  - destruct (for_each_keeps (close_one line)
                (fun s => disablers_in_scope s = disablers_in_scope s1) entries)
      with (self := s1) as (s2 & E2 & K2 & S2); [|done|].
    { intros e s _ Hs. destruct (close_one_keeps line e s) as (s' & E & K & S).
      exists s'. split; [done|]. split; [done | congruence]. }
    exists s2. split; [done|]. split; [by eapply visit_keeps_trans|].
    split; [congruence|].
    unfold close_one in E1. destruct (Z.eqb_spec v 0); [done|].
    injection E1 as <-. simpl in K2.
    destruct (add_disabler_lookup t v line (file_level_disablers self)
                (disablers self)) as (dt & Hdt & Hlines & Hwhole).
    destruct K2 as (_ & _ & _ & _ & _ & G2). simpl in G2. split.
    + apply (registry_grows_lines _ _ _ _ G2).
      rewrite (lines_of_present _ _ _ Hdt), Hlines. apply in_or_app. right.
      by left.
    + intros Hfl. destruct G2 as (_ & _ & _ & G2).
      destruct (G2 _ _ Hdt) as (db & Hdb & _ & Hw).
      unfold DisablersInFile.at_. rewrite Hdb. simpl. split; [auto|done].
  - destruct (IH s1 Hin Hv) as (s2 & E2 & K2 & S2 & L2 & W2).
    exists s2. split; [done|]. split; [by eapply visit_keeps_trans|].
    split; [congruence|]. split; [done|].
    destruct K1 as (_ & _ & K1 & _). rewrite K1 in W2. done.
Qed.

Lemma close_registers line t v self init frame :
  disablers_in_scope self = init ++ [frame] ->
  frame_get t frame = Some v -> v <> 0 ->
  exists self',
    close_disabler line self = Some self'
    /\ disablers_in_scope self' = init
    /\ start_line self' = start_line self /\ end_line self' = end_line self
    /\ file_level_disablers self' = file_level_disablers self
    /\ registry_grows (disablers self) (disablers self')
    /\ In (v, line) (lines_of t (disablers self'))
    /\ (file_level_disablers self = true ->
        DisabledLines.disabled_whole
          (DisablersInFile.at_ t (disablers self')) = true
        /\ DisablersInFile.disablers (disablers self') !! t <> None).
Proof.
  intros Hs Hg Hv.
  destruct (close_disabler_spec line self init frame Hs)
    as (s' & E & S & A & B & C & G).
  exists s'. do 6 (split; [done|]).
  unfold close_disabler in E. rewrite Hs, last_snoc in E. simpl in E.
  destruct (close_loop_registers line t v frame
              (with_scope (removelast (init ++ [frame])) self))
    as (s2 & E2 & _ & _ & L2 & W2); [by apply frame_get_In | done |].
  rewrite E in E2. injection E2 as <-. by split.
Qed.

End Pending.

(** ** A scope whose body holds an unmatched Disable *)

Section ScopeWithDisable.

Import RegisterDisablers.

Lemma runs_body_wf body :
  forallb wf_node body = true -> runs_in_scope (for_each visit body).
Proof.
  intros Hwf. apply runs_body; [|done].
  apply List.Forall_forall. intros n _. apply goes_through_all.
Qed.

Lemma visit_field_keeps_open t v field self :
  wf_field field = true ->
  on_option (fun e => enables t (NStatement e) = false) field ->
  open_at_last t v (disablers_in_scope self) ->
  exists self',
    visit_field field self = Some self' /\ visit_keeps self self'
    /\ open_at_last t v (disablers_in_scope self').
Proof.
  destruct field as [e|]; simpl.
  - apply statement_keeps_open.
  - intros _ _ Ho. exists self. split; [done|].
    split; [apply visit_keeps_refl | done].
Qed.

Lemma visit_field_stack field self :
  on_option (fun h => sclass h <> Comment) field ->
  exists self',
    visit_field field self = Some self' /\ visit_keeps self self'
    /\ disablers_in_scope self' = disablers_in_scope self.
Proof.
  destruct field as [h|]; simpl.
  - apply visit_statement_stack.
  - intros _. exists self. split; [done|]. split; [apply visit_keeps_refl | done].
Qed.

(** The scope is pushed, its header and the nodes before the Disable are
    visited, the Disable opens the target in the scope's frame, nothing
    after it enables the target there, and the close registers the
    interval up to the closing line. *)
Lemma scope_with_disable header pre c post end_ line t comment m self :
  wf_field header = true -> forallb wf_node pre = true ->
  forallb wf_node post = true -> wf_field end_ = true ->
  sclass c = Comment -> get_token COMMENT c = Some comment ->
  get_disabler (value comment) = Some m ->
  String.eqb (group_disabler m) "on" = false ->
  In t (get_disabler_transformers m) -> lineno (sloc c) <> 0 ->
  forallb (fun n => negb (enables t n)) post = true ->
  on_option (fun e => enables t (NStatement e) = false) end_ ->
  is_line_start c = false \/ disablers_in_scope self = [] ->
  disablers_in_scope self <> [] \/ forallb is_statement post = true ->
  exists self' v,
    seq push_scope
      (seq (seq (visit_field header)
              (seq (for_each visit (pre ++ NStatement c :: post))
                 (visit_field end_)))
         (close_disabler line)) self = Some self'
    /\ visit_keeps self self'
    /\ tail (disablers_in_scope self') = tail (disablers_in_scope self)
    /\ v <> 0
    /\ In (v, line) (lines_of t (disablers self'))
    /\ (file_level_disablers self = true ->
        DisabledLines.disabled_whole
          (DisablersInFile.at_ t (disablers self')) = true
        /\ DisablersInFile.disablers (disablers self') !! t <> None)
    /\ (pre = [] -> on_option (fun h => sclass h <> Comment) header ->
        v = lineno (sloc c)).
Proof.
  intros Hwh Hwpre Hwpost Hwe Hc Ht Hm Hoff Hin Hline Hen Hene Hidx Hdepth.
  set (stk := disablers_in_scope self) in *.
  set (self1 := with_scope (stk ++ [[(ALL_TRANSFORMERS, 0)]]) self).
  assert (disablers_in_scope self1 <> []) as Hne1.
  { simpl. by destruct stk. }
  (* the header *)
  destruct (visit_field_keeps header self1 Hwh Hne1) as (s2 & E2 & K2).
  pose proof (visit_keeps_nonempty _ _ K2 Hne1) as Hne2.
  (* the nodes before the Disable *)
  destruct (runs_body_wf pre Hwpre s2 Hne2) as (s3 & E3 & K3).
  pose proof (visit_keeps_trans _ _ _ K2 K3) as K13.
  destruct K13 as (_ & _ & F13 & L13 & M13 & _).
  destruct (same_shape_snoc _ _ _ L13 M13) as (init3 & fr3 & S3 & Hl3 & _).
  (* the Disable *)
  destruct (disable_opens t c comment m s3 init3 fr3 Hc Ht Hm Hoff Hin Hline S3)
    as (s4 & v & E4 & K4 & O4 & V4).
  { destruct Hidx as [|Hnil]; [by left | right].
    rewrite Hnil in Hl3. by apply nil_length_inv. }
  (* the nodes after it *)
  destruct (body_keeps_open t v post s4 Hwpost Hen) as (s5 & E5 & K5 & O5);
    [|done|].
  { destruct Hdepth as [Hne|]; [left | by right].
    destruct K4 as (_ & _ & _ & L4 & _). rewrite L4, S3, length_app, Hl3.
    simpl. destruct stk; [done | simpl; lia]. }
  destruct (visit_field_keeps_open t v end_ s5 Hwe Hene O5) as (s6 & E6 & K6 & O6).
  (* the close *)
  destruct O6 as (init6 & fr6 & S6 & G6 & Hv).
  destruct (close_registers line t v s6 init6 fr6 S6 G6 Hv)
    as (s7 & E7 & S7 & _ & _ & _ & _ & L7 & W7).
  assert (seq push_scope
            (seq (seq (visit_field header)
                    (seq (for_each visit (pre ++ NStatement c :: post))
                       (visit_field end_)))
               (close_disabler line)) self = Some s7) as Erun.
  { unfold seq at 1. rewrite push_scope_spec. cbn [mbind option_bind].
    fold stk. fold self1. unfold seq. rewrite E2. cbn [mbind option_bind].
    rewrite for_each_app, E3. cbn [mbind option_bind].
    change (for_each visit (NStatement c :: post))
      with (seq (visit_statement c) (for_each visit post)).
    unfold seq. rewrite E4. cbn [mbind option_bind].
    rewrite E5. cbn [mbind option_bind]. rewrite E6. exact E7. }
  destruct (scoped_goes_through
              (seq (visit_field header)
                 (seq (for_each visit (pre ++ NStatement c :: post))
                    (visit_field end_))) line) with (self := self)
    as (s' & E' & K' & T'); [|done|].
  { apply runs_seq; [by apply runs_field|].
    apply runs_seq; [|by apply runs_field].
    apply runs_body_wf. rewrite forallb_app. simpl.
    rewrite Hwpre, Hwpost. unfold wf_statement. rewrite Hc, Ht. done. }
  assert (s' = s7) as -> by congruence.
  exists s7, v. split; [done|]. split; [done|]. split; [by apply T'|].
  split; [done|]. split; [done|]. split.
  - intros Hfl. apply W7.
    pose proof (visit_keeps_trans _ _ _ K4 (visit_keeps_trans _ _ _ K5 K6))
      as (_ & _ & F46 & _).
    rewrite F46, F13. done.
  - intros -> Hh. apply V4.
    destruct (visit_field_stack header self1 Hh) as (s2' & E2' & _ & S2').
    assert (s2' = s2) as -> by congruence.
    simpl in E3. injection E3 as <-.
    rewrite S2' in S3. simpl in S3.
    apply app_inj_tail in S3 as [_ <-].
    unfold frame_closed. simpl. by destruct (String.eqb t ALL_TRANSFORMERS).
Qed.

End ScopeWithDisable.

(** ** A Disable inside a nested block *)

Section NestedBlock.

Import RegisterDisablers.

(** [visit_If] is [visit_TestCase] with the alternative branch visited, in
    the same frame, after the body. *)
Lemma visit_if_as_block header body orelse end_ loc self :
  visit (NIf header body orelse end_ loc) self
  = visit (NBlock For header
             (body ++ match orelse with Some n => [n] | None => [] end)
             end_ loc) self.
Proof.
  simpl. unfold seq. destruct (push_scope self) as [s1|]; [|done]. simpl.
  destruct (visit_field header s1) as [s2|]; [|done]. simpl.
  rewrite for_each_app.
  destruct (for_each visit body s2) as [s3|]; [|done]. simpl.
  destruct orelse as [n|]; simpl; [|done].
  unfold seq. by destruct (visit n s3).
Qed.

End NestedBlock.

(** X25: visiting one block with a frame open, whatever the block holds
    besides: a [Comment] Disable among its children that does not start at
    column 0, with no Enable of the target after it among the children of
    the block, is registered with the end line of that block, and the stack
    is as deep afterwards as before, every frame but the first untouched.
    The start is the line of the comment when nothing precedes it in the
    block and the header of the block is no comment.  ([visit_If] behaves
    the same, its alternative branch counting as a last child.) *)
Theorem disable_in_block_closes_at_block_end
    k header pre c post end_ loc t comment m self :
  RegisterDisablers.disablers_in_scope self <> [] ->
  wf_field header = true -> forallb wf_node pre = true ->
  forallb wf_node post = true -> wf_field end_ = true ->
  sclass c = Comment -> is_line_start c = false ->
  get_token COMMENT c = Some comment ->
  get_disabler (value comment) = Some m -> group_disabler m = "off" ->
  In t (get_disabler_transformers m) -> lineno (sloc c) <> 0 ->
  forallb (fun n => negb (enables t n)) post = true ->
  on_option (fun e => enables t (NStatement e) = false) end_ ->
  exists self' v,
    RegisterDisablers.visit
      (NBlock k header (pre ++ NStatement c :: post) end_ loc) self
    = Some self'
    /\ v <> 0
    /\ In (v, end_lineno loc)
          (lines_of t (RegisterDisablers.disablers self'))
    /\ (pre = [] -> on_option (fun h => sclass h <> Comment) header ->
        v = lineno (sloc c))
    /\ length (RegisterDisablers.disablers_in_scope self')
       = length (RegisterDisablers.disablers_in_scope self)
    /\ tail (RegisterDisablers.disablers_in_scope self')
       = tail (RegisterDisablers.disablers_in_scope self)
    /\ (forall orelse,
          RegisterDisablers.visit
            (NIf header (pre ++ [NStatement c]) (Some orelse) end_ loc) self
          = RegisterDisablers.visit
              (NBlock k header (pre ++ NStatement c :: [orelse]) end_ loc)
              self).
Proof.
  intros Hne Hwh Hwpre Hwpost Hwe Hc Hls Ht Hm Hoff Hin Hline Hen Hene.
  destruct (scope_with_disable header pre c post end_ (end_lineno loc) t
              comment m self) as (s' & v & E & K & T & Hv & L & _ & V);
    try done.
  { by rewrite Hoff. }
  { by left. }
  { by left. }
  exists s', v. split; [exact E|]. split; [done|]. split; [done|].
  split; [done|]. destruct K as (_ & _ & _ & Kl & _).
  split; [done|]. split; [done|].
  intros orelse. rewrite visit_if_as_block. by rewrite <- app_assoc.
Qed.

Lemma disable_in_block_closes_at_block_end_witness :
  exists self' v,
    RegisterDisablers.visit
      (NBlock For (Some (Samples.word 3 "FOR"))
         ([] ++ NStatement (Samples.comment_line 8 "# robotidy: off" 4)
             :: [NStatement (Samples.kw 5)])
         (Some (Samples.word 6 "END")) (mkLoc 3 6))
      (RegisterDisablers.with_scope
         [[(ALL_TRANSFORMERS, 0)]; [(ALL_TRANSFORMERS, 0)]]
         (RegisterDisablers.init None None))
    = Some self'
    /\ v = 4
    /\ In (v, 6) (lines_of ALL_TRANSFORMERS (RegisterDisablers.disablers self')).
Proof.
  destruct (disable_in_block_closes_at_block_end For
              (Some (Samples.word 3 "FOR")) []
              (Samples.comment_line 8 "# robotidy: off" 4)
              [NStatement (Samples.kw 5)]
              (Some (Samples.word 6 "END")) (mkLoc 3 6) ALL_TRANSFORMERS
              (Samples.cmt 8 "# robotidy: off")
              (mkMatch "# robotidy: off" "off" "")
              (RegisterDisablers.with_scope
                 [[(ALL_TRANSFORMERS, 0)]; [(ALL_TRANSFORMERS, 0)]]
                 (RegisterDisablers.init None None)))
    as (self' & v & E & _ & L & V & _);
    try reflexivity; try discriminate.
  - simpl. by left.
  - exists self', v. split; [exact E|]. split; [|exact L].
    apply V; [reflexivity | simpl; discriminate].
Defined.


(** ** A Disable in the leading comment section *)

Section LeadingSection.

Import RegisterDisablers.

Lemma forallb_statements (p : Node -> bool) (l : list Statement) :
  forallb p (NStatement <$> l) = forallb (fun s => p (NStatement s)) l.
Proof.
  induction l as [|s l IH]; [done|].
  rewrite fmap_cons. cbn [forallb]. by rewrite IH.
Qed.

Lemma is_disabled_in_file_wildcard name d :
  DisabledLines.disabled_whole (DisablersInFile.at_ ALL_TRANSFORMERS d) = true ->
  DisablersInFile.is_disabled_in_file name d = true.
Proof. unfold DisablersInFile.is_disabled_in_file. by intros ->. Qed.

End LeadingSection.

(** C1, as the code has it: when the first section is a comment section
    holding a wildcard Disable with no Enable of the wildcard after it, the
    pass returns a registry in which [is_disabled_in_file] is true for
    every target, and the wildcard has an interval from the pending start
    (the line of the Disable when nothing precedes it) to the end line of
    that section; a node inside that interval is disabled for every
    target. *)
Theorem leading_comment_section_disables_file
    sl el header pre c post loc rest fe comment m :
  on_option (fun h => sclass h = SectionHeader) header ->
  forallb wf_statement pre = true -> forallb wf_statement post = true ->
  forallb (fun n => is_Section n && wf_node n) rest = true ->
  sclass c = Comment -> get_token COMMENT c = Some comment ->
  get_disabler (value comment) = Some m -> group_disabler m = "off" ->
  In ALL_TRANSFORMERS (get_disabler_transformers m) ->
  lineno (sloc c) <> 0 ->
  forallb (fun s => negb (enables ALL_TRANSFORMERS (NStatement s))) post
  = true ->
  exists d v,
    register_disablers sl el
      (mkFile
         (NBlock CommentSection header (NStatement <$> (pre ++ c :: post))
            None loc :: rest) fe) = Some d
    /\ (forall name, DisablersInFile.is_disabled_in_file name d = true)
    /\ v <> 0
    /\ In (v, end_lineno loc) (lines_of ALL_TRANSFORMERS d)
    /\ (pre = [] -> v = lineno (sloc c))
    /\ (forall name node,
          v <= lineno node ->
          Z.max (lineno node) (end_lineno node) <= end_lineno loc ->
          DisablersInFile.is_node_disabled name (Some node) true d = true).
Proof.
  intros Hh Hwpre Hwpost Hwrest Hc Ht Hm Hoff Hin Hline Hen.
  rewrite register_disablers_unfold. simpl.
  destruct (parse_global_disablers_init sl el fe) as (d0 & -> & _). simpl.
  unfold RegisterDisablers.seq at 1.
  change (RegisterDisablers.visit_Section ?n) with (RegisterDisablers.visit n).
  set (self0 := RegisterDisablers.with_file_level true
                  (RegisterDisablers.mk sl el d0 [] false)).
  destruct (scope_with_disable header (NStatement <$> pre) c
              (NStatement <$> post) None (end_lineno loc) ALL_TRANSFORMERS
              comment m self0)
    as (s1 & v & E1 & K1 & _ & Hv & L1 & W1 & V1); try done.
  { destruct header as [h|]; [|done]. simpl in *. unfold wf_statement.
    by rewrite Hh. }
  { by rewrite forallb_statements. }
  { by rewrite forallb_statements. }
  { by rewrite Hoff. }
  { by rewrite forallb_statements. }
  { by right. }
  { right. rewrite forallb_statements. by apply forallb_forall. }
  assert (RegisterDisablers.visit
            (NBlock CommentSection header (NStatement <$> (pre ++ c :: post))
               None loc) self0 = Some s1) as ->.
  { rewrite fmap_app, fmap_cons. exact E1. }
  simpl.
  destruct K1 as (_ & _ & _ & Kl & _). simpl in Kl. apply nil_length_inv in Kl.
  destruct (visit_sections_goes_through 1 rest s1 Hwrest Kl)
    as (s2 & -> & _ & G2).
  simpl. destruct (W1 eq_refl) as [Hw Hk].
  exists (DisablersInFile.sort_disablers (RegisterDisablers.disablers s2)), v.
  split; [done|]. split.
  { intros name. apply is_disabled_in_file_wildcard.
    rewrite whole_sort_disablers. by eapply registry_grows_whole. }
  split; [done|].
  pose proof (registry_grows_lines _ _ _ _ G2 L1) as L2.
  split.
  { rewrite lines_of_sort_disablers. by apply sorted_by_start_In. }
  split.
  { intros ->. apply V1; [done|].
    destruct header as [h|]; [|done]. simpl in *. by rewrite Hh. }
  intros name node H1 H2.
  by apply (wildcard_interval_disables name node true _ (v, end_lineno loc)).
Qed.

Lemma leading_comment_section_disables_file_witness :
  exists d,
    register_disablers None None Samples.leading_off = Some d
    /\ DisablersInFile.is_disabled_in_file "NormalizeSeparators" d = true
    /\ In (1, 2) (lines_of ALL_TRANSFORMERS d).
Proof.
  destruct (leading_comment_section_disables_file None None None []
              (Samples.comment_line 0 "# robotidy: off" 1)
              [Samples.comment_line 0 "# a note" 2] (mkLoc 1 2)
              [NBlock Section (Some (Samples.hdr 3))
                 [NBlock TestCase (Some (Samples.name 4))
                    [NStatement (Samples.kw 5)] None (mkLoc 4 5)]
                 None (mkLoc 3 5)]
              5 (Samples.cmt 0 "# robotidy: off")
              (mkMatch "# robotidy: off" "off" ""))
    as (d & v & E & F & _ & L & V & _);
    try reflexivity; try discriminate.
  - simpl. by left.
  - exists d. split; [exact E|]. split; [apply F|].
    rewrite (V eq_refl) in L. exact L.
Defined.

(** C1, as stated, does not hold: the node queries read the intervals
    only, and the interval of the leading Disable stops at the end of the
    comment section (line 2); the call on line 5 is not reported as
    disabled, for the wildcard or for a named target, although
    [is_disabled_in_file] is true. *)
Lemma node_after_leading_section_is_not_disabled :
  exists d,
    register_disablers None None Samples.leading_off = Some d
    /\ DisablersInFile.is_disabled_in_file ALL_TRANSFORMERS d = true
    /\ lines_of ALL_TRANSFORMERS d = [(1, 2)]
    /\ DisablersInFile.is_node_disabled ALL_TRANSFORMERS
         (Some (sloc (Samples.kw 5))) true d = false
    /\ DisablersInFile.is_node_disabled "NormalizeSeparators"
         (Some (sloc (Samples.kw 5))) false d = false.
Proof.
  eexists. split; [vm_compute; reflexivity|]. by vm_compute.
Qed.

(** ** Trailing comments of a statement *)

Section Inline.

Import RegisterDisablers.



Lemma inline_step_on loc comment m self :
  get_disabler (value comment) = Some m -> group_disabler m = "on" ->
  inline_step loc comment self = Some self.
Proof. intros Hm Hon. unfold inline_step. by rewrite Hm, Hon. Qed.

End Inline.

(** C9: a trailing Enable does nothing.  Its round of the loop returns the
    state as it is, so the statement is visited as if the comment were not
    there; a statement whose recognised trailing comments are all Enables
    leaves registry, frames and flags untouched; and [visit_SectionHeader]
    skips an Enable in the same way. *)
Theorem inline_enable_is_noop (s : Statement) comment m self :
  sclass s <> Comment ->
  get_disabler (value comment) = Some m -> group_disabler m = "on" ->
  RegisterDisablers.inline_step (sloc s) comment self = Some self
  /\ (forall pre post,
        get_tokens COMMENT s = pre ++ comment :: post ->
        RegisterDisablers.visit_Statement s self
        = RegisterDisablers.for_each (RegisterDisablers.inline_step (sloc s))
            (pre ++ post) self)
  /\ ((forall c' m',
         In c' (get_tokens COMMENT s) ->
         get_disabler (value c') = Some m' -> group_disabler m' = "on") ->
      RegisterDisablers.visit_Statement s self = Some self)
  /\ (forall line rest,
        RegisterDisablers.header_comments line (comment :: rest) self
        = RegisterDisablers.header_comments line rest self).
Proof.
  intros Hc Hm Hon.
  assert (forall x, RegisterDisablers.inline_step (sloc s) comment x = Some x)
    as Hstep by (intros; by eapply inline_step_on).
  assert (RegisterDisablers.visit_Statement s
          = RegisterDisablers.for_each (RegisterDisablers.inline_step (sloc s))
              (get_tokens COMMENT s)) as Ev.
  { unfold RegisterDisablers.visit_Statement. by destruct (sclass s). }
  split; [apply Hstep|]. split; [|split].
  - intros pre post Htok. rewrite Ev, Htok, !for_each_app.
    destruct (RegisterDisablers.for_each _ pre self) as [s1|]; [|done].
    simpl. unfold RegisterDisablers.seq. by rewrite Hstep.
  - intros Hall. rewrite Ev. clear Ev.
    induction (get_tokens COMMENT s) as [|c cs IH]; [done|].
    simpl. unfold RegisterDisablers.seq.
    assert (RegisterDisablers.inline_step (sloc s) c self = Some self) as ->.
    { unfold RegisterDisablers.inline_step.
      destruct (get_disabler (value c)) as [m'|] eqn:Hm'; [|done].
      by rewrite (Hall c m' (or_introl eq_refl) Hm'). }
    simpl. apply IH. intros c' m' Hin. apply Hall. by right.
  - intros line rest. simpl. by rewrite Hm, Hon.
Qed.

Lemma inline_enable_is_noop_witness :
  RegisterDisablers.visit_Statement (Samples.kwc 7 "# robotidy: on")
    (RegisterDisablers.with_scope
       [[(ALL_TRANSFORMERS, 3)]] (RegisterDisablers.init None None))
  = Some (RegisterDisablers.with_scope
            [[(ALL_TRANSFORMERS, 3)]] (RegisterDisablers.init None None)).
Proof.
  destruct (inline_enable_is_noop (Samples.kwc 7 "# robotidy: on")
              (Samples.cmt 10 "# robotidy: on")
              (mkMatch "# robotidy: on" "on" "")
              (RegisterDisablers.with_scope
                 [[(ALL_TRANSFORMERS, 3)]] (RegisterDisablers.init None None)))
    as (_ & _ & H & _); [discriminate | reflexivity | reflexivity |].
  apply H. intros c' m' [<-|[]]. by intros [= <-].
Defined.

(** ** The chain of a Try *)

(** Whatever the chain, a Disable left pending in the body of the first
    branch is registered up to the end line of the whole construct: the
    first frame of [visit_Try] is closed with [node.end_lineno]. *)
Lemma try_body_disable_reaches_construct_end
    header pre c post next end_ loc t comment m self :
  RegisterDisablers.disablers_in_scope self <> [] ->
  forallb wf_node pre = true -> forallb wf_node post = true ->
  on_option (fun t' => wf_try t' = true) next ->
  sclass c = Comment -> is_line_start c = false ->
  get_token COMMENT c = Some comment ->
  get_disabler (value comment) = Some m -> group_disabler m = "off" ->
  In t (get_disabler_transformers m) -> lineno (sloc c) <> 0 ->
  forallb (fun n => negb (enables t n)) post = true ->
  exists self' v,
    RegisterDisablers.visit
      (NTry (mkTry header (pre ++ NStatement c :: post) next end_ loc)) self
    = Some self'
    /\ v <> 0
    /\ In (v, end_lineno loc) (lines_of t (RegisterDisablers.disablers self')).
Proof.
  intros Hne Hwpre Hwpost Hwn Hc Hls Ht Hm Hoff Hin Hline Hen.
  destruct (scope_with_disable None pre c post None (end_lineno loc) t
              comment m self) as (s1 & v & E1 & _ & _ & Hv & L1 & _);
    try done.
  { by rewrite Hoff. }
  { by left. }
  { by left. }
  assert (forallb wf_node (pre ++ NStatement c :: post) = true) as Hwb.
  { rewrite forallb_app. simpl. rewrite Hwpre, Hwpost. unfold wf_statement.
    by rewrite Hc, Ht. }
  destruct (try_rest_goes_through (pre ++ NStatement c :: post) next
              (runs_body_wf _ Hwb)) with (self := s1)
    as (s2 & E2 & K2 & _); try done.
  { destruct next as [t'|]; [|done]. apply goes_through_all. }
  exists s2, v. split; [|split; [done|]].
  - simpl. unfold RegisterDisablers.seq in *. simpl in *.
    destruct (RegisterDisablers.for_each RegisterDisablers.visit
                (pre ++ NStatement c :: post) _) as [b|]; [|done].
    simpl in *. rewrite E1. simpl. exact E2.
  - destruct K2 as (_ & _ & _ & _ & _ & G2).
    by apply (registry_grows_lines _ _ _ _ G2).
Qed.

(** C3 on the sample chain TRY (3-5) / EXCEPT (6-7) / FINALLY (8-10) / END
    (11): the body of TRY is visited twice, once in a frame closed at the end
    of the whole construct and once in a frame closed before EXCEPT; the
    body of FINALLY, the last branch, is not visited, so its Disable of [X]
    is lost; and the call on line 7 in EXCEPT is disabled by the interval
    opened in TRY.  In any chain the body of the last branch does not
    matter to the visit. *)
Theorem try_chain_on_sample :
  (exists d,
     register_disablers None None Samples.try_document = Some d
     /\ lines_of ALL_TRANSFORMERS d = [(4, 11); (4, 5)]
     /\ lines_of "X" d = []
     /\ DisablersInFile.is_node_disabled ALL_TRANSFORMERS
          (Some (sloc (Samples.kw 7))) true d = true)
  /\ RegisterDisablers.visit (NTry Samples.try_finally)
     = RegisterDisablers.visit_Try Samples.try_finally
  /\ (forall header body end_ loc header' body' end' loc',
        RegisterDisablers.visit
          (NTry (mkTry header body
                   (Some (mkTry header' body' None end' loc')) end_ loc))
        = RegisterDisablers.visit
            (NTry (mkTry header body
                     (Some (mkTry header' [] None end' loc')) end_ loc))).
Proof.
  split; [|split; reflexivity].
  eexists. split; [vm_compute; reflexivity|].
  split; [by vm_compute|]. split; by vm_compute.
Qed.

(** ** The recogniser on directive texts *)

Section Recogniser.

Lemma append_cons x (a b : string) : String x a +:+ b = String x (a +:+ b).
Proof. reflexivity. Qed.

Lemma append_nil_l (a : string) : "" +:+ a = a.
Proof. reflexivity. Qed.

Lemma append_nil_r (a : string) : a +:+ "" = a.
Proof.
  induction a as [|x a IH]; [done|]. rewrite append_cons. by rewrite IH.
Qed.

Lemma all_chars_app p a b :
  all_chars p (a +:+ b) = all_chars p a && all_chars p b.
Proof.
  induction a as [|x a IH]; [done|]. rewrite append_cons. simpl.
  rewrite IH. by destruct (p x).
Qed.

Lemma all_chars_impl (p q : ascii -> bool) s :
  (forall c, p c = true -> q c = true) ->
  all_chars p s = true -> all_chars q s = true.
Proof.
  intros Hpq. induction s as [|c s IH]; simpl; [done|].
  intros [H1 H2]%andb_true_iff. by rewrite (Hpq c H1), IH.
Qed.

(** A greedy run takes a prefix of the class and stops where the text
    does not go on in the class. *)
Lemma span_app p a b :
  all_chars p a = true -> stops p b = true -> Py.span p (a +:+ b) = (a, b).
Proof.
  intros Ha Hb. induction a as [|x a IH].
  - rewrite append_nil_l. destruct b as [|c b]; simpl in *; [done|].
    by destruct (p c).
  - rewrite append_cons. simpl in *.
    apply andb_true_iff in Ha as [-> Ha]. by rewrite IH.
Qed.

Lemma span_all p s : all_chars p (Py.span p s).1 = true.
Proof.
  induction s as [|c s IH]; simpl; [done|].
  destruct (p c) eqn:E; [|done].
  destruct (Py.span p s) as [a b]. simpl in *. by rewrite E.
Qed.

Lemma opt_app p s b :
  at_most_one p s = true -> stops p b = true -> Py.opt p (s +:+ b) = (s, b).
Proof.
  intros Hs Hb. destruct s as [|c [|d s]]; try done.
  - rewrite append_nil_l. destruct b as [|c b]; simpl in *; [done|].
    by destruct (p c).
  - rewrite append_cons, append_nil_l. simpl in *. by rewrite Hs.
Qed.

Lemma opt_one p c b :
  p c = true -> Py.opt p (String c "" +:+ b) = (String c "", b).
Proof. intros H. rewrite append_cons, append_nil_l. simpl. by rewrite H. Qed.

Lemma literal_app lit r : Py.literal lit (lit +:+ r) = Some r.
Proof.
  induction lit as [|c lit IH]; [done|]. rewrite append_cons. simpl.
  by rewrite Ascii.eqb_refl.
Qed.

Lemma on_or_off_action a rest :
  is_action a = true -> on_or_off (a +:+ rest) = Some (a, rest).
Proof.
  unfold is_action. intros [H|H]%orb_true_iff; apply String.eqb_eq in H as ->.
  - done.
  - done.
Qed.

Lemma contains_app c a b :
  Py.contains c (a +:+ b) = Py.contains c a || Py.contains c b.
Proof.
  induction a as [|x a IH]; [done|]. rewrite append_cons. simpl.
  rewrite IH. by rewrite orb_assoc.
Qed.

Lemma contains_none c p s :
  p c = false -> all_chars p s = true -> Py.contains c s = false.
Proof.
  intros Hc. induction s as [|x s IH]; simpl; [done|].
  intros [H1 H2]%andb_true_iff. rewrite IH by done.
  destruct (Ascii.eqb_spec c x) as [->|]; [congruence | done].
Qed.

Lemma stops_action p a rest :
  is_action a = true -> p "o"%char = false -> stops p (a +:+ rest) = true.
Proof.
  unfold is_action. intros [H|H]%orb_true_iff Hp;
    apply String.eqb_eq in H as ->; simpl; by rewrite Hp.
Qed.

(** The match object of a directive text. *)
Lemma match_directive_text ws s1 s2 a rest :
  allowed_spacing ws s1 s2 = true -> is_action a = true ->
  disabler_pattern_match (directive_text ws s1 s2 a rest)
  = (let '(sp, r7) := Py.opt is_blank rest in
     let '(eq, r8) := Py.opt is_equals r7 in
     let '(tr, _) := Py.span is_target_char r8 in
     Some {| group0 := ws +:+ "#" +:+ s1 +:+ "robotidy:" +:+ s2 +:+ a
                          +:+ sp +:+ eq +:+ tr;
             group_disabler := a;
             group_transformers := tr |}).
Proof.
  unfold allowed_spacing.
  intros [[Hws H1]%andb_true_iff H2]%andb_true_iff Ha.
  unfold disabler_pattern_match, directive_text.
  rewrite (span_app Py.is_space ws _ Hws) by done.
  rewrite (literal_app "#"). cbn [mbind option_bind].
  rewrite (opt_app Py.is_space s1 _ H1) by done.
  rewrite (literal_app "robotidy:"). cbn [mbind option_bind].
  rewrite (opt_app Py.is_space s2 _ H2) by (by apply stops_action).
  rewrite (on_or_off_action a rest Ha). cbn [mbind option_bind].
  done.
Qed.

Lemma directive_text_truthy ws s1 s2 a rest :
  Py.truthy (directive_text ws s1 s2 a rest) = true.
Proof. unfold directive_text. by destruct ws. Qed.

(** The directive of a text of the shape the pattern accepts: the action
    word, and the targets that what follows it gives. *)
Lemma recognize_directive_text ws s1 s2 a rest :
  allowed_spacing ws s1 s2 = true -> is_action a = true ->
  recognize (directive_text ws s1 s2 a rest)
  = Some (a, targets_after_action rest).
Proof.
  intros Hsp Ha. unfold recognize, get_disabler.
  rewrite directive_text_truthy. simpl negb. cbv iota.
  rewrite (match_directive_text ws s1 s2 a rest Hsp Ha).
  unfold targets_after_action, get_disabler_transformers.
  destruct (Py.opt is_blank rest) as [sp r7] eqn:Esp.
  destruct (Py.opt is_equals r7) as [eq r8] eqn:Eeq.
  pose proof (span_all is_target_char r8) as Htr.
  destruct (Py.span is_target_char r8) as [tr r9]. simpl in Htr.
  cbn [mbind option_bind group0 group_disabler group_transformers].
  f_equal. f_equal.
  assert (Py.contains "=" (ws +:+ "#" +:+ s1 +:+ "robotidy:" +:+ s2 +:+ a
                             +:+ sp +:+ eq +:+ tr) = Py.truthy eq) as ->; [|done].
  unfold allowed_spacing in Hsp.
  apply andb_true_iff in Hsp as [[Hws H1]%andb_true_iff H2].
  rewrite !contains_app.
  rewrite (contains_none "=" Py.is_space ws) by done.
  assert (forall s, at_most_one Py.is_space s = true ->
                    Py.contains "=" s = false) as Hone.
  { intros [|c [|d s]] H; [done| |done]. cbn [Py.contains at_most_one] in *.
    destruct (Ascii.eqb_spec "=" c) as [<-|]; [|done]. by vm_compute in H. }
  rewrite (Hone s1 H1), (Hone s2 H2).
  rewrite (contains_none "=" is_target_char tr) by done.
  assert (Py.contains "=" a = false) as ->.
  { unfold is_action in Ha. apply orb_true_iff in Ha as [H|H];
      apply String.eqb_eq in H as ->; done. }
  assert (Py.contains "=" sp = false) as ->.
  { unfold Py.opt in Esp. destruct rest as [|c rest]; [by injection Esp as <- <-|].
    destruct (is_blank c) eqn:Ec; injection Esp as <- <-; [|done].
    unfold is_blank in Ec. apply Ascii.eqb_eq in Ec as ->. done. }
  unfold Py.opt in Eeq. destruct r7 as [|c r7]; [by injection Eeq as <- <-|].
  destruct (is_equals c) eqn:Ec; injection Eeq as <- <-; [|done].
  unfold is_equals in Ec. apply Ascii.eqb_eq in Ec as ->. done.
Qed.

End Recogniser.

(** ** The targets of a directive *)

Section Targets.

Lemma comma_is_no_name_char c : is_name_char c = true -> Py.is_comma c = false.
Proof.
  intros H. destruct (Py.is_comma c) eqn:E; [|done].
  unfold Py.is_comma in E. apply Ascii.eqb_eq in E as ->. by vm_compute in H.
Qed.

Lemma comma_is_no_space c : Py.is_space c = true -> Py.is_comma c = false.
Proof.
  intros H. destruct (Py.is_comma c) eqn:E; [|done].
  unfold Py.is_comma in E. apply Ascii.eqb_eq in E as ->. by vm_compute in H.
Qed.

Lemma space_is_target_char c : Py.is_space c = true -> is_target_char c = true.
Proof. unfold is_target_char. intros ->. by rewrite !orb_true_r. Qed.

Lemma name_char_is_target_char c :
  is_name_char c = true -> is_target_char c = true.
Proof.
  unfold is_name_char, is_target_char.
  intros [->| ->]%orb_true_iff; [done | by rewrite !orb_true_r].
Qed.

Lemma separator_char_is_target_char c :
  is_separator_char c = true -> is_target_char c = true.
Proof.
  unfold is_separator_char, is_target_char.
  intros [->| ->]%orb_true_iff; by rewrite ?orb_true_r.
Qed.

(** *** [split] *)

Lemma split_comma_one s :
  all_chars (fun c => negb (Py.is_comma c)) s = true -> Py.split_comma s = [s].
Proof.
  induction s as [|c s IH]; simpl; [done|].
  intros [Hc Hs]%andb_true_iff. apply negb_true_iff in Hc. rewrite Hc.
  by rewrite IH.
Qed.

Lemma split_comma_app s r :
  all_chars (fun c => negb (Py.is_comma c)) s = true ->
  Py.split_comma (s +:+ "," +:+ r) = s :: Py.split_comma r.
Proof.
  induction s as [|c s IH]; [done|]. rewrite append_cons. simpl.
  intros [Hc Hs]%andb_true_iff. apply negb_true_iff in Hc. rewrite Hc.
  by rewrite IH.
Qed.

Lemma split_comma_join l :
  l <> [] ->
  forallb (all_chars (fun c => negb (Py.is_comma c))) l = true ->
  Py.split_comma (join_comma l) = l.
Proof.
  induction l as [|x l IH]; [done|]. intros _ [Hx Hl]%andb_true_iff.
  destruct l as [|y l].
  - by apply split_comma_one.
  - change (join_comma (x :: y :: l)) with (x +:+ "," +:+ join_comma (y :: l)).
    rewrite split_comma_app by done. by rewrite IH.
Qed.

(** The pieces of a text of commas and whitespace are whitespace. *)
Lemma split_comma_separators s :
  all_chars is_separator_char s = true ->
  Forall (fun x => all_chars Py.is_space x = true) (Py.split_comma s).
Proof.
  induction s as [|c s IH]; simpl.
  - intros _. by constructor.
  - intros [Hc Hs]%andb_true_iff. specialize (IH Hs).
    destruct (Py.is_comma c) eqn:E; [by constructor|].
    unfold is_separator_char in Hc. rewrite E in Hc. simpl in Hc.
    destruct (Py.split_comma s) as [|h t]; [by repeat constructor; simpl; rewrite Hc|].
    inversion IH as [|? ? Hh Ht]; subst. constructor; [|done].
    simpl. by rewrite Hc.
Qed.

(** *** [strip] *)

Lemma lstrip_spaces l x :
  all_chars Py.is_space l = true -> Py.lstrip (l +:+ x) = Py.lstrip x.
Proof.
  unfold Py.lstrip. induction l as [|c l IH]; [done|]. rewrite append_cons.
  simpl. intros [-> Hl]%andb_true_iff. specialize (IH Hl).
  by destruct (Py.span Py.is_space (l +:+ x)).
Qed.

Lemma lstrip_solid x : starts_solid x = true -> Py.lstrip x = x.
Proof.
  unfold Py.lstrip. destruct x as [|c x]; [done|]. simpl.
  intros ->%negb_true_iff. done.
Qed.

Lemma rstrip_spaces r : all_chars Py.is_space r = true -> Py.rstrip r = "".
Proof.
  induction r as [|c r IH]; simpl; [done|].
  intros [-> Hr]%andb_true_iff. by rewrite IH.
Qed.

Lemma rstrip_app_spaces n r :
  all_chars Py.is_space r = true -> Py.rstrip (n +:+ r) = Py.rstrip n.
Proof.
  intros Hr. induction n as [|c n IH].
  - by apply rstrip_spaces.
  - rewrite append_cons. simpl. by rewrite IH.
Qed.

Lemma strip_spaces x : all_chars Py.is_space x = true -> Py.strip x = "".
Proof.
  intros Hx. unfold Py.strip.
  rewrite <- (append_nil_r x), lstrip_spaces by done. done.
Qed.

Lemma starts_solid_app n r : starts_solid n = true -> starts_solid (n +:+ r) = true.
Proof. by destruct n. Qed.

Lemma strip_entry e : is_entry e = true -> Py.strip (entry_text e) = entry_name e.
Proof.
  unfold is_entry, is_name, entry_text, Py.strip.
  intros [[Hl [[Hs Hr]%andb_true_iff Hn]%andb_true_iff]%andb_true_iff Hp]%andb_true_iff.
  rewrite lstrip_spaces by done.
  rewrite lstrip_solid by (by apply starts_solid_app).
  rewrite rstrip_app_spaces by done. by apply String.eqb_eq.
Qed.

Lemma entry_text_chars e :
  is_entry e = true ->
  all_chars is_target_char (entry_text e) = true
  /\ all_chars (fun c => negb (Py.is_comma c)) (entry_text e) = true
  /\ Py.truthy (entry_name e) = true.
Proof.
  unfold is_entry, is_name, entry_text.
  intros [[Hl [[Hs Hr]%andb_true_iff Hn]%andb_true_iff]%andb_true_iff Hp]%andb_true_iff.
  rewrite !all_chars_app. repeat split.
  - rewrite (all_chars_impl _ _ _ space_is_target_char Hl),
      (all_chars_impl _ _ _ name_char_is_target_char Hn),
      (all_chars_impl _ _ _ space_is_target_char Hp). done.
  - rewrite (all_chars_impl Py.is_space _ (pad_left e)), 
      (all_chars_impl is_name_char _ (entry_name e)),
      (all_chars_impl Py.is_space _ (pad_right e)); try done.
    + intros c H. by rewrite comma_is_no_space.
    + intros c H. by rewrite comma_is_no_name_char.
    + intros c H. by rewrite comma_is_no_space.
  - by destruct (entry_name e).
Qed.

Lemma join_comma_chars p l :
  p ","%char = true -> forallb (all_chars p) l = true ->
  all_chars p (join_comma l) = true.
Proof.
  intros Hp. induction l as [|x l IH]; [done|].
  intros [Hx Hl]%andb_true_iff. destruct l as [|y l]; [done|].
  change (join_comma (x :: y :: l)) with (x +:+ "," +:+ join_comma (y :: l)).
  rewrite !all_chars_app, Hx, IH by done. simpl. by rewrite Hp.
Qed.

(** *** What follows the action word *)

Lemma targets_without_equals rest :
  starts_with "=" rest = false -> starts_with " =" rest = false ->
  targets_after_action rest = [ALL_TRANSFORMERS].
Proof.
  unfold targets_after_action, starts_with. intros H1 H2.
  assert (forall r, match Py.literal "=" r with Some _ => true | None => false end
                    = false -> Py.opt is_equals r = ("", r)) as Hno.
  { intros [|c r]; [done|]. unfold Py.opt, is_equals. cbn [Py.literal].
    rewrite (Ascii.eqb_sym c). by destruct (Ascii.eqb "=" c). }
  destruct rest as [|c rest]; [done|]. unfold Py.opt at 1.
  destruct (is_blank c) eqn:Ec.
  - unfold is_blank in Ec. apply Ascii.eqb_eq in Ec as ->.
    cbn [Py.literal] in H2. rewrite Ascii.eqb_refl in H2.
    rewrite (Hno rest H2). destruct (Py.span is_target_char rest).
    by rewrite orb_true_r.
  - rewrite (Hno _ H1). destruct (Py.span is_target_char (String c rest)).
    by rewrite orb_true_r.
Qed.

Lemma targets_with_equals sp body tail :
  at_most_one is_blank sp = true ->
  all_chars is_target_char body = true -> stops is_target_char tail = true ->
  targets_after_action (sp +:+ "=" +:+ body +:+ tail)
  = if Py.truthy body
    then filter (fun t => Py.truthy t = true)
                (map Py.strip (Py.split_comma body))
    else [ALL_TRANSFORMERS].
Proof.
  intros Hsp Hbody Htail. unfold targets_after_action.
  rewrite (opt_app is_blank sp) by done.
  rewrite (opt_one is_equals "="%char) by done.
  rewrite (span_app is_target_char body tail) by done.
  by destruct (Py.truthy body).
Qed.

Lemma targets_of_separators seps :
  all_chars is_separator_char seps = true ->
  filter (fun t => Py.truthy t = true) (map Py.strip (Py.split_comma seps)) = [].
Proof.
  intros H. pose proof (split_comma_separators seps H) as HF.
  induction HF as [|x l Hx Hl IH]; [done|]. cbn [map].
  rewrite (strip_spaces x Hx). rewrite filter_cons_False by done. exact IH.
Qed.

Lemma targets_of_entries es :
  es <> [] -> forallb is_entry es = true ->
  all_chars is_target_char (join_comma (map entry_text es)) = true
  /\ Py.truthy (join_comma (map entry_text es)) = true
  /\ filter (fun t => Py.truthy t = true)
       (map Py.strip (Py.split_comma (join_comma (map entry_text es))))
     = map entry_name es.
Proof.
  intros Hne Hes. rewrite forallb_forall in Hes.
  split; [|split].
  - apply join_comma_chars; [done|]. apply forallb_forall.
    intros x (e & <- & He)%in_map_iff. by apply entry_text_chars, Hes.
  - destruct es as [|e es]; [done|].
    destruct (entry_text_chars e (Hes e (or_introl eq_refl))) as (_ & _ & Hn).
    assert (Py.truthy (entry_text e) = true) as Ht.
    { unfold entry_text. destruct (pad_left e); [|done].
      by destruct (entry_name e). }
    simpl. destruct (map entry_text es); [done|].
    by destruct (entry_text e).
  - rewrite split_comma_join.
    + clear Hne. induction es as [|e es IH]; [done|]. cbn [map].
      rewrite (strip_entry e) by (apply Hes; by left).
      destruct (entry_text_chars e (Hes e (or_introl eq_refl))) as (_ & _ & Hn).
      rewrite filter_cons_True by done.
      rewrite IH; [done|]. intros x Hx. apply Hes. by right.
    + by destruct es.
    + apply forallb_forall. intros x (e & <- & He)%in_map_iff.
      by apply entry_text_chars, Hes.
Qed.

End Targets.

(** C7, as the code has it: for a recognised directive the targets are the
    wildcard alone when no [=] follows the action word (an optional blank
    apart), and also when [=] is followed by no character of the target
    list; but when [=] is followed by a non-empty run of commas and
    whitespace only, the target list is empty, not the wildcard. *)
Theorem targets_of_a_directive ws s1 s2 a :
  allowed_spacing ws s1 s2 = true -> is_action a = true ->
  (forall rest,
     starts_with "=" rest = false -> starts_with " =" rest = false ->
     recognize (directive_text ws s1 s2 a rest)
     = Some (a, [ALL_TRANSFORMERS]))
  /\ (forall sp tail,
        at_most_one is_blank sp = true -> stops is_target_char tail = true ->
        recognize (directive_text ws s1 s2 a (sp +:+ "=" +:+ tail))
        = Some (a, [ALL_TRANSFORMERS]))
  /\ (forall sp seps tail,
        at_most_one is_blank sp = true -> Py.truthy seps = true ->
        all_chars is_separator_char seps = true ->
        stops is_target_char tail = true ->
        recognize (directive_text ws s1 s2 a (sp +:+ "=" +:+ seps +:+ tail))
        = Some (a, [])).
Proof.
  intros Hsp Ha. split; [|split].
  - intros rest H1 H2. rewrite recognize_directive_text by done.
    by rewrite targets_without_equals.
  - intros sp tail Hb Ht. rewrite recognize_directive_text by done.
    pose proof (targets_with_equals sp "" tail Hb eq_refl Ht) as H.
    rewrite append_nil_l in H. by rewrite H.
  - intros sp seps tail Hb Hn Hs Ht. rewrite recognize_directive_text by done.
    rewrite targets_with_equals; try done.
    + by rewrite Hn, targets_of_separators.
    + by apply (all_chars_impl _ _ _ separator_char_is_target_char).
Qed.

Lemma targets_of_a_directive_witness :
  recognize "# robotidy: off" = Some ("off", [ALL_TRANSFORMERS])
  /\ recognize "# robotidy: off=" = Some ("off", [ALL_TRANSFORMERS])
  /\ recognize "# robotidy: off=, ," = Some ("off", []).
Proof.
  destruct (targets_of_a_directive "" " " " " "off" eq_refl eq_refl)
    as (H1 & H2 & H3).
  split; [|split].
  - exact (H1 "" eq_refl eq_refl).
  - exact (H2 "" "" eq_refl eq_refl).
  - exact (H3 "" ", ," "" eq_refl eq_refl eq_refl eq_refl).
Defined.

(** C7, as stated, does not hold: [# robotidy: off=,] resolves to no
    target at all, so the comment opens nothing. *)
Lemma off_equals_comma_names_nothing :
  recognize "# robotidy: off=" = Some ("off", [ALL_TRANSFORMERS])
  /\ recognize "# robotidy: off=," = Some ("off", [])
  /\ forall self,
       RegisterDisablers.visit
         (NStatement (Samples.comment_line 4 "# robotidy: off=," 3)) self
       = Some self.
Proof. split; [by vm_compute|]. split; [by vm_compute|]. done. Qed.

(** C8, as the code has it: a directive is recognised with any whitespace
    before [#], at most one whitespace character between [#] and
    [robotidy:], at most one between [robotidy:] and the action word, and
    at most one blank between the action word and [=]; within these
    allowances the directive is the same, and whitespace around each name
    of the target list does not change the names. *)
Theorem spacing_the_recogniser_tolerates ws s1 s2 a :
  allowed_spacing ws s1 s2 = true -> is_action a = true ->
  (forall rest,
     recognize (directive_text ws s1 s2 a rest)
     = recognize (directive_text "" " " " " a rest))
  /\ (forall rest,
        recognize (directive_text ws s1 s2 a (" =" +:+ rest))
        = recognize (directive_text ws s1 s2 a ("=" +:+ rest)))
  /\ (forall sp es tail,
        at_most_one is_blank sp = true -> es <> [] ->
        forallb is_entry es = true -> stops is_target_char tail = true ->
        recognize
          (directive_text ws s1 s2 a
             (sp +:+ "=" +:+ join_comma (map entry_text es) +:+ tail))
        = Some (a, map entry_name es)).
Proof.
  intros Hsp Ha. split; [|split].
  - intros rest. by rewrite !recognize_directive_text.
  - intros rest. by rewrite !recognize_directive_text.
  - intros sp es tail Hb Hne Hes Ht.
    destruct (targets_of_entries es Hne Hes) as (Hc & Hn & Hf).
    rewrite recognize_directive_text by done.
    rewrite targets_with_equals by done. by rewrite Hn, Hf.
Qed.

Lemma spacing_the_recogniser_tolerates_witness :
  recognize "    #robotidy: off =  AlignSettingsSection , Normalize Tags  "
  = Some ("off", ["AlignSettingsSection"; "Normalize Tags"]).
Proof.
  destruct (spacing_the_recogniser_tolerates "    " "" " " "off"
              eq_refl eq_refl) as (_ & _ & H).
  refine (H " " [mkEntry "  " "AlignSettingsSection" " ";
                 mkEntry " " "Normalize Tags" "  "] "" eq_refl _ eq_refl eq_refl).
  discriminate.
Defined.

(** C8, as stated, does not hold: a second whitespace character after [#]
    or after [robotidy:] makes the comment no directive at all, and a second
    blank before [=] turns the named target into the wildcard. *)
Lemma a_second_space_changes_the_directive :
  recognize "# robotidy: off" = Some ("off", [ALL_TRANSFORMERS])
  /\ recognize "#  robotidy: off" = None
  /\ recognize "# robotidy:  off" = None
  /\ recognize "# robotidy: off=Name" = Some ("off", ["Name"])
  /\ recognize "# robotidy: off  =Name" = Some ("off", [ALL_TRANSFORMERS]).
Proof. repeat split; by vm_compute. Qed.

(* ===================================================================== *)
(** * Further properties of the code *)
(* ===================================================================== *)

(** ** The texts the recogniser accepts *)

Section RecogniserShape.

Lemma span_inv p s a b :
  Py.span p s = (a, b) -> s = a +:+ b /\ all_chars p a = true.
Proof.
  revert a b. induction s as [|c s IH]; intros a b; simpl.
  - by intros [= <- <-].
  - destruct (p c) eqn:E.
    + destruct (Py.span p s) as [a' b'] eqn:Es. intros [= <- <-].
      destruct (IH a' b' eq_refl) as [-> Ha]. rewrite append_cons.
      split; [done|]. simpl. by rewrite E.
    + by intros [= <- <-].
Qed.

Lemma opt_inv p s a b :
  Py.opt p s = (a, b) -> s = a +:+ b /\ at_most_one p a = true.
Proof.
  destruct s as [|c s]; simpl; [by intros [= <- <-]|].
  destruct (p c) eqn:E; intros [= <- <-]; [|done].
  rewrite append_cons, append_nil_l. simpl. by rewrite E.
Qed.

Lemma literal_inv lit s r : Py.literal lit s = Some r -> s = lit +:+ r.
Proof.
  revert s. induction lit as [|c lit IH]; intros s; simpl.
  - by intros [= ->].
  - destruct s as [|d s]; [done|]. destruct (Ascii.eqb_spec c d) as [->|]; [|done].
    intros H. rewrite append_cons. by rewrite (IH s H).
Qed.

Lemma on_or_off_inv s a r :
  on_or_off s = Some (a, r) -> s = a +:+ r /\ is_action a = true.
Proof.
  unfold on_or_off.
  destruct (Py.literal "on" s) as [r1|] eqn:E1.
  - intros [= <- <-]. by rewrite (literal_inv _ _ _ E1).
  - destruct (Py.literal "off" s) as [r2|] eqn:E2; [|done].
    intros [= <- <-]. by rewrite (literal_inv _ _ _ E2).
Qed.

(** Every match comes from a text of the shape of [directive_text]. *)
Lemma disabler_pattern_match_inv text m :
  disabler_pattern_match text = Some m ->
  exists ws s1 s2 rest,
    allowed_spacing ws s1 s2 = true
    /\ is_action (group_disabler m) = true
    /\ text = directive_text ws s1 s2 (group_disabler m) rest.
Proof.
  unfold disabler_pattern_match.
  destruct (Py.span Py.is_space text) as [ws r1] eqn:E1.
  destruct (Py.literal "#" r1) as [r2|] eqn:E2; [|done]. cbn [mbind option_bind].
  destruct (Py.opt Py.is_space r2) as [s1 r3] eqn:E3.
  destruct (Py.literal "robotidy:" r3) as [r4|] eqn:E4; [|done].
  cbn [mbind option_bind].
  destruct (Py.opt Py.is_space r4) as [s2 r5] eqn:E5.
  destruct (on_or_off r5) as [[a r6]|] eqn:E6; [|done]. cbn [mbind option_bind].
  destruct (Py.opt is_blank r6) as [sp r7].
  destruct (Py.opt is_equals r7) as [eq r8].
  destruct (Py.span is_target_char r8) as [tr r9].
  intros [= <-]. cbn [group_disabler].
  apply span_inv in E1 as [-> Hws]. apply literal_inv in E2 as ->.
  apply opt_inv in E3 as [-> H1]. apply literal_inv in E4 as ->.
  apply opt_inv in E5 as [-> H2]. apply on_or_off_inv in E6 as [-> Ha].
  exists ws, s1, s2, r6. unfold allowed_spacing. by rewrite Hws, H1, H2.
Qed.

End RecogniserShape.

(** X1: a comment is recognised as a directive exactly when it is made of
    whitespace, [#], at most one whitespace character, [robotidy:], at most
    one whitespace character, [on] or [off], and anything after that; the
    action word of the directive is the one in the text. *)
Theorem recognised_exactly_directive_texts text :
  (forall a ts,
     recognize text = Some (a, ts) ->
     exists ws s1 s2 rest,
       allowed_spacing ws s1 s2 = true /\ is_action a = true
       /\ text = directive_text ws s1 s2 a rest
       /\ ts = targets_after_action rest)
  /\ ((exists ws s1 s2 a rest,
         allowed_spacing ws s1 s2 = true /\ is_action a = true
         /\ text = directive_text ws s1 s2 a rest)
      -> recognize text <> None).
Proof.
  split.
  - intros a ts H. unfold recognize, get_disabler in H.
    destruct (negb (Py.truthy text)); [done|].
    destruct (disabler_pattern_match text) as [m|] eqn:Em; [|done].
    cbn [mbind option_bind] in H. injection H as <- <-.
    destruct (disabler_pattern_match_inv text m Em)
      as (ws & s1 & s2 & rest & Hsp & Ha & ->).
    exists ws, s1, s2, rest. do 3 (split; [done|]).
    pose proof (recognize_directive_text ws s1 s2 (group_disabler m) rest
                  Hsp Ha) as Hr.
    unfold recognize, get_disabler in Hr.
    rewrite directive_text_truthy in Hr. simpl negb in Hr. cbv iota in Hr.
    rewrite Em in Hr. cbn [mbind option_bind] in Hr. by injection Hr.
  - intros (ws & s1 & s2 & a & rest & Hsp & Ha & ->).
    by rewrite recognize_directive_text.
Qed.

Lemma recognised_exactly_directive_texts_witness :
  recognize "  #robotidy: on=Tidy" <> None.
Proof.
  apply recognised_exactly_directive_texts.
  exists "  ", "", " ", "on", "=Tidy". by repeat split.
Defined.

(** ** The names a directive resolves to *)

Section ResolvedNames.

Lemma contains_span_rest c p s :
  Py.contains c (Py.span p s).2 = true -> Py.contains c s = true.
Proof.
  induction s as [|x s IH]; simpl; [done|].
  destruct (p x); [|done]. destruct (Py.span p s) as [a b]. simpl in *.
  intros H. rewrite (IH H). apply orb_true_r.
Qed.

Lemma contains_rstrip c s :
  Py.contains c (Py.rstrip s) = true -> Py.contains c s = true.
Proof.
  induction s as [|x s IH]; simpl; [done|].
  destruct (Py.rstrip s) as [|y r] eqn:E.
  - destruct (Py.is_space x); simpl; [done|]. rewrite orb_false_r.
    intros ->. done.
  - simpl. intros [->|H]%orb_true_iff; [done|].
    simpl in IH. rewrite (IH H). apply orb_true_r.
Qed.

Lemma contains_strip c s :
  Py.contains c (Py.strip s) = true -> Py.contains c s = true.
Proof.
  unfold Py.strip, Py.lstrip. intros H.
  by apply (contains_span_rest c Py.is_space), contains_rstrip.
Qed.

(** The pieces of [split(",")] hold no comma. *)
Lemma split_comma_pieces s :
  Forall (fun x => Py.contains "," x = false) (Py.split_comma s).
Proof.
  induction s as [|c s IH]; simpl.
  - by repeat constructor.
  - destruct (Py.is_comma c) eqn:E; [by constructor|].
    destruct (Py.split_comma s) as [|h t].
    + repeat constructor. cbn [Py.contains]. unfold Py.is_comma in E.
      by rewrite Ascii.eqb_sym, E.
    + inversion IH as [|? ? Hh Ht]; subst. constructor; [|done].
      cbn [Py.contains]. unfold Py.is_comma in E.
      by rewrite Ascii.eqb_sym, E, Hh.
Qed.

Lemma rstrip_idemp s : Py.rstrip (Py.rstrip s) = Py.rstrip s.
Proof.
  induction s as [|c s IH]; simpl; [done|].
  destruct (Py.rstrip s) as [|y r] eqn:E.
  - destruct (Py.is_space c) eqn:Ec; simpl; [done | by rewrite Ec].
  - simpl in *. by rewrite IH.
Qed.

(** What [lstrip] leaves is empty or starts with no whitespace, and
    [rstrip] keeps that. *)
Lemma lstrip_solid_or_empty s :
  Py.lstrip s = "" \/ starts_solid (Py.lstrip s) = true.
Proof.
  unfold Py.lstrip. induction s as [|c s IH]; simpl; [by left|].
  destruct (Py.is_space c) eqn:E.
  - by destruct (Py.span Py.is_space s).
  - right. simpl. by rewrite E.
Qed.

Lemma rstrip_solid s :
  starts_solid s = true -> starts_solid (Py.rstrip s) = true.
Proof.
  destruct s as [|c s]; simpl; [done|]. intros Hc.
  destruct (Py.rstrip s); [|done].
  apply negb_true_iff in Hc. rewrite Hc. simpl. by rewrite Hc.
Qed.

Lemma strip_idemp s : Py.strip (Py.strip s) = Py.strip s.
Proof.
  unfold Py.strip. destruct (lstrip_solid_or_empty s) as [->|H]; [done|].
  rewrite (lstrip_solid (Py.rstrip (Py.lstrip s))) by by apply rstrip_solid.
  apply rstrip_idemp.
Qed.

End ResolvedNames.

(** X2: whatever the comment, the action of a recognised directive is [on]
    or [off], and each target it resolves to is a non-empty name without a
    comma and without whitespace at either end. *)
Theorem resolved_targets_are_trimmed_names text a ts :
  recognize text = Some (a, ts) ->
  is_action a = true
  /\ Forall (fun t => Py.truthy t = true /\ Py.strip t = t
                      /\ Py.contains "," t = false) ts.
Proof.
  intros H.
  destruct (proj1 (recognised_exactly_directive_texts text) a ts H)
    as (ws & s1 & s2 & rest & _ & Ha & _ & ->).
  split; [done|]. unfold targets_after_action.
  destruct (Py.opt is_blank rest) as [sp r7].
  destruct (Py.opt is_equals r7) as [eq r8].
  destruct (Py.span is_target_char r8) as [tr r9].
  destruct (negb (Py.truthy tr) || negb (Py.truthy eq)).
  - by repeat constructor.
  - apply List.Forall_forall. intros t Ht.
    apply list_elem_of_In, list_elem_of_filter in Ht as [Hne Ht].
    apply list_elem_of_In, in_map_iff in Ht as (piece & <- & Hp).
    split; [done|]. split; [apply strip_idemp|].
    pose proof (split_comma_pieces tr) as Hall.
    rewrite List.Forall_forall in Hall. specialize (Hall piece Hp).
    destruct (Py.contains "," (Py.strip piece)) eqn:E; [|done].
    apply contains_strip in E. congruence.
Qed.

Lemma resolved_targets_are_trimmed_names_witness :
  Forall (fun t => Py.truthy t = true /\ Py.strip t = t
                   /\ Py.contains "," t = false)
         ["Alpha"; "Beta Gamma"].
Proof.
  exact (proj2 (resolved_targets_are_trimmed_names
                  "# robotidy: off= Alpha ,, Beta Gamma ," "off"
                  ["Alpha"; "Beta Gamma"] eq_refl)).
Defined.

(** ** Command-line helpers *)

Section CliHelpers.

Import Cli.

Lemma replace_dashes_none s : Py.contains "-" (replace_dashes s) = false.
Proof.
  induction s as [|c s IH]; [done|]. cbn [replace_dashes Py.contains].
  rewrite IH, orb_false_r.
  unfold is_dash. destruct (Ascii.eqb_spec c "-") as [->|Hc]; [done|].
  apply Ascii.eqb_neq. congruence.
Qed.

Lemma no_dash_fixed s :
  Py.contains "-" s = false -> drop_dashes s = s /\ replace_dashes s = s.
Proof.
  induction s as [|c s IH]; [done|]. cbn [Py.contains drop_dashes replace_dashes].
  intros [Hc Hs]%orb_false_iff. unfold is_dash.
  rewrite Ascii.eqb_sym, Hc. destruct (IH Hs) as [_ ->]. done.
Qed.

Lemma drop_dashes_app dashes body :
  all_chars is_dash dashes = true ->
  drop_dashes (dashes +:+ body) = drop_dashes body.
Proof.
  induction dashes as [|c d IH]; [done|]. rewrite append_cons. simpl.
  intros [-> Hd]%andb_true_iff. auto.
Qed.

Lemma join_split_comma s : join_comma (Py.split_comma s) = s.
Proof.
  induction s as [|c s IH]; simpl; [done|].
  destruct (Py.is_comma c) eqn:E.
  - unfold Py.is_comma in E. apply Ascii.eqb_eq in E as ->.
    destruct (Py.split_comma s) as [|h t] eqn:Es.
    + by destruct s; simpl in Es; [|destruct (Py.is_comma _), (Py.split_comma _)].
    + change (join_comma ("" :: h :: t)) with ("" +:+ "," +:+ join_comma (h :: t)).
      by rewrite IH.
  - destruct (Py.split_comma s) as [|h t] eqn:Es.
    + by destruct s; simpl in Es; [|destruct (Py.is_comma _), (Py.split_comma _)].
    + destruct t as [|h' t]; simpl in *; by rewrite <- IH.
Qed.

Lemma check_config_ok allowed config :
  check_config allowed config = inr tt <-> Forall (fun c => c ∈ allowed) config.
Proof.
  induction config as [|c config IH]; simpl.
  - split; [by constructor | done].
  - case_bool_decide as Hc.
    + rewrite IH. split; [by constructor|]. by inversion 1.
    + split; [done|]. by inversion 1.
Qed.

Lemma check_config_raises allowed config r :
  check_config allowed config = inl r ->
  exists conf before after,
    r = NoSuchOption conf /\ config = before ++ conf :: after
    /\ (conf ∉ allowed) /\ Forall (fun c => c ∈ allowed) before.
Proof.
  induction config as [|c config IH]; simpl; [done|].
  case_bool_decide as Hc.
  - intros H. destruct (IH H) as (conf & before & after & -> & -> & Hn & Hb).
    exists conf, (c :: before), after.
    split; [done|]. split; [done|]. split; [done | by constructor].
  - intros [= <-]. exists c, [], config.
    split; [done|]. split; [done|]. split; [done | by constructor].
Qed.

Lemma drop_dashes_split opt :
  exists dashes,
    opt = dashes +:+ drop_dashes opt
    /\ all_chars is_dash dashes = true
    /\ match drop_dashes opt with
       | String c _ => is_dash c = false
       | EmptyString => True
       end.
Proof.
  induction opt as [|c r (dashes & Hr & Hd & Hb)]; [by exists ""|].
  cbn [drop_dashes]. destruct (is_dash c) eqn:Ec.
  - exists (String c dashes). rewrite append_cons, <- Hr.
    split; [done|]. split; [|done]. simpl. by rewrite Ec.
  - exists "". by rewrite append_nil_l.
Qed.

Lemma replace_dashes_length s :
  String.length (replace_dashes s) = String.length s.
Proof. induction s as [|c s IH]; simpl; by rewrite ?IH. Qed.

Lemma replace_dashes_get s i :
  String.get i (replace_dashes s)
  = (fun c => if is_dash c then "_"%char else c) <$> String.get i s.
Proof.
  revert i. induction s as [|c s IH]; intros i; [done|].
  destruct i as [|i]; [done|]. simpl. apply IH.
Qed.

End CliHelpers.

(** X3: [parse_opt] drops the leading dashes, however many there are, and
    turns every other dash into [_], leaving every other character where it
    is: the option is its leading dashes followed by a body that starts with
    no dash, and the result is that body character by character with [_]
    for [-].  So the result holds no [-], parsing a parsed name changes
    nothing, and more leading dashes change nothing. *)
Theorem parse_opt_leaves_no_dash opt :
  Py.contains "-" (Cli.parse_opt opt) = false
  /\ Cli.parse_opt (Cli.parse_opt opt) = Cli.parse_opt opt
  /\ (forall dashes,
        all_chars Cli.is_dash dashes = true ->
        Cli.parse_opt (dashes +:+ opt) = Cli.parse_opt opt)
  /\ exists dashes body,
       opt = dashes +:+ body
       /\ all_chars Cli.is_dash dashes = true
       /\ match body with
          | String c _ => Cli.is_dash c = false
          | EmptyString => True
          end
       /\ String.length (Cli.parse_opt opt) = String.length body
       /\ forall i,
            String.get i (Cli.parse_opt opt)
            = (fun c => if Cli.is_dash c then "_"%char else c)
                <$> String.get i body.
Proof.
  unfold Cli.parse_opt. split; [apply replace_dashes_none|]. split.
  { destruct (no_dash_fixed _ (replace_dashes_none (Cli.drop_dashes opt)))
      as [-> ->]. done. }
  split; [intros dashes Hd; by rewrite drop_dashes_app|].
  destruct (drop_dashes_split opt) as (dashes & Hopt & Hd & Hb).
  exists dashes, (Cli.drop_dashes opt). do 3 (split; [done|]).
  split; [apply replace_dashes_length | apply replace_dashes_get].
Qed.

(** X4: [validate_config_options] accepts a configuration exactly when
    there are no parameters to check against or every key is the parsed form
    of some option of some parameter; otherwise it raises [NoSuchOption]
    for the first key, in the order of the configuration, that is not. *)
Theorem config_keys_must_be_options params config :
  (Cli.validate_config_options params config = inr tt
   <-> params = None
       \/ exists ps, params = Some ps
            /\ Forall (fun c => c ∈ Cli.allowed_options ps) config)
  /\ (forall r,
        Cli.validate_config_options params config = inl r ->
        exists ps conf before after,
          params = Some ps /\ r = Cli.NoSuchOption conf
          /\ config = before ++ conf :: after
          /\ (conf ∉ Cli.allowed_options ps)
          /\ Forall (fun c => c ∈ Cli.allowed_options ps) before).
Proof.
  unfold Cli.validate_config_options. destruct params as [ps|]; split.
  - rewrite check_config_ok. split.
    + intros H. right. by exists ps.
    + by intros [|(ps' & [= <-] & H)].
  - intros r H.
    destruct (check_config_raises _ _ _ H) as (c & b & a & ? & ? & ? & ?).
    by exists ps, c, b, a.
  - split; [by left | done].
  - done.
Qed.

(** X5: [csv_list_type] splits on every comma and loses nothing: joining
    its items with commas gives the value back, no item holds a comma, and
    the list is empty only for a missing or empty value. *)
Theorem csv_list_type_joins_back value :
  join_comma (Cli.csv_list_type value) = default "" value
  /\ Forall (fun x => Py.contains "," x = false) (Cli.csv_list_type value)
  /\ (Cli.csv_list_type value = [] <-> value = None \/ value = Some "").
Proof.
  destruct value as [v|]; simpl.
  - destruct v as [|c v]; simpl negb; cbv iota.
    + split; [done|]. split; [by constructor|]. split; [by right | done].
    + split; [apply join_split_comma|]. split; [apply split_comma_pieces|].
      split; [|by intros [|]].
      intros H. pose proof (join_split_comma (String c v)) as J.
      by rewrite H in J.
  - split; [done|]. split; [by constructor|]. split; [by left | done].
Qed.

(** ** Sorting the registry *)

Section SortedRegistry.

Import DisabledLines.

Lemma insert_by_start_perm x l : insert_by_start x l ≡ₚ x :: l.
Proof.
  induction l as [|y l IH]; simpl; [done|].
  destruct (fst y <? fst x); [|done]. rewrite IH. apply perm_swap.
Qed.

Lemma sorted_by_start_perm l : sorted_by_start l ≡ₚ l.
Proof.
  induction l as [|x l IH]; simpl; [done|].
  by rewrite insert_by_start_perm, IH.
Qed.

Lemma sorted_by_start_fixed l :
  StronglySorted by_start l -> sorted_by_start l = l.
Proof.
  induction 1 as [|x l Hl IH Hx]; simpl; [done|]. rewrite IH.
  destruct l as [|y l]; simpl; [done|].
  inversion Hx as [|? ? Hy _]; subst. unfold by_start in Hy.
  destruct (Z.ltb_spec (fst y) (fst x)); [lia | done].
Qed.

Lemma sort_disablers_idemp (d : DisabledLines.t) :
  sort_disablers (sort_disablers d) = sort_disablers d.
Proof.
  unfold sort_disablers, set_lines. simpl.
  by rewrite sorted_by_start_fixed by apply sorted_by_start_sorted.
Qed.

End SortedRegistry.

(** X6: [sort_disablers] leaves every target with the same intervals, now
    in the order of their start lines; the header sets and the whole-file
    flags are not touched, and sorting a second time changes nothing. *)
Theorem sort_disablers_orders_and_keeps (d : DisablersInFile.t) name :
  StronglySorted by_start (lines_of name (DisablersInFile.sort_disablers d))
  /\ lines_of name (DisablersInFile.sort_disablers d) ≡ₚ lines_of name d
  /\ (forall line,
        DisablersInFile.is_header_disabled name line
          (DisablersInFile.sort_disablers d)
        = DisablersInFile.is_header_disabled name line d)
  /\ DisablersInFile.is_disabled_in_file name (DisablersInFile.sort_disablers d)
     = DisablersInFile.is_disabled_in_file name d
  /\ DisablersInFile.sort_disablers (DisablersInFile.sort_disablers d)
     = DisablersInFile.sort_disablers d.
Proof.
  rewrite lines_of_sort_disablers.
  split; [apply sorted_by_start_sorted|]. split; [apply sorted_by_start_perm|].
  split; [|split].
  - intros line.
    unfold DisablersInFile.is_header_disabled, DisablersInFile.sort_disablers,
      DisablersInFile.at_. simpl. rewrite !lookup_fmap.
    destruct (DisablersInFile.disablers d !! ALL_TRANSFORMERS),
      (DisablersInFile.disablers d !! name); done.
  - unfold DisablersInFile.is_disabled_in_file, DisablersInFile.sort_disablers,
      DisablersInFile.at_. simpl. rewrite !lookup_fmap.
    destruct (DisablersInFile.disablers d !! ALL_TRANSFORMERS),
      (DisablersInFile.disablers d !! name); done.
  - unfold DisablersInFile.sort_disablers, DisablersInFile.with_disablers.
    simpl. f_equal. rewrite <- map_fmap_compose.
    apply map_fmap_ext. intros k x _. apply sort_disablers_idemp.
Qed.

(** ** The two modes of the node query *)

Section QueryModes.

Lemma is_node_disabled_at_overlap name d node :
  DisabledLines.is_node_disabled (Some node) false (DisablersInFile.at_ name d)
  = true
  <-> exists iv, In iv (lines_of name d)
                 /\ lineno node <= snd iv
                 /\ fst iv <= Z.max (lineno node) (end_lineno node).
Proof. apply is_node_disabled_overlap. Qed.

End QueryModes.

(** X7: in overlap mode the node query is true exactly when an interval of
    the wildcard or of the target shares a line with the node, sorted or
    not; and on a sorted registry a node disabled in full-match mode is
    disabled in overlap mode too. *)
Theorem overlap_query_is_intersection name (d : DisablersInFile.t) node :
  (DisablersInFile.is_node_disabled name (Some node) false d = true
   <-> exists iv,
         (In iv (lines_of ALL_TRANSFORMERS d) \/ In iv (lines_of name d))
         /\ lineno node <= snd iv
         /\ fst iv <= Z.max (lineno node) (end_lineno node))
  /\ (DisablersInFile.is_node_disabled name (Some node) true
        (DisablersInFile.sort_disablers d) = true ->
      DisablersInFile.is_node_disabled name (Some node) false
        (DisablersInFile.sort_disablers d) = true).
Proof.
  assert (forall d',
            DisablersInFile.is_node_disabled name (Some node) false d' = true
            <-> exists iv,
                  (In iv (lines_of ALL_TRANSFORMERS d') \/ In iv (lines_of name d'))
                  /\ lineno node <= snd iv
                  /\ fst iv <= Z.max (lineno node) (end_lineno node)) as Hov.
  { intros d'. rewrite is_node_disabled_either, orb_true_iff,
      !is_node_disabled_at_overlap. split.
    - intros [(iv & ? & ?)|(iv & ? & ?)]; exists iv; auto.
    - intros (iv & [?|?] & ?); [left | right]; by exists iv. }
  split; [apply Hov|]. intros Hfull.
  apply is_node_disabled_final in Hfull as (iv & Hin & H1 & H2).
  apply Hov. exists iv. rewrite !lines_of_sort_disablers. split.
  - destruct Hin as [Hin|Hin]; [left | right];
      by apply (proj2 (sorted_by_start_In _ _)).
  - lia.
Qed.

(** X8: a node whose [end_lineno] is not after its [lineno] (transformers
    set it to -1) is queried as the one line [lineno]. *)
Theorem end_before_start_is_one_line name (d : DisablersInFile.t) l e full :
  e <= l ->
  DisablersInFile.is_node_disabled name (Some (mkLoc l e)) full d
  = DisablersInFile.is_node_disabled name (Some (mkLoc l l)) full d.
Proof.
  intros He. rewrite !is_node_disabled_either.
  unfold DisabledLines.is_node_disabled. simpl.
  by rewrite Z.max_l, Z.max_id by lia.
Qed.

Lemma end_before_start_is_one_line_witness :
  DisablersInFile.is_node_disabled "Tidy" (Some (mkLoc 7 (-1))) true
    (DisablersInFile.add_disabler "Tidy" 5 9 false
       (DisablersInFile.init None None (Some 20)))
  = DisablersInFile.is_node_disabled "Tidy" (Some (mkLoc 7 7)) true
      (DisablersInFile.add_disabler "Tidy" 5 9 false
         (DisablersInFile.init None None (Some 20))).
Proof. apply end_before_start_is_one_line. lia. Defined.

(** ** Adding to the registry *)

Section AddToRegistry.

Import DisablersInFile.

Lemma at_add_disabler_ne name t a b fl d :
  name <> t -> at_ name (add_disabler t a b fl d) = at_ name d.
Proof.
  intros Hne. unfold at_, add_disabler, ensure.
  destruct (disablers d !! t); simpl; by rewrite !lookup_insert_ne.
Qed.

Lemma lookup_add_disabler_ne name t a b fl d :
  name <> t -> disablers (add_disabler t a b fl d) !! name = disablers d !! name.
Proof.
  intros Hne. unfold add_disabler, ensure.
  destruct (disablers d !! t); simpl; by rewrite !lookup_insert_ne.
Qed.

Lemma at_add_disabled_header_ne name t line d :
  name <> t -> at_ name (add_disabled_header t line d) = at_ name d.
Proof.
  intros Hne. unfold at_, add_disabled_header, ensure.
  destruct (disablers d !! t); simpl; by rewrite !lookup_insert_ne.
Qed.

Lemma lookup_add_disabled_header_ne name t line d :
  name <> t ->
  disablers (add_disabled_header t line d) !! name = disablers d !! name.
Proof.
  intros Hne. unfold add_disabled_header, ensure.
  destruct (disablers d !! t); simpl; by rewrite !lookup_insert_ne.
Qed.

Lemma at_add_disabled_header_eq t line d :
  at_ t (add_disabled_header t line d)
  = DisabledLines.add_disabled_header line (at_ t d).
Proof.
  unfold add_disabled_header, ensure, at_.
  destruct (disablers d !! t) as [dt|] eqn:E; simpl;
    rewrite !lookup_insert_eq; simpl; by rewrite ?E.
Qed.

Lemma headers_add_one line (dl : DisabledLines.t) l :
  DisabledLines.is_header_disabled l (DisabledLines.add_disabled_header line dl)
  = DisabledLines.is_header_disabled l dl || bool_decide (l = line).
Proof.
  unfold DisabledLines.is_header_disabled. simpl.
  rewrite <- bool_decide_or. apply bool_decide_ext.
  rewrite elem_of_union, elem_of_singleton. tauto.
Qed.

(** The header set of a target after [add_disabled_header]. *)
Lemma headers_add_disabled_header name t line d l :
  DisabledLines.is_header_disabled l (at_ name (add_disabled_header t line d))
  = DisabledLines.is_header_disabled l (at_ name d)
    || bool_decide (name = t) && bool_decide (l = line).
Proof.
  destruct (decide (name = t)) as [->|Hne].
  - rewrite bool_decide_eq_true_2 by done. simpl.
    by rewrite at_add_disabled_header_eq, headers_add_one.
  - rewrite at_add_disabled_header_ne by done.
    rewrite (bool_decide_eq_false_2 (name = t)) by done.
    by rewrite orb_false_r.
Qed.

Lemma is_header_disabled_either name line d :
  is_header_disabled name line d
  = DisabledLines.is_header_disabled line (at_ ALL_TRANSFORMERS d)
    || DisabledLines.is_header_disabled line (at_ name d).
Proof.
  unfold is_header_disabled.
  destruct (DisabledLines.is_header_disabled line (at_ ALL_TRANSFORMERS d));
    [done|].
  unfold at_. destruct (disablers d !! name); simpl; [done|].
  unfold DisabledLines.is_header_disabled. simpl.
  symmetry. apply bool_decide_eq_false_2. set_solver.
Qed.

Lemma is_disabled_in_file_either name d :
  is_disabled_in_file name d
  = DisabledLines.disabled_whole (at_ ALL_TRANSFORMERS d)
    || DisabledLines.disabled_whole (at_ name d).
Proof.
  unfold is_disabled_in_file.
  destruct (DisabledLines.disabled_whole (at_ ALL_TRANSFORMERS d)); [done|].
  unfold at_. by destruct (disablers d !! name).
Qed.

End AddToRegistry.

(** X9: after [add_disabled_header] for a target and a line, the header
    query is true for that line for the target itself, and for every name
    when the target is the wildcard; every other header query answers as
    before, and node and whole-file queries are not touched. *)
Theorem header_query_after_add name t line (d : DisablersInFile.t) l :
  DisablersInFile.is_header_disabled name l
    (DisablersInFile.add_disabled_header t line d)
  = DisablersInFile.is_header_disabled name l d
    || bool_decide (l = line)
       && (bool_decide (t = name) || bool_decide (t = ALL_TRANSFORMERS))
  /\ (forall node full,
        DisablersInFile.is_node_disabled name node full
          (DisablersInFile.add_disabled_header t line d)
        = DisablersInFile.is_node_disabled name node full d)
  /\ DisablersInFile.is_disabled_in_file name
       (DisablersInFile.add_disabled_header t line d)
     = DisablersInFile.is_disabled_in_file name d.
Proof.
  assert (forall n, lines_of n (DisablersInFile.add_disabled_header t line d)
                    = lines_of n d
                    /\ DisabledLines.disabled_whole
                         (DisablersInFile.at_ n
                            (DisablersInFile.add_disabled_header t line d))
                       = DisabledLines.disabled_whole (DisablersInFile.at_ n d))
    as Hsame.
  { intros n. destruct (decide (n = t)) as [Heq|Hne].
    - subst n. unfold lines_of. by rewrite at_add_disabled_header_eq.
    - unfold lines_of. by rewrite at_add_disabled_header_ne. }
  split; [|split].
  - rewrite !is_header_disabled_either, !headers_add_disabled_header.
    rewrite (bool_decide_ext (ALL_TRANSFORMERS = t) (t = ALL_TRANSFORMERS))
      by (split; congruence).
    rewrite (bool_decide_ext (name = t) (t = name)) by (split; congruence).
    by destruct (DisabledLines.is_header_disabled l
                   (DisablersInFile.at_ ALL_TRANSFORMERS d)),
      (DisabledLines.is_header_disabled l (DisablersInFile.at_ name d)),
      (bool_decide (l = line)), (bool_decide (t = name)),
      (bool_decide (t = ALL_TRANSFORMERS)).
  - intros node full. rewrite !is_node_disabled_either.
    unfold DisabledLines.is_node_disabled.
    fold (lines_of ALL_TRANSFORMERS (DisablersInFile.add_disabled_header t line d)).
    fold (lines_of name (DisablersInFile.add_disabled_header t line d)).
    fold (lines_of ALL_TRANSFORMERS d). fold (lines_of name d).
    by rewrite (proj1 (Hsame ALL_TRANSFORMERS)), (proj1 (Hsame name)).
  - rewrite !is_disabled_in_file_either.
    by rewrite (proj2 (Hsame ALL_TRANSFORMERS)), (proj2 (Hsame name)).
Qed.

(** X10: [add_disabler] for a named target leaves every query of another
    name as it was, in both modes, and never changes a header query. *)
Theorem add_disabler_is_local name t a b fl (d : DisablersInFile.t) :
  (forall line,
     DisablersInFile.is_header_disabled name line
       (DisablersInFile.add_disabler t a b fl d)
     = DisablersInFile.is_header_disabled name line d)
  /\ (name <> t -> t <> ALL_TRANSFORMERS ->
      (forall node full,
         DisablersInFile.is_node_disabled name node full
           (DisablersInFile.add_disabler t a b fl d)
         = DisablersInFile.is_node_disabled name node full d)
      /\ DisablersInFile.is_disabled_in_file name
           (DisablersInFile.add_disabler t a b fl d)
         = DisablersInFile.is_disabled_in_file name d).
Proof.
  split.
  - intros line. rewrite !is_header_disabled_either.
    assert (forall n,
              DisabledLines.is_header_disabled line
                (DisablersInFile.at_ n (DisablersInFile.add_disabler t a b fl d))
              = DisabledLines.is_header_disabled line (DisablersInFile.at_ n d))
      as Hn.
    { intros n. destruct (decide (n = t)) as [Heq|Hne].
      - subst n. unfold DisablersInFile.add_disabler,
          DisablersInFile.ensure, DisablersInFile.at_.
        destruct (DisablersInFile.disablers d !! t) as [dt|] eqn:E; simpl;
          rewrite !lookup_insert_eq; simpl; rewrite ?E; by destruct fl.
      - by rewrite at_add_disabler_ne. }
    by rewrite !Hn.
  - intros Hne Hall. split.
    + intros node full. rewrite !is_node_disabled_either.
      by rewrite !at_add_disabler_ne.
    + rewrite !is_disabled_in_file_either. by rewrite !at_add_disabler_ne.
Qed.

Lemma add_disabler_is_local_witness :
  DisablersInFile.is_node_disabled "Other" (Some (mkLoc 6 6)) true
    (DisablersInFile.add_disabler "Tidy" 5 9 false
       (DisablersInFile.init None None (Some 20)))
  = false.
Proof.
  destruct (add_disabler_is_local "Other" "Tidy" 5 9 false
              (DisablersInFile.init None None (Some 20))) as [_ H].
  destruct H as [H _]; [discriminate | discriminate |].
  rewrite H. reflexivity.
Defined.

(** X11: what is disabled stays disabled: if a registry has grown (more
    intervals, nothing removed), every node disabled in the sorted earlier
    registry is disabled in the sorted later one, in both modes. *)
Theorem growth_never_enables name (d d' : DisablersInFile.t) node full :
  registry_grows d d' ->
  DisablersInFile.is_node_disabled name (Some node) full
    (DisablersInFile.sort_disablers d) = true ->
  DisablersInFile.is_node_disabled name (Some node) full
    (DisablersInFile.sort_disablers d') = true.
Proof.
  intros Hg. destruct full.
  - rewrite !is_node_disabled_final. intros (iv & Hin & Hc). exists iv.
    split; [|done].
    destruct Hin as [Hin|Hin]; [left | right];
      by apply (registry_grows_lines d d').
  - rewrite !(proj1 (overlap_query_is_intersection name _ node)).
    rewrite !lines_of_sort_disablers.
    intros (iv & Hin & Hc). exists iv. split; [|done].
    destruct Hin as [Hin|Hin]; [left | right];
      apply (proj2 (sorted_by_start_In _ _));
      apply (registry_grows_lines d d'); try done;
      by apply (proj1 (sorted_by_start_In _ _)).
Qed.

Lemma growth_never_enables_witness :
  DisablersInFile.is_node_disabled "Tidy" (Some (mkLoc 6 7)) true
    (DisablersInFile.sort_disablers
       (DisablersInFile.add_disabler ALL_TRANSFORMERS 1 3 false
          (DisablersInFile.add_disabler "Tidy" 5 9 false
             (DisablersInFile.init None None (Some 20)))))
  = true.
Proof.
  apply (growth_never_enables "Tidy"
           (DisablersInFile.add_disabler "Tidy" 5 9 false
              (DisablersInFile.init None None (Some 20)))).
  - apply registry_grows_add_disabler.
  - reflexivity.
Defined.

Lemma overlap_query_is_intersection_witness :
  DisablersInFile.is_node_disabled "Tidy" (Some (mkLoc 6 7)) false
    (DisablersInFile.sort_disablers
       (DisablersInFile.add_disabler "Tidy" 5 9 false
          (DisablersInFile.init None None (Some 20))))
  = true.
Proof.
  apply (proj2 (overlap_query_is_intersection "Tidy"
                  (DisablersInFile.add_disabler "Tidy" 5 9 false
                     (DisablersInFile.init None None (Some 20)))
                  (mkLoc 6 7))).
  reflexivity.
Defined.

Lemma parse_opt_leaves_no_dash_witness :
  Cli.parse_opt "--continuation-indent" = "continuation_indent".
Proof.
  destruct (parse_opt_leaves_no_dash "continuation-indent") as (_ & _ & H & _).
  exact (H "--" eq_refl).
Defined.

Lemma config_keys_must_be_options_witness :
  Cli.validate_config_options
    (Some [["--startline"; "-sl"]; ["--line-length"]])
    ["line_length"; "sl"] = inr tt.
Proof.
  apply (proj1 (config_keys_must_be_options _ _)). right.
  eexists. split; [reflexivity|].
  repeat constructor; vm_compute; set_solver.
Defined.

(** ** The processing window in general *)

(** X12: for a window from [s] to [e] (or the one line [s] when no end
    line is given) on a well-formed document, the registry the sections
    start from disables, among the lines of the file, exactly those before
    [s] and after [e], for every target and in both modes; and whatever the
    directives of the document, those lines are still disabled after the
    pass. *)
Theorem window_disables_what_is_outside (s e : Z) (el : option Z) (f : File) :
  1 <= s -> s <= e -> el = Some e \/ (el = None /\ e = s) ->
  wf_sections f = true ->
  exists d0 d,
    DisablersInFile.parse_global_disablers
      (DisablersInFile.init (Some s) el (Some (file_end_lineno f))) = Some d0
    /\ register_disablers (Some s) el f = Some d
    /\ (forall l name full,
          1 <= l <= file_end_lineno f ->
          DisablersInFile.is_node_disabled name (Some (mkLoc l l)) full d0
          = true
          <-> l < s \/ e < l)
    /\ (forall l name full,
          1 <= l < s \/ e < l <= file_end_lineno f ->
          DisablersInFile.is_node_disabled name (Some (mkLoc l l)) full d
          = true).
Proof.
  intros Hs Hse Hel Hwf.
  destruct (register_disablers_goes_through (Some s) el f Hwf)
    as (d0 & d1 & E0 & G & E).
  destruct (parse_global_disablers_init (Some s) el (file_end_lineno f))
    as (d0' & E0' & L0 & P0 & N0).
  assert (d0' = d0) as -> by congruence.
  set (fe := file_end_lineno f) in *.
  assert (lines_of ALL_TRANSFORMERS d0
          = (if 1 <? s then [(1, s - 1)] else [])
            ++ (if e <? fe then [(e + 1, fe)] else [])) as L.
  { rewrite L0. unfold global_intervals.
    destruct (Z.eqb_spec s 0); [lia|].
    destruct Hel as [->|[-> ->]]; [|done].
    destruct (Z.eqb_spec e 0); [lia | done]. }
  exists d0, (DisablersInFile.sort_disablers d1).
  split; [done|]. split; [done|]. split.
  - intros l name full Hl. rewrite is_node_disabled_either.
    assert (forall n,
              DisabledLines.is_node_disabled (Some (mkLoc l l)) full
                (DisablersInFile.at_ n d0) = true
              -> l < s \/ e < l) as Hout.
    { intros n. destruct (decide (n = ALL_TRANSFORMERS)) as [->|Hn].
      - unfold DisabledLines.is_node_disabled.
        fold (lines_of ALL_TRANSFORMERS d0). rewrite L. simpl.
        rewrite Z.max_id.
        destruct (Z.ltb_spec 1 s), (Z.ltb_spec e fe), full; simpl;
          repeat match goal with
                 | |- context [if ?c then _ else _] => destruct c eqn:?
                 end; try done; lia.
      - unfold DisabledLines.is_node_disabled.
        fold (lines_of n d0). by rewrite N0. }
    split.
    + intros [H|H]%orb_true_iff; eauto.
    + intros Hl'. apply orb_true_iff. left.
      unfold DisabledLines.is_node_disabled.
      fold (lines_of ALL_TRANSFORMERS d0). rewrite L. simpl.
      rewrite Z.max_id.
      destruct (Z.ltb_spec 1 s), (Z.ltb_spec e fe), full; simpl;
        repeat match goal with
               | |- context [if ?c then _ else _] => destruct c eqn:?
               end; try done; lia.
  - intros l name full Hl.
    destruct Hl as [Hl|Hl];
      [apply (wildcard_interval_disables name _ full d1 (1, s - 1))
      |apply (wildcard_interval_disables name _ full d1 (e + 1, fe))];
      try (unfold covers; simpl; lia);
      apply (registry_grows_lines d0 d1); try done; rewrite L;
      apply in_or_app.
    + left. destruct (Z.ltb_spec 1 s); [by left | lia].
    + right. destruct (Z.ltb_spec e fe); [by left | lia].
Qed.

Lemma window_disables_what_is_outside_witness :
  exists d,
    register_disablers (Some 4) None Samples.try_document = Some d
    /\ DisablersInFile.is_node_disabled "Tidy" (Some (mkLoc 5 5)) true d
       = true.
Proof.
  destruct (window_disables_what_is_outside 4 4 None Samples.try_document)
    as (d0 & d & _ & E & _ & H); [lia | lia | by right | reflexivity |].
  exists d. split; [exact E|]. apply H. simpl. lia.
Defined.

(** ** When a visit raises *)

Section Raises.

Import RegisterDisablers.

Lemma comment_loop_empty_stack index ds line ts self :
  ts <> [] -> disablers_in_scope self = [] ->
  for_each (comment_step index ds line) ts self = None.
Proof.
  intros Hts Hs. destruct ts as [|t ts]; [done|]. simpl. unfold seq.
  assert (comment_step index ds line t self = None) as ->; [|done].
  unfold comment_step. rewrite Hs. by destruct index.
Qed.

End Raises.

(** X13: visiting a statement raises in two cases only, both for a
    [Comment] statement: it has no comment token, or its comment is a
    directive with at least one target and no scope frame is open.  Closing
    a scope raises exactly when no frame is open. *)
Theorem statement_visit_raises_only (s : Statement) self :
  (RegisterDisablers.visit_statement s self = None
   <-> sclass s = Comment
       /\ (get_token COMMENT s = None
           \/ exists comment m,
                get_token COMMENT s = Some comment
                /\ get_disabler (value comment) = Some m
                /\ get_disabler_transformers m <> []
                /\ RegisterDisablers.disablers_in_scope self = []))
  /\ (forall line,
        RegisterDisablers.close_disabler line self = None
        <-> RegisterDisablers.disablers_in_scope self = []).
Proof.
  split.
  - split.
    + intros Hnone. destruct (decide (sclass s = Comment)) as [Hc|Hc].
      * split; [done|].
        destruct (get_token COMMENT s) as [comment|] eqn:Ht; [|by left].
        right. exists comment.
        destruct (get_disabler (value comment)) as [m|] eqn:Hm.
        -- exists m. do 2 (split; [done|]).
           destruct (decide (RegisterDisablers.disablers_in_scope self = []))
             as [Hs|Hs].
           ++ split; [|done]. intros Hts.
              rewrite (visit_comment_unfold s comment m Hc Ht Hm), Hts in Hnone.
              done.
           ++ destruct (visit_statement_keeps s self) as (s' & E & _);
                [|done|congruence].
              unfold wf_statement. rewrite Hc, Ht. by apply bool_decide_eq_true_2.
        -- unfold RegisterDisablers.visit_statement,
             RegisterDisablers.visit_Statement in Hnone.
           by rewrite Hc, Ht, Hm in Hnone.
      * destruct (visit_statement_stack s self Hc) as (s' & E & _). congruence.
    + intros [Hc [Ht|(comment & m & Ht & Hm & Hts & Hs)]].
      * unfold RegisterDisablers.visit_statement,
          RegisterDisablers.visit_Statement. by rewrite Hc, Ht.
      * rewrite (visit_comment_unfold s comment m Hc Ht Hm).
        by apply comment_loop_empty_stack.
  - intros line. unfold RegisterDisablers.close_disabler. split.
    + intros Hnone.
      destruct (decide (RegisterDisablers.disablers_in_scope self = []))
        as [Hs|Hs]; [done|].
      destruct (stack_snoc _ Hs) as (init & top & Hst).
      destruct (close_disabler_spec line self init top Hst) as (s' & E & _).
      unfold RegisterDisablers.close_disabler in E. congruence.
    + by intros ->.
Qed.

Lemma statement_visit_raises_only_witness :
  RegisterDisablers.visit_statement
    (Samples.comment_line 4 "# robotidy: off" 3)
    (RegisterDisablers.init None None) = None.
Proof.
  apply (proj2 (proj1 (statement_visit_raises_only
                         (Samples.comment_line 4 "# robotidy: off" 3)
                         (RegisterDisablers.init None None)))).
  split; [reflexivity|]. right.
  exists (Samples.cmt 4 "# robotidy: off"), (mkMatch "# robotidy: off" "off" "").
  by repeat split.
Defined.

(** ** Directives that change nothing *)

Section NoOps.

Import RegisterDisablers.

Lemma comment_loop_noop index ds line ts self frame :
  stack_get index (disablers_in_scope self) = Some frame ->
  Forall (fun t => frame_closed t frame = ds) ts ->
  for_each (comment_step index ds line) ts self = Some self.
Proof.
  intros Hget Hall. induction Hall as [|t ts Ht Hts IH]; [done|].
  simpl. unfold seq.
  assert (comment_step index ds line t self = Some self) as ->.
  { unfold comment_step. rewrite Hget. simpl. rewrite Ht. by destruct ds. }
  exact IH.
Qed.

End NoOps.

(** X14: an Enable comment none of whose targets is pending in the frame
    it addresses (index 0 for a comment at column 0, the last frame
    otherwise) changes nothing: no interval, no frame, no flag. *)
Theorem enable_with_nothing_open_is_noop (s : Statement) comment m frame self :
  sclass s = Comment -> get_token COMMENT s = Some comment ->
  get_disabler (value comment) = Some m -> group_disabler m = "on" ->
  stack_get (if is_line_start s then First else Last)
    (RegisterDisablers.disablers_in_scope self) = Some frame ->
  Forall (fun t => frame_closed t frame = true) (get_disabler_transformers m) ->
  RegisterDisablers.visit (NStatement s) self = Some self.
Proof.
  intros Hc Ht Hm Hon Hget Hall. simpl.
  rewrite (visit_comment_unfold s comment m Hc Ht Hm), Hon.
  by apply (comment_loop_noop _ true _ _ _ frame).
Qed.

Lemma enable_with_nothing_open_is_noop_witness :
  RegisterDisablers.visit
    (NStatement (Samples.comment_line 4 "# robotidy: on" 9))
    (RegisterDisablers.with_scope
       [[(ALL_TRANSFORMERS, 3)]; [(ALL_TRANSFORMERS, 0)]]
       (RegisterDisablers.init None None))
  = Some (RegisterDisablers.with_scope
            [[(ALL_TRANSFORMERS, 3)]; [(ALL_TRANSFORMERS, 0)]]
            (RegisterDisablers.init None None)).
Proof.
  apply (enable_with_nothing_open_is_noop _ (Samples.cmt 4 "# robotidy: on")
           (mkMatch "# robotidy: on" "on" "") [(ALL_TRANSFORMERS, 0)]);
    try reflexivity.
  by repeat constructor.
Defined.

(** X15: a Disable comment all of whose targets are already pending in the
    frame it addresses changes nothing: the earlier start line stays. *)
Theorem repeated_disable_keeps_first_start (s : Statement) comment m frame self :
  sclass s = Comment -> get_token COMMENT s = Some comment ->
  get_disabler (value comment) = Some m -> group_disabler m = "off" ->
  stack_get (if is_line_start s then First else Last)
    (RegisterDisablers.disablers_in_scope self) = Some frame ->
  Forall (fun t => frame_closed t frame = false) (get_disabler_transformers m) ->
  RegisterDisablers.visit (NStatement s) self = Some self.
Proof.
  intros Hc Ht Hm Hoff Hget Hall. simpl.
  rewrite (visit_comment_unfold s comment m Hc Ht Hm), Hoff.
  by apply (comment_loop_noop _ false _ _ _ frame).
Qed.

Lemma repeated_disable_keeps_first_start_witness :
  RegisterDisablers.visit
    (NStatement (Samples.comment_line 4 "# robotidy: off" 9))
    (RegisterDisablers.with_scope
       [[(ALL_TRANSFORMERS, 0)]; [(ALL_TRANSFORMERS, 3)]]
       (RegisterDisablers.init None None))
  = Some (RegisterDisablers.with_scope
            [[(ALL_TRANSFORMERS, 0)]; [(ALL_TRANSFORMERS, 3)]]
            (RegisterDisablers.init None None)).
Proof.
  apply (repeated_disable_keeps_first_start _ (Samples.cmt 4 "# robotidy: off")
           (mkMatch "# robotidy: off" "off" "") [(ALL_TRANSFORMERS, 3)]);
    try reflexivity.
  by repeat constructor.
Defined.

(** ** Documents without directives *)

Section Quiet.

Import RegisterDisablers.

Lemma quiet_header line comments self :
  forallb no_directive comments = true ->
  header_comments line comments self = Some self.
Proof.
  induction comments as [|c comments IH]; [done|]. simpl.
  intros [Hc Hr]%andb_true_iff. unfold no_directive in Hc.
  destruct (get_disabler (value c)); [done | by apply IH].
Qed.

Lemma quiet_inline loc comments self :
  forallb no_directive comments = true ->
  for_each (inline_step loc) comments self = Some self.
Proof.
  induction comments as [|c comments IH]; [done|]. simpl.
  intros [Hc Hr]%andb_true_iff. unfold no_directive in Hc.
  unfold seq.
  assert (inline_step loc c self = Some self) as ->; [|by apply IH].
  unfold inline_step. by destruct (get_disabler (value c)).
Qed.

Lemma quiet_statement_visit s self :
  quiet_statement s = true -> visit_statement s self = Some self.
Proof.
  unfold quiet_statement, visit_statement, visit_Statement, visit_SectionHeader.
  destruct (sclass s).
  - destruct (get_token COMMENT s) as [c|]; [|done]. unfold no_directive.
    by destruct (get_disabler (value c)).
  - apply quiet_header.
  - apply quiet_inline.
Qed.

Lemma quiet_field_visit field self :
  quiet_field field = true -> visit_field field self = Some self.
Proof. destruct field; [apply quiet_statement_visit | done]. Qed.

Lemma quiet_for_each {A} (body : A -> M) xs self :
  Forall (fun x => forall self, body x self = Some self) xs ->
  for_each body xs self = Some self.
Proof.
  induction 1 as [|x xs Hx _ IH]; [done|]. simpl. unfold seq.
  rewrite Hx. simpl. apply IH.
Qed.

Lemma quiet_scope (inner : M) line self :
  (forall self, inner self = Some self) ->
  seq push_scope (seq inner (close_disabler line)) self = Some self.
Proof.
  intros Hi. unfold seq, push_scope. simpl. rewrite Hi. simpl.
  unfold close_disabler. simpl. rewrite last_snoc. simpl.
  rewrite removelast_last. unfold seq, close_one. simpl.
  by destruct self.
Qed.

Lemma quiet_seq (a b : M) self :
  (forall self, a self = Some self) -> (forall self, b self = Some self) ->
  seq a b self = Some self.
Proof. intros Ha Hb. unfold seq. rewrite Ha. simpl. apply Hb. Qed.

Lemma quiet_body body :
  Forall (fun n => quiet_node n = true -> forall self, visit n self = Some self)
    body ->
  forallb quiet_node body = true ->
  forall self, for_each visit body self = Some self.
Proof.
  intros HP Hq self. apply quiet_for_each.
  rewrite forallb_forall in Hq. rewrite List.Forall_forall in HP |- *.
  intros n Hn. by apply HP, Hq.
Qed.

Lemma quiet_all :
  (forall n, quiet_node n = true -> forall self, visit n self = Some self)
  /\ (forall t, quiet_try t = true ->
        (forall self, for_each visit (try_body t) self = Some self)
        /\ (forall self, try_while t self = Some self)).
Proof.
  apply Node_TryNode_ind.
  - intros s Hq self. by apply quiet_statement_visit.
  - intros k header body end_ loc HP Hq self. simpl in Hq.
    apply andb_true_iff in Hq as [[H1 H2]%andb_true_iff H3].
    apply quiet_scope. intros s1.
    apply quiet_seq; [intros; by apply quiet_field_visit|]. intros s2.
    apply quiet_seq; [by apply quiet_body|]. intros; by apply quiet_field_visit.
  - intros header body orelse end_ loc HP Ho Hq self. simpl in Hq.
    apply andb_true_iff in Hq as [[[H1 H2]%andb_true_iff H3]%andb_true_iff H4].
    apply quiet_scope. intros s1.
    apply quiet_seq; [intros; by apply quiet_field_visit|]. intros s2.
    apply quiet_seq; [by apply quiet_body|]. intros s3.
    apply quiet_seq; [|intros; by apply quiet_field_visit].
    destruct orelse as [n|]; [|done]. by apply Ho.
  - intros [h body next e l] Ht Hq self. simpl in Hq.
    destruct (Ht Hq) as [Hb Hw]. simpl in Hb.
    change (visit (NTry (mkTry h body next e l)) self)
      with (seq push_scope
              (seq (for_each visit body)
                 (seq (close_disabler (end_lineno l))
                    (try_while (mkTry h body next e l)))) self).
    assert (seq push_scope
              (seq (for_each visit body) (close_disabler (end_lineno l))) self
            = Some self) as E by (by apply quiet_scope).
    unfold seq in E |- *. simpl in E |- *.
    destruct (for_each visit body _) as [s1|]; [|done]. simpl in E |- *.
    rewrite E. simpl. apply Hw.
  - intros h body next e l HP Hn Hq. simpl in Hq.
    apply andb_true_iff in Hq as [H1 H2].
    pose proof (quiet_body body HP H1) as Hb.
    split; [exact Hb|]. intros self. simpl.
    destruct next as [t'|]; [|done].
    apply quiet_seq; [|by apply Hn].
    intros s1. unfold try_round. by apply quiet_scope.
Qed.

Lemma quiet_sections index secs self :
  forallb (fun n => is_Section n && quiet_node n) secs = true ->
  exists self',
    visit_sections index secs self = Some self'
    /\ disablers self' = disablers self
    /\ disablers_in_scope self' = disablers_in_scope self.
Proof.
  revert index self. induction secs as [|sec secs IH]; intros index self Hq.
  - by exists self.
  - simpl in Hq. apply andb_true_iff in Hq as [[Hs Hn]%andb_true_iff Hr].
    simpl. unfold seq.
    assert (visit_Section sec
              (with_file_level (Nat.eqb index 0 && is_CommentSection sec) self)
            = Some (with_file_level
                      (Nat.eqb index 0 && is_CommentSection sec) self)) as ->.
    { destruct sec as [s|k h b e l|h b o e l|t]; try done.
      by apply (proj1 quiet_all (NBlock k h b e l)). }
    simpl.
    destruct (IH (S index)
                (with_file_level (Nat.eqb index 0 && is_CommentSection sec) self)
                Hr) as (s' & E & D & S').
    exists s'. by rewrite E.
Qed.

Lemma headers_sort_disablers name line d :
  DisabledLines.is_header_disabled line
    (DisablersInFile.at_ name (DisablersInFile.sort_disablers d))
  = DisabledLines.is_header_disabled line (DisablersInFile.at_ name d).
Proof.
  unfold DisablersInFile.sort_disablers, DisablersInFile.at_. simpl.
  rewrite lookup_fmap. by destruct (DisablersInFile.disablers d !! name).
Qed.

Lemma parse_global_disablers_flags (dl dl' : DisabledLines.t) :
  DisabledLines.parse_global_disablers dl = Some dl' ->
  DisabledLines.disabled_whole dl' = DisabledLines.disabled_whole dl
  /\ DisabledLines.disabled_headers dl' = DisabledLines.disabled_headers dl.
Proof.
  unfold DisabledLines.parse_global_disablers.
  destruct (negb _); [by intros [= <-]|].
  destruct (DisabledLines.file_end dl) as [fe|]; [|done]. simpl.
  intros [= <-]. by repeat case_match.
Qed.

Lemma window_registry_flags sl el fe d0 name :
  DisablersInFile.parse_global_disablers
    (DisablersInFile.init sl el (Some fe)) = Some d0 ->
  DisabledLines.disabled_whole (DisablersInFile.at_ name d0) = false
  /\ DisabledLines.disabled_headers (DisablersInFile.at_ name d0) = ∅.
Proof.
  unfold DisablersInFile.parse_global_disablers, DisablersInFile.init. simpl.
  rewrite lookup_singleton_eq. simpl.
  destruct (DisabledLines.parse_global_disablers _) as [dl'|] eqn:E; [|done].
  simpl. intros [= <-]. unfold DisablersInFile.at_. simpl.
  destruct (parse_global_disablers_flags _ _ E) as [Hw Hh].
  destruct (decide (name = ALL_TRANSFORMERS)) as [->|Hne].
  - rewrite lookup_insert_eq. simpl. by rewrite Hw, Hh.
  - by rewrite lookup_insert_ne, lookup_singleton_ne.
Qed.

End Quiet.

(** X16: a tree none of whose comments is a directive leaves the visitor
    as it found it, and the pass over a document of such sections registers
    the line window and nothing else: the only intervals are those of the
    window, under the wildcard; no file is disabled as a whole and no
    section header is disabled. *)
Theorem directive_free_document_registers_only_the_window sl el (f : File) :
  forallb (fun n => is_Section n && quiet_node n) (sections f) = true ->
  (forall n self,
     In n (sections f) -> RegisterDisablers.visit n self = Some self)
  /\ exists d,
       register_disablers sl el f = Some d
       /\ lines_of ALL_TRANSFORMERS d
          = DisabledLines.sorted_by_start
              (global_intervals sl el (file_end_lineno f))
       /\ (forall name, name <> ALL_TRANSFORMERS -> lines_of name d = [])
       /\ (forall name, DisablersInFile.is_disabled_in_file name d = false)
       /\ (forall name line,
             DisablersInFile.is_header_disabled name line d = false).
Proof.
  intros Hq. split.
  - intros n self Hn. apply quiet_all.
    rewrite forallb_forall in Hq. by apply Hq, andb_true_iff in Hn as [_ Hn].
  - destruct (parse_global_disablers_init sl el (file_end_lineno f))
      as (d0 & E0 & Hall & _ & Hother).
    destruct (quiet_sections 0 (sections f)
                (RegisterDisablers.mk sl el d0 [] false) Hq)
      as (s' & E & D & _).
    exists (DisablersInFile.sort_disablers d0).
    rewrite register_disablers_unfold, E0. simpl. rewrite E. simpl.
    rewrite D. simpl. split; [done|].
    split; [by rewrite lines_of_sort_disablers, Hall|].
    split; [intros name Hn; by rewrite lines_of_sort_disablers, Hother|].
    split.
    + intros name. rewrite is_disabled_in_file_either, !whole_sort_disablers.
      by rewrite !(proj1 (window_registry_flags sl el _ d0 _ E0)).
    + intros name line. rewrite is_header_disabled_either, !headers_sort_disablers.
      unfold DisabledLines.is_header_disabled.
      rewrite !(proj2 (window_registry_flags sl el _ d0 _ E0)).
      by rewrite bool_decide_eq_false_2 by set_solver.
Qed.

Lemma directive_free_document_registers_only_the_window_witness :
  register_disablers (Some 2) (Some 3)
    (mkFile
       [NBlock Section (Some (Samples.hdr 1))
          [NStatement (Samples.comment_line 4 "# a remark" 2);
           NStatement (Samples.kwc 3 "# robotidy is off here")]
          None (mkLoc 1 3)]
       5)
  <> None.
Proof.
  destruct (directive_free_document_registers_only_the_window
              (Some 2) (Some 3)
              (mkFile
                 [NBlock Section (Some (Samples.hdr 1))
                    [NStatement (Samples.comment_line 4 "# a remark" 2);
                     NStatement (Samples.kwc 3 "# robotidy is off here")]
                    None (mkLoc 1 3)]
                 5) eq_refl) as (_ & d & E & _).
  rewrite E. discriminate.
Defined.

(** ** An Enable that closes a pending Disable *)

Section EnableCloses.

Import RegisterDisablers.

Lemma frame_after_all_cons ds line t ts (f : Frame) :
  frame_after_all ds line (t :: ts) f
  = frame_after_all ds line ts (frame_after ds line t f).
Proof. done. Qed.

Lemma frame_after_on_closes line t (f : Frame) :
  frame_closed t (frame_after true line t f) = true.
Proof.
  unfold frame_after. destruct (frame_closed t f) eqn:E; [done|].
  unfold frame_closed. by rewrite frame_get_set_eq.
Qed.

Lemma frame_after_all_closed line ts t (f : Frame) :
  In t ts -> frame_closed t (frame_after_all true line ts f) = true.
Proof.
  revert f. induction ts as [|t0 ts IH]; intros f Hin; [destruct Hin|].
  rewrite frame_after_all_cons.
  destruct (in_dec String.string_dec t ts) as [Hr|Hr]; [by apply IH|].
  destruct Hin as [->|Hin]; [|done].
  unfold frame_closed. rewrite frame_after_all_kept by (left; done).
  apply frame_after_on_closes.
Qed.

Lemma enable_loop index line ts t v self frame :
  stack_get index (disablers_in_scope self) = Some frame ->
  In t ts -> frame_get t frame = Some v -> v <> 0 ->
  exists self',
    for_each (comment_step index true line) ts self = Some self'
    /\ visit_keeps self self'
    /\ disablers_in_scope self'
       = stack_set index (frame_after_all true line ts frame)
           (disablers_in_scope self)
    /\ In (v, line) (lines_of t (disablers self')).
Proof.
  intros Hget Hin Hv Hnz.
  destruct (comment_loop_spec index true line ts self frame Hget)
    as (s' & E & S' & K).
  exists s'. do 3 (split; [done|]).
  clear S' K. revert self frame s' Hget Hin Hv E.
  induction ts as [|t0 ts IH]; intros self frame s' Hget Hin Hv E;
    [destruct Hin|].
  simpl in E. unfold seq in E.
  pose proof (stack_get_nonempty _ _ _ Hget) as Hne.
  destruct (decide (t0 = t)) as [->|Hne0].
  - assert (frame_closed t frame = false) as Hopen
      by (apply frame_closed_false; by exists v).
    assert (comment_step index true line t self
            = Some (with_scope
                      (stack_set index (frame_set t 0 frame)
                         (disablers_in_scope self))
                      (with_disablers
                         (DisablersInFile.add_disabler t v line false
                            (disablers self)) self))) as E1.
    { unfold comment_step. rewrite Hget. simpl. by rewrite Hopen, Hv. }
    rewrite E1 in E. simpl in E.
    match type of E with
    | for_each _ _ ?s1 = _ =>
        destruct (comment_loop_spec index true line ts s1 (frame_set t 0 frame))
          as (s2 & E2 & _ & K2); [simpl; by apply stack_get_set|]
    end.
    assert (s2 = s') as -> by congruence.
    destruct K2 as (_ & _ & _ & _ & _ & G2).
    eapply registry_grows_lines; [exact G2|]. simpl.
    apply add_disabler_In. by right.
  - destruct Hin as [?|Hin]; [done|].
    destruct (comment_step_spec index true line t0 self frame Hget)
      as (s1 & E1 & S1 & _).
    rewrite E1 in E. simpl in E.
    apply (IH s1 (frame_after true line t0 frame)); [| done | | done].
    + rewrite S1. by apply stack_get_set.
    + by rewrite frame_after_other.
Qed.

Lemma enable_registers t v s comment m self :
  sclass s = Comment -> get_token COMMENT s = Some comment ->
  get_disabler (value comment) = Some m ->
  String.eqb (group_disabler m) "on" = true ->
  In t (get_disabler_transformers m) ->
  open_at_last t v (disablers_in_scope self) ->
  is_line_start s = false \/ length (disablers_in_scope self) = 1%nat ->
  exists self',
    visit_statement s self = Some self' /\ visit_keeps self self'
    /\ In (v, lineno (sloc s)) (lines_of t (disablers self'))
    /\ exists init frame',
         disablers_in_scope self' = init ++ [frame']
         /\ frame_closed t frame' = true.
Proof.
  intros Hc Ht Hm Hon Hin (init & frame & S & G & Hv) Hidx.
  rewrite (visit_comment_unfold s comment m Hc Ht Hm), Hon.
  set (index := if is_line_start s then First else Last).
  assert (stack_get index (disablers_in_scope self) = Some frame
          /\ forall f, stack_set index f (disablers_in_scope self) = init ++ [f])
    as [Hget Hset].
  { rewrite S. destruct Hidx as [Hl|Hl].
    - unfold index. rewrite Hl. split; [apply stack_get_last|].
      intros f. apply stack_set_last.
    - rewrite S, length_app in Hl. simpl in Hl.
      destruct init; [|simpl in Hl; lia]. by destruct index. }
  destruct (enable_loop index (lineno (sloc s)) (get_disabler_transformers m)
              t v self frame Hget Hin G Hv) as (s' & E & K & S' & L).
  exists s'. do 3 (split; [done|]).
  exists init, (frame_after_all true (lineno (sloc s))
                  (get_disabler_transformers m) frame).
  split; [by rewrite S', Hset | by apply frame_after_all_closed].
Qed.

End EnableCloses.

(** X17: a full-line Enable naming a target that is pending in the frame
    it addresses (the frame at index 0 for a comment at column 0, the last
    frame otherwise, however deep the stack) registers the interval from
    the pending start to its own line for that target; the addressed frame
    is replaced by one in which the target is closed, and no other frame
    changes. *)
Theorem enable_closes_pending_target (s : Statement) comment m t v frame self :
  sclass s = Comment -> get_token COMMENT s = Some comment ->
  get_disabler (value comment) = Some m -> group_disabler m = "on" ->
  In t (get_disabler_transformers m) ->
  stack_get (if is_line_start s then First else Last)
    (RegisterDisablers.disablers_in_scope self) = Some frame ->
  frame_get t frame = Some v -> v <> 0 ->
  exists self' frame',
    RegisterDisablers.visit (NStatement s) self = Some self'
    /\ In (v, lineno (sloc s))
          (lines_of t (RegisterDisablers.disablers self'))
    /\ RegisterDisablers.disablers_in_scope self'
       = stack_set (if is_line_start s then First else Last) frame'
           (RegisterDisablers.disablers_in_scope self)
    /\ stack_get (if is_line_start s then First else Last)
         (RegisterDisablers.disablers_in_scope self') = Some frame'
    /\ frame_closed t frame' = true.
Proof.
  intros Hc Ht Hm Hon Hin Hget Hv Hnz. simpl.
  rewrite (visit_comment_unfold s comment m Hc Ht Hm), Hon.
  destruct (enable_loop (if is_line_start s then First else Last)
              (lineno (sloc s)) (get_disabler_transformers m) t v self frame
              Hget Hin Hv Hnz) as (s' & E & _ & S' & L).
  exists s', (frame_after_all true (lineno (sloc s))
                (get_disabler_transformers m) frame).
  do 3 (split; [done|]). split.
  - rewrite S'. apply stack_get_set. by eapply stack_get_nonempty.
  - by apply frame_after_all_closed.
Qed.

Lemma enable_closes_pending_target_witness :
  exists self',
    RegisterDisablers.visit
      (NStatement (Samples.comment_line 0 "# robotidy: on = X, Y" 9))
      (RegisterDisablers.with_scope
         [[(ALL_TRANSFORMERS, 0); ("Y", 3)]; [(ALL_TRANSFORMERS, 0); ("Y", 6)]]
         (RegisterDisablers.init None None)) = Some self'
    /\ In (3, 9) (lines_of "Y" (RegisterDisablers.disablers self'))
    /\ RegisterDisablers.disablers_in_scope self'
       = [[(ALL_TRANSFORMERS, 0); ("Y", 0)]; [(ALL_TRANSFORMERS, 0); ("Y", 6)]].
Proof.
  destruct (enable_closes_pending_target
              (Samples.comment_line 0 "# robotidy: on = X, Y" 9)
              (Samples.cmt 0 "# robotidy: on = X, Y")
              (mkMatch "# robotidy: on = X, Y" "on" " X, Y") "Y" 3
              [(ALL_TRANSFORMERS, 0); ("Y", 3)]
              (RegisterDisablers.with_scope
                 [[(ALL_TRANSFORMERS, 0); ("Y", 3)];
                  [(ALL_TRANSFORMERS, 0); ("Y", 6)]]
                 (RegisterDisablers.init None None)))
    as (s' & frame' & E & L & S' & _); try reflexivity.
  - simpl. auto.
  - discriminate.
  - exists s'. split; [exact E|]. split; [exact L|].
    vm_compute in E. by injection E as <-.
Defined.

(** ** A balanced pair inside one block *)

(** X18: take a block whose body holds a full-line Disable and, later at
    the same level, a full-line Enable for the same target, neither of them
    at column 0 (or the block visited with no frame open, where the columns
    do not matter), with no Enable for the target in between, and between
    them only statements when no frame is open.  The block registers an
    interval that ends on the Enable line, and every node that interval
    covers is reported disabled for the target once the lists are sorted.
    The interval starts on the Disable line when nothing precedes the
    Disable in the block. *)
Theorem disable_enable_pair_in_block k header pre c_off mid c_on post end_ loc
    t off_comment m_off on_comment m_on self :
  wf_field header = true -> forallb wf_node pre = true ->
  forallb wf_node mid = true -> forallb wf_node post = true ->
  wf_field end_ = true ->
  sclass c_off = Comment -> get_token COMMENT c_off = Some off_comment ->
  get_disabler (value off_comment) = Some m_off ->
  group_disabler m_off = "off" ->
  In t (get_disabler_transformers m_off) -> lineno (sloc c_off) <> 0 ->
  sclass c_on = Comment -> get_token COMMENT c_on = Some on_comment ->
  get_disabler (value on_comment) = Some m_on ->
  group_disabler m_on = "on" ->
  In t (get_disabler_transformers m_on) ->
  forallb (fun n => negb (enables t n)) mid = true ->
  (is_line_start c_off = false /\ is_line_start c_on = false)
    \/ RegisterDisablers.disablers_in_scope self = [] ->
  RegisterDisablers.disablers_in_scope self <> []
    \/ forallb is_statement mid = true ->
  exists self' v,
    RegisterDisablers.visit
      (NBlock k header
         (pre ++ NStatement c_off :: mid ++ NStatement c_on :: post)
         end_ loc) self = Some self'
    /\ In (v, lineno (sloc c_on))
          (lines_of t (RegisterDisablers.disablers self'))
    /\ (forall node,
          covers (v, lineno (sloc c_on)) node ->
          DisablersInFile.is_node_disabled t (Some node) true
            (DisablersInFile.sort_disablers
               (RegisterDisablers.disablers self')) = true)
    /\ (pre = [] -> on_option (fun h => sclass h <> Comment) header ->
        v = lineno (sloc c_off)).
Proof.
  intros Hwh Hwpre Hwmid Hwpost Hwe Hc Ht Hm Hoff Hin Hline
    Hc' Ht' Hm' Hon Hin' Hen Hidx Hdepth.
  set (stk := RegisterDisablers.disablers_in_scope self) in *.
  set (self1 :=
         RegisterDisablers.with_scope (stk ++ [[(ALL_TRANSFORMERS, 0)]]) self).
  assert (RegisterDisablers.disablers_in_scope self1 <> []) as Hne1.
  { simpl. by destruct stk. }
  destruct (visit_field_keeps header self1 Hwh Hne1) as (s2 & E2 & K2).
  pose proof (visit_keeps_nonempty _ _ K2 Hne1) as Hne2.
  destruct (runs_body_wf pre Hwpre s2 Hne2) as (s3 & E3 & K3).
  pose proof (visit_keeps_trans _ _ _ K2 K3) as K13.
  pose proof K13 as (_ & _ & _ & L13 & M13 & _).
  destruct (same_shape_snoc _ _ _ L13 M13) as (init3 & fr3 & S3 & Hl3 & _).
  assert (String.eqb (group_disabler m_off) "on" = false) as Hoff'
    by (by rewrite Hoff).
  destruct (disable_opens t c_off off_comment m_off s3 init3 fr3 Hc Ht Hm
              Hoff' Hin Hline S3)
    as (s4 & v & E4 & K4 & O4 & V4).
  { destruct Hidx as [[? _]|Hnil]; [by left | right].
    rewrite Hnil in Hl3. by apply nil_length_inv. }
  pose proof (visit_keeps_trans _ _ _ K13 K4) as K14.
  destruct (body_keeps_open t v mid s4 Hwmid Hen) as (s5 & E5 & K5 & O5);
    [|done|].
  { destruct Hdepth as [Hne|]; [left | by right].
    destruct K14 as (_ & _ & _ & L14 & _). rewrite L14. simpl.
    rewrite length_app. simpl. destruct stk; [done | simpl; lia]. }
  pose proof (visit_keeps_trans _ _ _ K14 K5) as K15.
  destruct (enable_registers t v c_on on_comment m_on s5 Hc' Ht' Hm')
    as (s6 & E6 & K6 & L6 & _); [by rewrite Hon | done | done | |].
  { destruct Hidx as [[_ ?]|Hnil]; [by left | right].
    destruct K15 as (_ & _ & _ & L15 & _). rewrite L15. simpl.
    by rewrite Hnil. }
  pose proof (visit_keeps_nonempty _ _ (visit_keeps_trans _ _ _ K15 K6) Hne1)
    as Hne6.
  destruct (runs_body_wf post Hwpost s6 Hne6) as (s7 & E7 & K7).
  pose proof (visit_keeps_nonempty _ _ K7 Hne6) as Hne7.
  destruct (visit_field_keeps end_ s7 Hwe Hne7) as (s8 & E8 & K8).
  pose proof (visit_keeps_nonempty _ _ K8 Hne7) as Hne8.
  destruct (stack_snoc _ Hne8) as (init8 & top8 & S8).
  destruct (close_disabler_spec (end_lineno loc) s8 init8 top8 S8)
    as (s9 & E9 & _ & _ & _ & _ & G9).
  assert (In (v, lineno (sloc c_on))
             (lines_of t (RegisterDisablers.disablers s9))) as L9.
  { eapply registry_grows_lines; [exact G9|].
    destruct K8 as (_ & _ & _ & _ & _ & G8).
    eapply registry_grows_lines; [exact G8|].
    destruct K7 as (_ & _ & _ & _ & _ & G7).
    eapply registry_grows_lines; [exact G7|]. exact L6. }
  exists s9, v. split.
  { simpl. unfold RegisterDisablers.seq at 1.
    rewrite push_scope_spec. cbn [mbind option_bind].
    fold stk. fold self1. unfold RegisterDisablers.seq.
    rewrite E2. cbn [mbind option_bind].
    rewrite for_each_app, E3. cbn [mbind option_bind].
    change (RegisterDisablers.for_each RegisterDisablers.visit
              (NStatement c_off :: mid ++ NStatement c_on :: post))
      with (RegisterDisablers.seq (RegisterDisablers.visit_statement c_off)
              (RegisterDisablers.for_each RegisterDisablers.visit
                 (mid ++ NStatement c_on :: post))).
    unfold RegisterDisablers.seq. rewrite E4. cbn [mbind option_bind].
    rewrite for_each_app, E5. cbn [mbind option_bind].
    change (RegisterDisablers.for_each RegisterDisablers.visit
              (NStatement c_on :: post))
      with (RegisterDisablers.seq (RegisterDisablers.visit_statement c_on)
              (RegisterDisablers.for_each RegisterDisablers.visit post)).
    unfold RegisterDisablers.seq. rewrite E6. cbn [mbind option_bind].
    rewrite E7. cbn [mbind option_bind]. rewrite E8. exact E9. }
  split; [done|]. split.
  - intros node Hcov. apply is_node_disabled_final.
    exists (v, lineno (sloc c_on)). split; [by right | done].
  - intros -> Hh. apply V4.
    destruct (visit_field_stack header self1 Hh) as (s2' & E2' & _ & S2').
    assert (s2' = s2) as -> by congruence.
    simpl in E3. injection E3 as <-.
    rewrite S2' in S3. simpl in S3.
    apply app_inj_tail in S3 as [_ <-].
    unfold frame_closed. simpl. by destruct (String.eqb t ALL_TRANSFORMERS).
Qed.


Lemma disable_enable_pair_in_block_witness :
  exists self',
    RegisterDisablers.visit
      (NBlock TestCase (Some (Samples.name 2))
         ([] ++ NStatement (Samples.comment_line 4 "# robotidy: off" 3)
             :: [NStatement (Samples.kw 4)]
             ++ NStatement (Samples.comment_line 4 "# robotidy: on" 5)
             :: [NStatement (Samples.kw 6)])
         None (mkLoc 2 6))
      (RegisterDisablers.init None None) = Some self'
    /\ In (3, 5) (lines_of ALL_TRANSFORMERS (RegisterDisablers.disablers self')).
Proof.
  destruct (disable_enable_pair_in_block TestCase (Some (Samples.name 2)) []
              (Samples.comment_line 4 "# robotidy: off" 3)
              [NStatement (Samples.kw 4)]
              (Samples.comment_line 4 "# robotidy: on" 5)
              [NStatement (Samples.kw 6)] None (mkLoc 2 6) ALL_TRANSFORMERS
              (Samples.cmt 4 "# robotidy: off")
              (mkMatch "# robotidy: off" "off" "")
              (Samples.cmt 4 "# robotidy: on")
              (mkMatch "# robotidy: on" "on" "")
              (RegisterDisablers.init None None))
    as (s' & v & E & L & _ & V); try reflexivity.
  - simpl. auto.
  - simpl. lia.
  - simpl. auto.
  - by left.
  - by right.
  - exists s'. split; [exact E|].
    assert (v = 3) as Hv by (apply (V eq_refl); simpl; discriminate).
    rewrite Hv in L. exact L.
Defined.

(** ** What every step of the traversal keeps *)

Section Preserved.

Import RegisterDisablers.

Variable R : t -> t -> Prop.
Hypothesis R_refl : forall a, R a a.
Hypothesis R_trans : forall a b c, R a b -> R b c -> R a c.
Hypothesis R_scope : forall s a, R a (with_scope s a).
Hypothesis R_add :
  forall tr x y fl a,
    fl = false \/ fl = file_level_disablers a ->
    R a (with_disablers
           (DisablersInFile.add_disabler tr x y fl (disablers a)) a).
Hypothesis R_header :
  forall tr l a,
    R a (with_disablers
           (DisablersInFile.add_disabled_header tr l (disablers a)) a).

Lemma preserves_ret : preserves R ret.
Proof. intros a b [= <-]. apply R_refl. Qed.

Lemma preserves_seq m1 m2 :
  preserves R m1 -> preserves R m2 -> preserves R (seq m1 m2).
Proof.
  intros H1 H2 a b E. unfold seq in E.
  destruct (m1 a) as [a1|] eqn:E1; [|done]. simpl in E.
  eapply R_trans; [by apply H1 | by apply H2].
Qed.

Lemma preserves_for_each {A} (body : A -> M) xs :
  Forall (fun x => preserves R (body x)) xs -> preserves R (for_each body xs).
Proof.
  induction 1 as [|x xs Hx _ IH]; [apply preserves_ret|].
  by apply preserves_seq.
Qed.

Lemma preserves_push : preserves R push_scope.
Proof. intros a b [= <-]. apply R_scope. Qed.

Lemma preserves_close_one line entry : preserves R (close_one line entry).
Proof.
  destruct entry as [tr first]. intros a b E. unfold close_one in E.
  destruct (first =? 0); injection E as <-; [apply R_refl|].
  apply R_add. by right.
Qed.

Lemma preserves_close line : preserves R (close_disabler line).
Proof.
  intros a b E. unfold close_disabler in E.
  destruct (last (disablers_in_scope a)) as [entries|]; [|done]. simpl in E.
  eapply R_trans; [apply (R_scope (removelast (disablers_in_scope a)))|].
  revert E. apply preserves_for_each.
  apply List.Forall_forall. intros entry _. apply preserves_close_one.
Qed.

Lemma preserves_comment_step index ds line tr :
  preserves R (comment_step index ds line tr).
Proof.
  intros a b E. unfold comment_step in E.
  destruct (stack_get index (disablers_in_scope a)) as [frame|]; [|done].
  simpl in E.
  destruct ds, (frame_closed tr frame); injection E as <-;
    try apply R_refl; try apply R_scope.
  eapply R_trans; [apply R_add; by left | apply R_scope].
Qed.

Lemma preserves_inline_step loc c : preserves R (inline_step loc c).
Proof.
  unfold inline_step. destruct (get_disabler (value c)) as [m|];
    [|apply preserves_ret].
  destruct (String.eqb _ _); [|apply preserves_ret].
  apply preserves_for_each, List.Forall_forall. intros tr _ a b [= <-].
  apply R_add. by left.
Qed.

Lemma preserves_header_comments line comments :
  preserves R (header_comments line comments).
Proof.
  induction comments as [|c comments IH]; [apply preserves_ret|]. simpl.
  destruct (get_disabler (value c)) as [m|]; [|done].
  destruct (negb _); [done|].
  apply preserves_for_each, List.Forall_forall. intros tr _ a b [= <-].
  apply R_header.
Qed.

Lemma preserves_statement s : preserves R (visit_statement s).
Proof.
  unfold visit_statement, visit_Statement, visit_SectionHeader.
  destruct (sclass s).
  - destruct (get_token COMMENT s) as [c|]; [|by intros a b].
    destruct (get_disabler (value c)) as [m|]; [|apply preserves_ret].
    apply preserves_for_each, List.Forall_forall. intros tr _.
    apply preserves_comment_step.
  - apply preserves_header_comments.
  - apply preserves_for_each, List.Forall_forall. intros c _.
    apply preserves_inline_step.
Qed.

Lemma preserves_field field : preserves R (visit_field field).
Proof.
  destruct field; [apply preserves_statement | apply preserves_ret].
Qed.

Lemma preserves_all :
  (forall n, preserves R (visit n))
  /\ (forall t, preserves R (for_each visit (try_body t))
                /\ preserves R (try_while t)).
Proof.
  apply Node_TryNode_ind.
  - intros s. apply preserves_statement.
  - intros k header body end_ loc HP. simpl.
    apply preserves_seq; [apply preserves_push|].
    apply preserves_seq; [|apply preserves_close].
    apply preserves_seq; [apply preserves_field|].
    apply preserves_seq; [by apply preserves_for_each | apply preserves_field].
  - intros header body orelse end_ loc HP Ho. simpl.
    apply preserves_seq; [apply preserves_push|].
    apply preserves_seq; [|apply preserves_close].
    apply preserves_seq; [apply preserves_field|].
    apply preserves_seq; [by apply preserves_for_each|].
    apply preserves_seq; [|apply preserves_field].
    destruct orelse; [exact Ho | apply preserves_ret].
  - intros [h body next e l] [Hb Hw]. simpl in Hb.
    change (visit (NTry (mkTry h body next e l)))
      with (seq push_scope
              (seq (for_each visit body)
                 (seq (close_disabler (end_lineno l))
                    (try_while (mkTry h body next e l))))).
    apply preserves_seq; [apply preserves_push|].
    apply preserves_seq; [exact Hb|].
    apply preserves_seq; [apply preserves_close | exact Hw].
  - intros h body next e l HP Hn.
    assert (preserves R (for_each visit body)) as Hb
      by (by apply preserves_for_each).
    split; [exact Hb|]. simpl.
    destruct next as [t'|]; [|apply preserves_ret].
    apply preserves_seq; [|apply Hn].
    unfold try_round. apply preserves_seq; [apply preserves_push|].
    apply preserves_seq; [exact Hb | apply preserves_close].
Qed.

Lemma preserves_visit n : preserves R (visit n).
Proof. apply preserves_all. Qed.

Lemma preserves_section n : preserves R (visit_Section n).
Proof.
  unfold visit_Section, visit_TestCase.
  apply preserves_seq; [apply preserves_push|].
  apply preserves_seq; [|apply preserves_close].
  destruct n as [s|k h b e l|h b o e l|[h b nx e l]]; simpl.
  - apply preserves_ret.
  - apply preserves_seq; [apply preserves_field|].
    apply preserves_seq; [|apply preserves_field].
    apply preserves_for_each, List.Forall_forall. intros n _.
    apply preserves_visit.
  - apply preserves_seq; [apply preserves_field|].
    apply preserves_seq;
      [apply preserves_for_each, List.Forall_forall; intros n _;
       apply preserves_visit|].
    apply preserves_seq; [|apply preserves_field].
    destruct o; [apply preserves_visit | apply preserves_ret].
  - apply preserves_seq; [apply preserves_statement|].
    apply preserves_seq;
      [apply preserves_for_each, List.Forall_forall; intros n _;
       apply preserves_visit|].
    apply preserves_seq; [|apply preserves_field].
    destruct nx as [t'|]; [apply (preserves_visit (NTry t')) | apply preserves_ret].
Qed.

End Preserved.

Section Kept.

Import RegisterDisablers.

Lemma at_add_disabler_eq tr x y fl d :
  DisablersInFile.at_ tr (DisablersInFile.add_disabler tr x y fl d)
  = let d1 := DisabledLines.add_disabler x y (DisablersInFile.at_ tr d) in
    if fl then DisabledLines.set_disabled_whole fl d1 else d1.
Proof.
  unfold DisablersInFile.add_disabler, DisablersInFile.ensure,
    DisablersInFile.at_.
  destruct (DisablersInFile.disablers d !! tr) as [dt|] eqn:E; simpl;
    rewrite !lookup_insert_eq; simpl; by rewrite ?E.
Qed.

Lemma whole_add_disabler name tr x y d :
  DisabledLines.disabled_whole
    (DisablersInFile.at_ name (DisablersInFile.add_disabler tr x y false d))
  = DisabledLines.disabled_whole (DisablersInFile.at_ name d).
Proof.
  destruct (decide (name = tr)) as [Heq|Hne].
  - subst name. by rewrite at_add_disabler_eq.
  - by rewrite at_add_disabler_ne.
Qed.

Lemma whole_add_disabled_header name tr l d :
  DisabledLines.disabled_whole
    (DisablersInFile.at_ name (DisablersInFile.add_disabled_header tr l d))
  = DisabledLines.disabled_whole (DisablersInFile.at_ name d).
Proof.
  destruct (decide (name = tr)) as [Heq|Hne].
  - subst name. by rewrite at_add_disabled_header_eq.
  - by rewrite at_add_disabled_header_ne.
Qed.


Lemma whole_kept_visit n : preserves whole_kept (visit_Section n).
Proof.
  apply preserves_section.
  - by intros a.
  - intros a b c [F1 W1] [F2 W2]. split; [congruence|].
    intros Hf name. rewrite W2, W1 by congruence. done.
  - by intros s a.
  - intros tr x y fl a Hfl. split; [done|]. simpl. intros Hf name.
    assert (fl = false) as -> by (destruct Hfl; congruence).
    apply whole_add_disabler.
  - intros tr l a. split; [done|]. simpl. intros _ name.
    apply whole_add_disabled_header.
Qed.


Lemma whole_kept_sections index secs a b :
  (index = 0%nat ->
   match secs with [] => True | first :: _ => is_CommentSection first = false end) ->
  visit_sections index secs a = Some b ->
  forall name,
    DisabledLines.disabled_whole (DisablersInFile.at_ name (disablers b))
    = DisabledLines.disabled_whole (DisablersInFile.at_ name (disablers a)).
Proof.
  revert index a. induction secs as [|sec secs IH]; intros index a Hfirst E name.
  - by injection E as <-.
  - simpl in E. unfold seq in E.
    assert (Nat.eqb index 0 && is_CommentSection sec = false) as Hflag.
    { destruct index; [by rewrite Hfirst | done]. }
    rewrite Hflag in E.
    destruct (visit_Section sec (with_file_level false a)) as [a1|] eqn:E1;
      [|done]. simpl in E.
    rewrite (IH (S index) a1) by done.
    by apply (whole_kept_visit sec _ _ E1).
Qed.


End Kept.

(** X19: only a leading comment section can disable a whole file.  When
    the pass returns for a document whose first section is no comment
    section, [is_disabled_in_file] is false for every name. *)
Theorem whole_file_needs_leading_comment_section sl el (f : File) d :
  register_disablers sl el f = Some d ->
  match sections f with
  | [] => True
  | first :: _ => is_CommentSection first = false
  end ->
  forall name, DisablersInFile.is_disabled_in_file name d = false.
Proof.
  intros E Hfirst name. rewrite register_disablers_unfold in E.
  destruct (DisablersInFile.parse_global_disablers _) as [d0|] eqn:E0; [|done].
  simpl in E.
  destruct (RegisterDisablers.visit_sections _ _ _) as [s'|] eqn:E1; [|done].
  injection E as <-.
  rewrite is_disabled_in_file_either, !whole_sort_disablers.
  rewrite !(whole_kept_sections 0 _ _ _ (fun _ => Hfirst) E1). simpl.
  by rewrite !(proj1 (window_registry_flags sl el _ d0 _ E0)).
Qed.

Lemma whole_file_needs_leading_comment_section_witness :
  exists d,
    register_disablers None None (Samples.loop_off 0) = Some d
    /\ DisablersInFile.is_disabled_in_file "NormalizeSeparators" d = false.
Proof.
  destruct (register_disablers_goes_through None None (Samples.loop_off 0)
              eq_refl) as (d0 & d1 & _ & _ & E).
  exists (DisablersInFile.sort_disablers d1). split; [exact E|].
  by apply (whole_file_needs_leading_comment_section None None
              (Samples.loop_off 0) _ E).
Defined.

(** ** Section headers *)

Section Headers.

Import RegisterDisablers.

Lemma lines_of_add_disabled_header name tr l d :
  lines_of name (DisablersInFile.add_disabled_header tr l d) = lines_of name d.
Proof.
  unfold lines_of. destruct (decide (name = tr)) as [Heq|Hne].
  - subst name. by rewrite at_add_disabled_header_eq.
  - by rewrite at_add_disabled_header_ne.
Qed.

Lemma header_loop line ts self :
  exists self',
    for_each
      (fun transformer self =>
         Some (with_disablers
                 (DisablersInFile.add_disabled_header transformer line
                    (disablers self)) self)) ts self = Some self'
    /\ disablers_in_scope self' = disablers_in_scope self
    /\ (forall name,
          lines_of name (disablers self') = lines_of name (disablers self))
    /\ (forall name l,
          DisabledLines.is_header_disabled l
            (DisablersInFile.at_ name (disablers self'))
          = DisabledLines.is_header_disabled l
              (DisablersInFile.at_ name (disablers self))
            || bool_decide (name ∈ ts) && bool_decide (l = line)).
Proof.
  revert self. induction ts as [|t0 ts IH]; intros self.
  - exists self. do 3 (split; [done|]). intros name l.
    rewrite bool_decide_eq_false_2 by apply not_elem_of_nil.
    by rewrite orb_false_r.
  - simpl. unfold seq. simpl.
    destruct (IH (with_disablers
                    (DisablersInFile.add_disabled_header t0 line
                       (disablers self)) self)) as (s' & E & S' & L & H).
    exists s'. split; [done|]. split; [done|]. split.
    + intros name. rewrite L. simpl. apply lines_of_add_disabled_header.
    + intros name l. rewrite H. simpl. rewrite headers_add_disabled_header.
      rewrite (bool_decide_ext _ _ (elem_of_cons ts name t0)), bool_decide_or.
      by destruct (DisabledLines.is_header_disabled l _),
        (bool_decide (name = t0)), (bool_decide (l = line)),
        (bool_decide (name ∈ ts)).
Qed.

Lemma header_comments_skip line pre rest :
  forallb (fun c => negb (is_off_directive c)) pre = true ->
  header_comments line (pre ++ rest) = header_comments line rest.
Proof.
  induction pre as [|c pre IH]; [done|]. simpl.
  intros [Hc Hr]%andb_true_iff. unfold is_off_directive in Hc.
  destruct (get_disabler (value c)) as [m|]; [|by apply IH].
  rewrite Hc. by apply IH.
Qed.

Lemma header_registers (s : Statement) pre c post m self :
  sclass s = SectionHeader ->
  get_tokens COMMENT s = pre ++ c :: post ->
  forallb (fun c => negb (is_off_directive c)) pre = true ->
  get_disabler (value c) = Some m -> group_disabler m = "off" ->
  exists self',
    visit_statement s self = Some self'
    /\ disablers_in_scope self' = disablers_in_scope self
    /\ (forall name,
          lines_of name (disablers self') = lines_of name (disablers self))
    /\ (forall name line,
          DisablersInFile.is_header_disabled name line (disablers self')
          = DisablersInFile.is_header_disabled name line (disablers self)
            || bool_decide (line = lineno (sloc s))
               && (bool_decide (name ∈ get_disabler_transformers m)
                   || bool_decide
                        (ALL_TRANSFORMERS ∈ get_disabler_transformers m))).
Proof.
  intros Hc Htok Hpre Hm Hoff.
  destruct (header_loop (lineno (sloc s)) (get_disabler_transformers m) self)
    as (s' & E & S' & L & H).
  exists s'. split.
  { unfold visit_statement, visit_SectionHeader. rewrite Hc, Htok.
    rewrite header_comments_skip by done. simpl. by rewrite Hm, Hoff. }
  do 2 (split; [done|]). intros name line.
  rewrite !is_header_disabled_either, !H.
  by destruct (DisabledLines.is_header_disabled line _),
    (DisabledLines.is_header_disabled line _),
    (bool_decide (line = lineno (sloc s))),
    (bool_decide (name ∈ get_disabler_transformers m)),
    (bool_decide (ALL_TRANSFORMERS ∈ get_disabler_transformers m)).
Qed.





End Headers.

(** X20: on a section header the first [off] comment counts and no other:
    its targets get the header line as a disabled header, so the header
    query becomes true on that line for each of them, and for every name
    when the wildcard is among them; the comments after it are not read,
    and neither an interval nor the scope stack changes. *)
Theorem section_header_first_off_counts (s : Statement) pre c post m self :
  sclass s = SectionHeader ->
  get_tokens COMMENT s = pre ++ c :: post ->
  forallb (fun c => negb (is_off_directive c)) pre = true ->
  get_disabler (value c) = Some m -> group_disabler m = "off" ->
  exists self',
    RegisterDisablers.visit (NStatement s) self = Some self'
    /\ RegisterDisablers.disablers_in_scope self'
       = RegisterDisablers.disablers_in_scope self
    /\ (forall name,
          lines_of name (RegisterDisablers.disablers self')
          = lines_of name (RegisterDisablers.disablers self))
    /\ (forall name line,
          DisablersInFile.is_header_disabled name line
            (RegisterDisablers.disablers self')
          = DisablersInFile.is_header_disabled name line
              (RegisterDisablers.disablers self)
            || bool_decide (line = lineno (sloc s))
               && (bool_decide (name ∈ get_disabler_transformers m)
                   || bool_decide
                        (ALL_TRANSFORMERS ∈ get_disabler_transformers m))).
Proof. apply header_registers. Qed.

Lemma section_header_first_off_counts_witness :
  exists self',
    RegisterDisablers.visit
      (NStatement
         (mkStatement SectionHeader
            [mkToken DATA "*** Settings ***" 0; Samples.sep;
             Samples.cmt 20 "# robotidy: on"; Samples.sep;
             Samples.cmt 40 "# robotidy: off=A"; Samples.sep;
             Samples.cmt 60 "# robotidy: off=B"] (mkLoc 1 1)))
      (RegisterDisablers.init None None) = Some self'
    /\ DisablersInFile.is_header_disabled "A" 1
         (RegisterDisablers.disablers self') = true
    /\ DisablersInFile.is_header_disabled "B" 1
         (RegisterDisablers.disablers self') = false.
Proof.
  destruct (section_header_first_off_counts
              (mkStatement SectionHeader
                 [mkToken DATA "*** Settings ***" 0; Samples.sep;
                  Samples.cmt 20 "# robotidy: on"; Samples.sep;
                  Samples.cmt 40 "# robotidy: off=A"; Samples.sep;
                  Samples.cmt 60 "# robotidy: off=B"] (mkLoc 1 1))
              [Samples.cmt 20 "# robotidy: on"]
              (Samples.cmt 40 "# robotidy: off=A")
              [Samples.cmt 60 "# robotidy: off=B"]
              (mkMatch "# robotidy: off=A" "off" "A")
              (RegisterDisablers.init None None))
    as (s' & E & _ & _ & H); try reflexivity.
  exists s'. split; [exact E|]. by rewrite !H.
Defined.




(** ** The decorator after the pass *)

(** X22: after the pass, a method wrapped in [skip_if_disabled] is not
    called on a node, which is handed back as it came, when the node is
    true and one registered interval of the class name or of the wildcard
    covers it; in every other case the method is called. *)
Theorem skip_if_disabled_after_the_pass sl el (f : File) d name
    (R : Type) (same func : Node -> R) node :
  register_disablers sl el f = Some d ->
  (Decorators.truthy node = true
   /\ (exists iv,
         (In iv (lines_of ALL_TRANSFORMERS d) \/ In iv (lines_of name d))
         /\ covers iv (node_loc node)) ->
   Decorators.skip_if_disabled name d same func node = same node)
  /\ (~ (Decorators.truthy node = true
         /\ exists iv,
              (In iv (lines_of ALL_TRANSFORMERS d) \/ In iv (lines_of name d))
              /\ covers iv (node_loc node)) ->
      Decorators.skip_if_disabled name d same func node = func node).
Proof.
  intros E. rewrite register_disablers_unfold in E.
  destruct (DisablersInFile.parse_global_disablers _) as [d0|]; [|done].
  simpl in E.
  destruct (RegisterDisablers.visit_sections _ _ _) as [s'|]; [|done].
  injection E as <-. set (d1 := RegisterDisablers.disablers s').
  assert (forall n iv,
            In iv (lines_of n (DisablersInFile.sort_disablers d1))
            <-> In iv (lines_of n d1)) as Hin.
  { intros n iv. rewrite lines_of_sort_disablers. apply sorted_by_start_In. }
  assert (DisablersInFile.is_node_disabled name (Some (node_loc node)) true
            (DisablersInFile.sort_disablers d1) = true
          <-> exists iv,
                (In iv (lines_of ALL_TRANSFORMERS
                          (DisablersInFile.sort_disablers d1))
                 \/ In iv (lines_of name (DisablersInFile.sort_disablers d1)))
                /\ covers iv (node_loc node)) as Hq.
  { rewrite is_node_disabled_final. split; intros (iv & Hiv & Hc); exists iv;
      (split; [|done]); rewrite ?Hin in *; done. }
  unfold Decorators.skip_if_disabled, Decorators.as_query. split.
  - intros [Ht Hiv]. rewrite Ht. by rewrite (proj2 Hq Hiv).
  - intros Hno. destruct (Decorators.truthy node) eqn:Ht.
    + destruct (DisablersInFile.is_node_disabled _ _ _ _) eqn:Ed; [|done].
      destruct Hno. split; [done|]. by apply Hq.
    + by rewrite is_node_disabled_either.
Qed.

Lemma skip_if_disabled_after_the_pass_witness :
  exists d,
    register_disablers None None (Samples.loop_off 4) = Some d
    /\ Decorators.skip_if_disabled "AlignSettings" d (fun n => n)
         (fun _ => NStatement (Samples.kw 0)) (NStatement (Samples.kw 5))
       = NStatement (Samples.kw 5).
Proof.
  destruct (register_disablers None None (Samples.loop_off 4)) as [d|] eqn:E;
    [|vm_compute in E; discriminate].
  exists d. split; [done|].
  apply (skip_if_disabled_after_the_pass None None (Samples.loop_off 4) d
           "AlignSettings" Node (fun n => n)
           (fun _ => NStatement (Samples.kw 0)) (NStatement (Samples.kw 5)) E).
  split; [reflexivity|]. exists (4, 6).
  assert (lines_of ALL_TRANSFORMERS d = [(4, 6)]) as ->.
  { change (lines_of ALL_TRANSFORMERS d)
      with (match Some d with
            | Some d => lines_of ALL_TRANSFORMERS d
            | None => []
            end).
    rewrite <- E. by vm_compute. }
  split; [left; simpl; auto | vm_compute; split; discriminate].
Defined.

(** ** The scope stack stays balanced *)

(** X23: the traversal keeps the scope stack balanced.  On a tree the
    parser can build, a visit returns when a frame is open, and for a block
    also when none is; it leaves the stack as deep as it found it, with
    every frame but the first and the last untouched, and for a block every
    frame but the first; the window and the leading-section flag stay, and
    the registry only grows. *)
Theorem visit_keeps_the_stack_balanced (n : Node) self :
  wf_node n = true ->
  (is_statement n = true -> RegisterDisablers.disablers_in_scope self <> []) ->
  exists self',
    RegisterDisablers.visit n self = Some self'
    /\ length (RegisterDisablers.disablers_in_scope self')
       = length (RegisterDisablers.disablers_in_scope self)
    /\ middle (RegisterDisablers.disablers_in_scope self')
       = middle (RegisterDisablers.disablers_in_scope self)
    /\ (is_statement n = false ->
        tail (RegisterDisablers.disablers_in_scope self')
        = tail (RegisterDisablers.disablers_in_scope self))
    /\ RegisterDisablers.file_level_disablers self'
       = RegisterDisablers.file_level_disablers self
    /\ registry_grows (RegisterDisablers.disablers self)
         (RegisterDisablers.disablers self').
Proof.
  intros Hwf Hs.
  destruct (visit_goes_through_wf n Hwf self Hs)
    as (s' & E & (_ & _ & F & L & M & G) & T).
  exists s'. by repeat (split; [done|]).
Qed.

Lemma visit_keeps_the_stack_balanced_witness :
  exists self',
    RegisterDisablers.visit (NTry Samples.try_finally)
      (RegisterDisablers.with_scope [[("X", 2)]; [(ALL_TRANSFORMERS, 0)]]
         (RegisterDisablers.init None None)) = Some self'
    /\ RegisterDisablers.disablers_in_scope self'
       = [[("X", 2)]; [(ALL_TRANSFORMERS, 0)]].
Proof.
  destruct (visit_keeps_the_stack_balanced (NTry Samples.try_finally)
              (RegisterDisablers.with_scope
                 [[("X", 2)]; [(ALL_TRANSFORMERS, 0)]]
                 (RegisterDisablers.init None None)) eq_refl)
    as (s' & E & _); [discriminate|].
  exists s'. split; [exact E|].
  vm_compute in E. by injection E as <-.
Defined.

(** X24: the pass returns on every document the parser can build, whatever
    the window: it ends with no frame open, with the lines of every target
    in the order of their start lines, and with the wildcard in the
    registry, which the queries read without a check. *)
Theorem pass_returns_with_sorted_registry sl el (f : File) :
  wf_sections f = true ->
  exists self',
    RegisterDisablers.visit_File f (RegisterDisablers.init sl el) = Some self'
    /\ register_disablers sl el f = Some (RegisterDisablers.disablers self')
    /\ RegisterDisablers.disablers_in_scope self' = []
    /\ (forall name,
          StronglySorted by_start
            (lines_of name (RegisterDisablers.disablers self')))
    /\ DisablersInFile.disablers (RegisterDisablers.disablers self')
         !! ALL_TRANSFORMERS <> None.
Proof.
  intros Hwf.
  destruct (parse_global_disablers_init sl el (file_end_lineno f))
    as (d0 & E0 & _ & Hall & _).
  destruct (visit_sections_goes_through 0 (sections f)
              (RegisterDisablers.mk sl el d0 [] false) Hwf eq_refl)
    as (s' & E1 & S' & G).
  exists (RegisterDisablers.with_disablers
            (DisablersInFile.sort_disablers (RegisterDisablers.disablers s'))
            s').
  assert (RegisterDisablers.visit_File f (RegisterDisablers.init sl el)
          = Some (RegisterDisablers.with_disablers
                    (DisablersInFile.sort_disablers
                       (RegisterDisablers.disablers s')) s')) as E.
  { unfold RegisterDisablers.visit_File, RegisterDisablers.init. simpl.
    rewrite E0. simpl. unfold RegisterDisablers.with_disablers at 2. simpl.
    by rewrite E1. }
  split; [exact E|]. split; [unfold register_disablers; by rewrite E|].
  split; [done|]. split.
  - intros name. simpl. rewrite lines_of_sort_disablers.
    apply sorted_by_start_sorted.
  - simpl. rewrite lookup_fmap.
    destruct G as (_ & _ & _ & G).
    destruct (DisablersInFile.disablers d0 !! ALL_TRANSFORMERS) as [da|] eqn:Ea;
      [|done].
    destruct (G _ _ Ea) as (db & -> & _). done.
Qed.

Lemma pass_returns_with_sorted_registry_witness :
  exists self',
    RegisterDisablers.visit_File Samples.try_document
      (RegisterDisablers.init (Some 3) None) = Some self'
    /\ RegisterDisablers.disablers_in_scope self' = [].
Proof.
  destruct (pass_returns_with_sorted_registry (Some 3) None
              Samples.try_document eq_refl) as (s' & E & _ & S' & _).
  by exists s'.
Defined.

(** ** An inline Disable in the pass *)

Section InlineInThePass.

Import RegisterDisablers.

Variables (t : string) (iv : Z * Z).
















End InlineInThePass.




(** ** A document with one Disable comment *)

Section OneDisable.

Import RegisterDisablers.


Lemma with_scope_twice s s' self :
  with_scope s (with_scope s' self) = with_scope s self.
Proof. done. Qed.







End OneDisable.

Section OneDisableOnTheWay.

Import RegisterDisablers.





Variables (c : Statement) (comment : Token) (m : Match).
Hypothesis c_class : sclass c = Comment.
Hypothesis c_token : get_token COMMENT c = Some comment.
Hypothesis c_match : get_disabler (value comment) = Some m.
Hypothesis c_off : group_disabler m = "off".
Hypothesis c_line : lineno (sloc c) <> 0.













End OneDisableOnTheWay.


